(** * skorch.callbacks.scoring: a shallow embedding and its properties

    The development follows [src/skorch/callbacks/scoring.py]:
    the caching context [cache_net_infer], the base class [ScoringBase]
    and the two callbacks [BatchScoring] and [EpochScoring].

    Python objects that are mutated in place (the lists held in
    [y_trues_] and [y_preds_], the net's attribute dictionary, the net's
    history) live in an explicit [world]; a callback instance is a record
    that the methods read and update.  Every method is a computation in a
    state-and-exception monad, so that [try]/[except]/[finally] and early
    [return]s read as in the source.

    Scores are exact rationals ([Qc]), the finite numbers that a scorer
    can return, and the running best additionally ranges over the two
    infinities that [initialize] installs.  Rounding is not part of this
    model: where the value of the average itself is at stake, module [F64]
    takes the averaging of [BatchScoring] over IEEE 754 binary64 numbers,
    NaN and the infinities included. *)

From Stdlib Require Import QArith Qcanon.
From Stdlib Require PrimFloat Uint63.
From stdpp Require Import numbers strings fin_maps gmap list.

Set Default Proof Using "Type".

(** ** Python values *)

(** Raw data emitted by the training loop (batches of [X], [y], [y_pred]). *)
Definition tensor := list Z.

(** What [target_extractor] and [np.concatenate] produce. *)
Definition ndarray := list Z.

(** Identity of a mutable Python list. *)
Abbreviation loc := positive.

Inductive exn :=
| KeyError
| IndexError
| AttributeError
| StopIteration
| ZeroDivisionError
| ValueError
| UserError (code : nat).

Global Instance exn_eq_dec : EqDecision exn.
Proof. solve_decision. Defined.

(** A value stored in the history: a number or a boolean flag. *)
Inductive value :=
| VNum (q : Qc)
| VBool (b : bool).

(** The running best: a score or one of [np.inf], [-np.inf]. *)
Inductive ext :=
| NegInf
| Fin (q : Qc)
| PosInf.

(** [current < best] and [current > best] for a finite current score. *)
Definition score_lt (current : Qc) (best : ext) : bool :=
  match best with
  | NegInf => false
  | Fin b => bool_decide (current < b)%Qc
  | PosInf => true
  end.

Definition score_gt (current : Qc) (best : ext) : bool :=
  match best with
  | NegInf => true
  | Fin b => bool_decide (b < current)%Qc
  | PosInf => false
  end.

(** Datasets: skorch's own [Dataset] (whose [y] may be [None]) or any
    other object that the user fits with. *)
Inductive dataset :=
| SkorchDataset (X : option tensor) (y : option tensor)
| CustomDataset (id : Z).

(** What is handed to the scorer as [X_test]: a batch, or a whole dataset. *)
Inductive xtest :=
| XTensor (X : tensor)
| XDataset (ds : dataset).

(** ** The run history *)

Record epoch := Epoch {
  ep_entries : gmap string value;
  ep_batches : list (gmap string value)
}.

Definition History := list epoch.

Inductive result (A : Type) :=
| Ok (a : A)
| Raise (e : exn).
Arguments Ok {A} a.
Arguments Raise {A} e.

Module history.

(** Modelled from the spec: the history store ([skorch.history.History])
    is not under src/.  It is an ordered log of epochs; each epoch holds
    named entries and an ordered list of batches, each batch holding named
    entries.  [history[-1]] is the last epoch. *)
Definition new_epoch (h : History) : History :=
  h ++ [Epoch ∅ []].

Definition alter_last {A} (f : A → A) (l : list A) : list A :=
  alter f (pred (length l)) l.

(** Modelled from the spec: the training loop opens a batch slot in the
    current epoch before a batch is processed. *)
Definition new_batch (h : History) : result History :=
  match last h with
  | None => Raise IndexError
  | Some _ =>
      Ok (alter_last (λ e, Epoch (ep_entries e) (ep_batches e ++ [∅])) h)
  end.

(** Modelled from the spec: "recording a scalar/boolean under a name
    scoped to the current epoch". *)
Definition record (name : string) (v : value) (h : History) : result History :=
  match last h with
  | None => Raise IndexError
  | Some _ =>
      Ok (alter_last (λ e, Epoch (<[name := v]> (ep_entries e)) (ep_batches e)) h)
  end.

(** Modelled from the spec: "recording a scalar under a name scoped to a
    specific batch within the current epoch" (the last batch). *)
Definition record_batch (name : string) (v : value) (h : History) : result History :=
  match last h with
  | None => Raise IndexError
  | Some e =>
      match last (ep_batches e) with
      | None => Raise IndexError
      | Some _ =>
          Ok (alter_last
                (λ e, Epoch (ep_entries e)
                            (alter_last (λ b, <[name := v]> b) (ep_batches e))) h)
      end
  end.

(** One row of a two-key batch query: the values under both keys, when
    the batch has both. *)
Definition row (k1 k2 : string) (b : gmap string value) : option (value * value) :=
  v1 ← b !! k1; v2 ← b !! k2; Some (v1, v2).

(** Modelled from the spec: "querying all recorded batch-level values for
    a name across the current epoch (raising a lookup failure if the name
    was never recorded this epoch), paired with each batch's declared
    sample count": [history[-1, 'batches', :, [k1, k2]]].  Batches that
    lack one of the keys contribute no row. *)
Definition batches_pairs (k1 k2 : string) (h : History) : result (list (value * value)) :=
  match last h with
  | None => Raise IndexError
  | Some e =>
      match omap (row k1 k2) (ep_batches e) with
      | [] => Raise KeyError
      | rows => Ok rows
      end
  end.

(** [history[-1, 'batches', :, name]] for a single name. *)
Definition batches_column (name : string) (h : History) : result (list value) :=
  match last h with
  | None => Raise IndexError
  | Some e =>
      match omap (λ b : gmap string value, b !! name) (ep_batches e) with
      | [] => Raise KeyError
      | col => Ok col
      end
  end.

End history.

(** ** The world: heap of lists, the net's attribute dictionary, the history *)

(** A Python list iterator: the list it walks and the next index. *)
Definition list_iterator : Type := loc * nat.

Record world := World {
  heap : gmap loc (list tensor);
  (** [net.__dict__.get('infer')]: the override installed by the caching
      context, a closure over an iterator; absent for a plain net. *)
  net_dict_infer : option list_iterator;
  net_history : History
}.

Definition set_heap (hp : gmap loc (list tensor)) (w : world) : world :=
  World hp (net_dict_infer w) (net_history w).
Definition set_net_dict_infer (o : option list_iterator) (w : world) : world :=
  World (heap w) o (net_history w).
Definition set_net_history (h : History) (w : world) : world :=
  World (heap w) (net_dict_infer w) h.

(** ** State and exceptions *)

Definition M (S A : Type) : Type := S → result A * S.

Definition ret {S A} (a : A) : M S A := λ s, (Ok a, s).
Definition raise {S A} (e : exn) : M S A := λ s, (Raise e, s).
Definition bind {S A B} (m : M S A) (k : A → M S B) : M S B :=
  λ s, match m s with
       | (Ok a, s') => k a s'
       | (Raise e, s') => (Raise e, s')
       end.
Definition get {S} : M S S := λ s, (Ok s, s).
Definition put {S} (s : S) : M S unit := λ _, (Ok tt, s).
Definition modify {S} (f : S → S) : M S unit := λ s, (Ok tt, f s).

(** [try: m except e: handler] *)
Definition try_except {S A} (m : M S A) (e : exn) (handler : M S A) : M S A :=
  λ s, match m s with
       | (Raise e', s') => if decide (e' = e) then handler s' else (Raise e', s')
       | r => r
       end.

(** [try: m finally: cleanup]; an exception raised by the cleanup replaces
    the outcome of [m]. *)
Definition try_finally {S A} (m : M S A) (cleanup : M S unit) : M S A :=
  λ s, match m s with
       | (r, s') =>
           match cleanup s' with
           | (Ok _, s'') => (r, s'')
           | (Raise e, s'') => (Raise e, s'')
           end
       end.

Declare Scope py_scope.
Delimit Scope py_scope with py.
Notation "x <- c1 ;; c2" := (bind c1 (λ x, c2))
  (at level 20, c1 at level 99, c2 at level 200, right associativity,
   format "'[v' x  <-  c1  ;; '/' c2 ']'") : py_scope.
Notation "c1 ;;; c2" := (bind c1 (λ _, c2))
  (at level 100, c2 at level 200, right associativity,
   format "'[v' c1  ;;; '/' c2 ']'") : py_scope.
Open Scope py_scope.

Definition of_result {S A} (r : result A) : M S A :=
  match r with
  | Ok a => ret a
  | Raise e => raise e
  end.

(** Run a computation on the world inside a larger state [E * world]
    (the first component is the callback instance [self]). *)
Definition on_world {E A} (m : M world A) : M (E * world) A :=
  λ '(e, w), match m w with (r, w') => (r, (e, w')) end.

Definition on_self {E A} (m : M E A) : M (E * world) A :=
  λ '(e, w), match m e with (r, e') => (r, (e', w)) end.

(** ** Scorers and the net *)

(** A scorer is an opaque callable [(net, X, y) -> scalar].  What it can do
    with the net is call its prediction operation [net.infer] (through
    [net.predict] and the like), read the history, return or raise. *)
Inductive prog (A : Type) :=
| Return (a : A)
| Throw (e : exn)
| CallInfer (x : tensor) (k : tensor → prog A)
| ReadHistory (k : History → prog A).
Arguments Return {A} a.
Arguments Throw {A} e.
Arguments CallInfer {A} x k.
Arguments ReadHistory {A} k.

Definition scorer : Type := xtest → option ndarray → prog Qc.

(** The [scoring] argument: [None], a string, a [functools.partial] or any
    other callable.  A callable may lack a [__name__]. *)
Inductive scoring_spec :=
| ScoringNone
| ScoringStr (s : string)
| ScoringPartial (func_name : option string) (call : scorer)
| ScoringCallable (dunder_name : option string) (call : scorer).

(** The class-level behaviour of a [NeuralNet]: its bound method [infer],
    its [score] method, and the scorers sklearn knows by name. *)
Record NeuralNet := {
  nn_infer : tensor → tensor;
  nn_score : scorer;
  sklearn_scorers : string → option scorer
}.

Definition alloc (xs : list tensor) : M world loc :=
  λ w, let l := fresh (dom (heap w)) in
       (Ok l, set_heap (<[l := xs]> (heap w)) w).

(** [lst.append(x)] on the list object at [l]. *)
Definition append (l : loc) (x : tensor) : M world unit :=
  modify (λ w, set_heap (alter (λ xs, xs ++ [x]) l (heap w)) w).

Definition read_list (l : loc) : M world (list tensor) :=
  λ w, (Ok (default [] (heap w !! l)), w).

(** [next(it)] on a list iterator. *)
Definition next (it : list_iterator) (hp : gmap loc (list tensor)) : option tensor :=
  hp !! it.1 ≫= (λ ys, ys !! it.2).

(** The prediction operation of the net as attribute lookup resolves it:
    the instance attribute when there is one, else the bound method. *)
Inductive infer_op :=
| BoundMethod
| Replay (it : list_iterator).

Definition lookup_infer (w : world) : infer_op :=
  match net_dict_infer w with
  | Some it => Replay it
  | None => BoundMethod
  end.

Section WithNet.

Variable net : NeuralNet.

(** [net.infer(x)] *)
Definition call_infer (x : tensor) : M world tensor :=
  λ w, match lookup_infer w with
       | BoundMethod => (Ok (nn_infer net x), w)
       | Replay it =>
           (* lambda *a, **kw: next(y_preds) *)
           match next it (heap w) with
           | Some y => (Ok y, set_net_dict_infer (Some (it.1, S it.2)) w)
           | None => (Raise StopIteration, w)
           end
       end.

Fixpoint run_prog {A} (p : prog A) : M world A :=
  match p with
  | Return a => ret a
  | Throw e => raise e
  | CallInfer x k => y <- call_infer x ;; run_prog (k y)
  | ReadHistory k => λ w, run_prog (k (net_history w)) w
  end.

(** [with cache_net_infer(net, use_caching, y_preds) as cached_net: body] *)
Definition cache_net_infer {E A} (use_caching : bool) (y_preds : loc)
    (body : M (E * world) A) : M (E * world) A :=
  if negb use_caching then
    body
  else
    on_world (modify (set_net_dict_infer (Some (y_preds, 0)))) ;;;
    try_finally body
      (* del net.__dict__['infer'] *)
      (on_world (λ w, match net_dict_infer w with
                      | Some _ => (Ok tt, set_net_dict_infer None w)
                      | None => (Raise KeyError, w)
                      end)).

(** [sklearn.metrics.scorer.check_scoring] *)
Definition check_scoring (scoring : scoring_spec) : result scorer :=
  match scoring with
  | ScoringNone => Ok (nn_score net)
  | ScoringStr s =>
      match sklearn_scorers net s with
      | Some f => Ok f
      | None => Raise ValueError
      end
  | ScoringPartial _ f => Ok f
  | ScoringCallable _ f => Ok f
  end.

End WithNet.

(** ** ScoringBase *)

Record ScoringBase := {
  scoring : scoring_spec;
  lower_is_better : option bool;
  on_train : bool;
  name : option string;
  target_extractor : tensor → ndarray;
  use_caching : bool;
  (* attributes that exist once [initialize] ran *)
  best_score_ : option ext;
  name_ : option string;
  (* attributes of [EpochScoring] *)
  y_trues_ : option loc;
  y_preds_ : option loc;
  y_is_placeholder_ : option bool
}.

(** [ScoringBase.__init__] *)
Definition __init__ (scoring : scoring_spec) (lower_is_better : option bool)
    (on_train : bool) (name : option string)
    (target_extractor : tensor → ndarray) (use_caching : bool) : ScoringBase :=
  {| scoring := scoring; lower_is_better := lower_is_better;
     on_train := on_train; name := name;
     target_extractor := target_extractor; use_caching := use_caching;
     best_score_ := None; name_ := None;
     y_trues_ := None; y_preds_ := None; y_is_placeholder_ := None |}.

Definition set_best_score_ (v : ext) (self : ScoringBase) : ScoringBase :=
  {| scoring := scoring self; lower_is_better := lower_is_better self;
     on_train := on_train self; name := name self;
     target_extractor := target_extractor self; use_caching := use_caching self;
     best_score_ := Some v; name_ := name_ self;
     y_trues_ := y_trues_ self; y_preds_ := y_preds_ self;
     y_is_placeholder_ := y_is_placeholder_ self |}.

Definition set_name_ (v : string) (self : ScoringBase) : ScoringBase :=
  {| scoring := scoring self; lower_is_better := lower_is_better self;
     on_train := on_train self; name := name self;
     target_extractor := target_extractor self; use_caching := use_caching self;
     best_score_ := best_score_ self; name_ := Some v;
     y_trues_ := y_trues_ self; y_preds_ := y_preds_ self;
     y_is_placeholder_ := y_is_placeholder_ self |}.

Definition set_y_trues_ (v : loc) (self : ScoringBase) : ScoringBase :=
  {| scoring := scoring self; lower_is_better := lower_is_better self;
     on_train := on_train self; name := name self;
     target_extractor := target_extractor self; use_caching := use_caching self;
     best_score_ := best_score_ self; name_ := name_ self;
     y_trues_ := Some v; y_preds_ := y_preds_ self;
     y_is_placeholder_ := y_is_placeholder_ self |}.

Definition set_y_preds_ (v : loc) (self : ScoringBase) : ScoringBase :=
  {| scoring := scoring self; lower_is_better := lower_is_better self;
     on_train := on_train self; name := name self;
     target_extractor := target_extractor self; use_caching := use_caching self;
     best_score_ := best_score_ self; name_ := name_ self;
     y_trues_ := y_trues_ self; y_preds_ := Some v;
     y_is_placeholder_ := y_is_placeholder_ self |}.

Definition set_y_is_placeholder_ (v : bool) (self : ScoringBase) : ScoringBase :=
  {| scoring := scoring self; lower_is_better := lower_is_better self;
     on_train := on_train self; name := name self;
     target_extractor := target_extractor self; use_caching := use_caching self;
     best_score_ := best_score_ self; name_ := name_ self;
     y_trues_ := y_trues_ self; y_preds_ := y_preds_ self;
     y_is_placeholder_ := Some v |}.

(** A method body: [self] and the world. *)
Definition method (A : Type) : Type := M (ScoringBase * world) A.

(** [self.attr], raising [AttributeError] while the attribute is unset. *)
Definition attr {A} (f : ScoringBase → option A) : method A :=
  λ '(self, w), match f self with
                | Some a => (Ok a, (self, w))
                | None => (Raise AttributeError, (self, w))
                end.

Definition setattr (f : ScoringBase → ScoringBase) : method unit :=
  on_self (modify f).

Definition _get_name (self : ScoringBase) : result string :=
  match name self with
  | Some n => Ok n
  | None =>
      match scoring self with
      | ScoringNone => Ok "score"
      | ScoringStr s => Ok s
      | ScoringPartial (Some n) _ => Ok n
      | ScoringCallable (Some n) _ => Ok n
      | _ => Raise AttributeError
      end
  end.

Definition initialize : method unit :=
  self <- on_self get ;;
  setattr (set_best_score_
             (if default false (lower_is_better self) then PosInf else NegInf)) ;;;
  n <- of_result (_get_name self) ;;
  setattr (set_name_ n).

Definition _scoring (net : NeuralNet) (self : ScoringBase)
    (X_test : xtest) (y_test : option ndarray) : M world Qc :=
  scorer <- of_result (check_scoring net (scoring self)) ;;
  (* sklearn's _score: scorer(estimator, X_test, y_test) *)
  run_prog net (scorer X_test y_test).

Definition _is_best_score (self : ScoringBase) (current_score : Qc)
    : result (option bool) :=
  match lower_is_better self with
  | None => Ok None
  | Some true =>
      match best_score_ self with
      | Some best => Ok (Some (score_lt current_score best))
      | None => Raise AttributeError
      end
  | Some false =>
      match best_score_ self with
      | Some best => Ok (Some (score_gt current_score best))
      | None => Raise AttributeError
      end
  end.

Definition update_history (f : History → result History) : M world unit :=
  λ w, match f (net_history w) with
       | Ok h => (Ok tt, set_net_history h w)
       | Raise e => (Raise e, w)
       end.

Definition query_history {A} (f : History → result A) : M world A :=
  λ w, (f (net_history w), w).

(** ** numpy *)

(** How numpy reads a stored value as a number. *)
Definition to_num (v : value) : Qc :=
  match v with
  | VNum q => q
  | VBool true => 1%Qc
  | VBool false => 0%Qc
  end.

Definition np_sum (l : list Qc) : Qc := foldr Qcplus 0%Qc l.

(** [np.average(a, weights=weights)] *)
Definition np_average (a weights : list value) : result Qc :=
  let wgt := to_num <$> weights in
  let scl := np_sum wgt in
  if decide (scl = 0%Qc) then Raise ZeroDivisionError
  else Ok (np_sum (zip_with Qcmult (to_num <$> a) wgt) / scl)%Qc.

(** ** BatchScoring *)

Module BatchScoring.
Section WithNet.

Variable net : NeuralNet.

Definition on_batch_end (X y : tensor) (training : bool) (y_pred : tensor)
    : method unit :=
  self <- on_self get ;;
  if negb (eqb training (on_train self)) then
    ret tt
  else
    y_preds <- on_world (alloc [y_pred]) ;;
    cache_net_infer (use_caching self) y_preds
      (let y := target_extractor self y in
       try_except
         (score <- on_world (_scoring net self (XTensor X) (Some y)) ;;
          n <- attr name_ ;;
          on_world (update_history (history.record_batch n (VNum score))))
         KeyError
         (ret tt)).

Definition get_avg_score (self : ScoringBase) (h : History) : result Qc :=
  let bs_key := if on_train self then "train_batch_size" else "valid_batch_size" in
  match name_ self with
  | None => Raise AttributeError
  | Some n =>
      match history.batches_pairs bs_key n h with
      | Raise e => Raise e
      | Ok rows =>
          (* weights, scores: the rows unpacked and zipped *)
          let weights := rows.*1 in
          let scores := rows.*2 in
          np_average scores weights
      end
  end.

Definition on_epoch_end : method unit :=
  n <- attr name_ ;;
  found <- try_except
             (on_world (query_history (history.batches_column n)) ;;; ret true)
             KeyError
             (ret false) ;;
  if negb found then
    ret tt
  else
    self <- on_self get ;;
    score_avg <- on_world (query_history (get_avg_score self)) ;;
    is_best <- of_result (_is_best_score self score_avg) ;;
    (if default false is_best then setattr (set_best_score_ (Fin score_avg))
     else ret tt) ;;;
    on_world (update_history (history.record n (VNum score_avg))) ;;;
    match is_best with
    | Some b =>
        on_world (update_history (history.record (n +:+ "_best") (VBool b)))
    | None => ret tt
    end.

End WithNet.
End BatchScoring.

(** ** EpochScoring *)

(** Modelled from the spec: [skorch.utils.is_skorch_dataset] and
    [skorch.dataset.Dataset] are not under src/; a skorch dataset is one
    that exposes raw [(X, y)], and its [y] may be absent. *)
Definition is_skorch_dataset (ds : option dataset) : bool :=
  match ds with
  | Some (SkorchDataset _ _) => true
  | _ => false
  end.

(** Modelled from the spec: [skorch.utils.data_from_dataset] is not under
    src/; it "re-extracts [(X, y)] directly from the dataset". *)
Definition data_from_dataset (ds : dataset) : option tensor * option tensor :=
  match ds with
  | SkorchDataset X y => (X, y)
  | CustomDataset _ => (None, None)
  end.

Module EpochScoring.
Section WithNet.

Variable net : NeuralNet.

Definition _initialize_cache : method unit :=
  l <- on_world (alloc []) ;;
  setattr (set_y_trues_ l) ;;;
  l <- on_world (alloc []) ;;
  setattr (set_y_preds_ l).

Definition initialize : method unit :=
  initialize ;;;
  _initialize_cache.

Definition on_epoch_begin (dataset_train dataset_valid : option dataset)
    : method unit :=
  _initialize_cache ;;;
  self <- on_self get ;;
  let ds := if on_train self then dataset_train else dataset_valid in
  (* isinstance(ds, Dataset) and ds.y is None *)
  setattr (set_y_is_placeholder_
             (match ds with
              | Some (SkorchDataset _ None) => true
              | _ => false
              end)).

Definition on_batch_end (y y_pred : tensor) (training : bool) : method unit :=
  self <- on_self get ;;
  if negb (use_caching self) || negb (eqb training (on_train self)) then
    ret tt
  else
    placeholder <- attr y_is_placeholder_ ;;
    (if negb placeholder then
       l <- attr y_trues_ ;;
       on_world (append l y)
     else ret tt) ;;;
    l <- attr y_preds_ ;;
    on_world (append l y_pred).

(** The first half of [on_epoch_end]: what is handed to the scorer,
    [(X_test, y_pred, y_test)]. *)
Definition scoring_inputs (dataset_train dataset_valid : option dataset)
    : method (option xtest * loc * option ndarray) :=
  self <- on_self get ;;
  let dataset := if on_train self then dataset_train else dataset_valid in
  if use_caching self then
    let X_test := XDataset <$> dataset in
    y_pred <- attr y_preds_ ;;
    l <- attr y_trues_ ;;
    ys <- on_world (read_list l) ;;
    let y_test := target_extractor self <$> ys in
    let y_test := match y_test with
                  | [] => None
                  | _ => Some (concat y_test)
                  end in
    ret (X_test, y_pred, y_test)
  else
    let '(X_test, y_test) :=
      match dataset with
      | Some ds =>
          if is_skorch_dataset dataset then
            let '(X, y) := data_from_dataset ds in (XTensor <$> X, y)
          else (Some (XDataset ds), None)
      | None => (None, None)
      end in
    y_pred <- on_world (alloc []) ;;
    let y_test := target_extractor self <$> y_test in
    ret (X_test, y_pred, y_test).

Definition on_epoch_end (dataset_train dataset_valid : option dataset)
    : method unit :=
  inputs <- scoring_inputs dataset_train dataset_valid ;;
  let '(X_test, y_pred, y_test) := inputs in
  match X_test with
  | None => ret tt
  | Some X_test =>
      self <- on_self get ;;
      cache_net_infer (use_caching self) y_pred
        (current_score <- on_world (_scoring net self X_test y_test) ;;
         n <- attr name_ ;;
         on_world (update_history (history.record n (VNum current_score))) ;;;
         is_best <- of_result (_is_best_score self current_score) ;;
         match is_best with
         | None => ret tt
         | Some b =>
             on_world (update_history
                         (history.record (n +:+ "_best") (VBool b))) ;;;
             if b then setattr (set_best_score_ (Fin current_score))
             else ret tt
         end)
  end.

Definition on_train_end : method unit :=
  _initialize_cache.

End WithNet.
End EpochScoring.

(** ** The training loop as the callbacks see it *)

(** The key under which the loop records a batch's sample count. *)
Definition bs_key (training : bool) : string :=
  if training then "train_batch_size" else "valid_batch_size".

(** Lifecycle events delivered to a callback, and the two things the
    training loop itself does to the history between them: opening an epoch
    and opening a batch (recording its sample count). *)
Inductive event :=
| Initialize
| EpochBegin (dataset_train dataset_valid : option dataset)
| BatchEnd (X y y_pred : tensor) (training : bool)
| EpochEnd (dataset_train dataset_valid : option dataset)
| TrainEnd
| LoopNewEpoch
| LoopNewBatch (training : bool) (size : Z).

Inductive strategy :=
| PerBatch
| PerEpoch.

Definition loop_new_epoch : M world unit :=
  modify (λ w, set_net_history (history.new_epoch (net_history w)) w).

Definition loop_new_batch (training : bool) (size : Z) : M world unit :=
  update_history history.new_batch ;;;
  update_history (history.record_batch (bs_key training)
                    (VNum (Q2Qc (inject_Z size)))).

(** Dispatch of one event to a callback of the given class.  The methods a
    class does not define are the ones it inherits from [Callback], which
    do nothing. *)
Definition fire (net : NeuralNet) (k : strategy) (ev : event) : method unit :=
  match ev, k with
  | Initialize, PerBatch => initialize
  | Initialize, PerEpoch => EpochScoring.initialize
  | EpochBegin _ _, PerBatch => ret tt
  | EpochBegin dt dv, PerEpoch => EpochScoring.on_epoch_begin dt dv
  | BatchEnd X y y_pred training, PerBatch =>
      BatchScoring.on_batch_end net X y training y_pred
  | BatchEnd _ y y_pred training, PerEpoch =>
      EpochScoring.on_batch_end y y_pred training
  | EpochEnd _ _, PerBatch => BatchScoring.on_epoch_end
  | EpochEnd dt dv, PerEpoch => EpochScoring.on_epoch_end net dt dv
  | TrainEnd, PerBatch => ret tt
  | TrainEnd, PerEpoch => EpochScoring.on_train_end
  | LoopNewEpoch, _ => on_world loop_new_epoch
  | LoopNewBatch training size, _ => on_world (loop_new_batch training size)
  end.

(** A run: the events in order, stopping at the first exception. *)
Fixpoint run (net : NeuralNet) (k : strategy) (evs : list event) : method unit :=
  match evs with
  | [] => ret tt
  | ev :: evs' => fire net k ev ;;; run net k evs'
  end.

(** The state a computation leaves behind, whether it returned or raised. *)
Definition exec {S A} (m : M S A) (s : S) : S := (m s).2.

(** The epoch-level entries recorded under [key], one per epoch. *)
Definition epoch_column (key : string) (h : History) : list (option value) :=
  (λ e, ep_entries e !! key) <$> h.

(** The contents of a callback's two cache lists. *)
Definition cache_of (self : ScoringBase) (w : world)
    : option (list tensor) * option (list tensor) :=
  (y_trues_ self ≫= (λ l, heap w !! l), y_preds_ self ≫= (λ l, heap w !! l)).

(** A body that invokes the prediction operation once per element of
    [xs], with that element as argument, and collects what it returns. *)
Fixpoint infer_each (xs : list tensor) (acc : list tensor) : prog (list tensor) :=
  match xs with
  | [] => Return (reverse acc)
  | x :: xs' => CallInfer x (λ y, infer_each xs' (y :: acc))
  end.

(** ** Notions used to state the properties *)

(** The world in which [BatchScoring.on_batch_end] runs the scorer: the
    one-element list [[y_pred]] has been allocated and, with caching, the
    override over it installed. *)
Definition batch_scoring_world (self : ScoringBase) (w : world) (y_pred : tensor)
    : world :=
  let l := fresh (dom (heap w)) in
  let w1 := set_heap (<[l := [y_pred]]> (heap w)) w in
  if use_caching self then set_net_dict_infer (Some (l, 0)) w1 else w1.

(** The sample-size-weighted mean of a list of [(size, score)] pairs: the
    sum of [size * score] over the sum of the sizes. *)
Definition weighted_mean (batches : list (Qc * Qc)) : Qc :=
  let total := foldr (λ b acc, b.1 + acc)%Qc 0%Qc batches in
  let weighted := foldr (λ b acc, b.1 * b.2 + acc)%Qc 0%Qc batches in
  (weighted / total)%Qc.

Definition total_size (batches : list (Qc * Qc)) : Qc :=
  foldr (λ b acc, b.1 + acc)%Qc 0%Qc batches.

(** The batches of an epoch that have a score recorded under [n]. *)
Definition scored_batches (n : string) (ep : epoch) : list (gmap string value) :=
  filter (λ b : gmap string value, is_Some (b !! n)) (ep_batches ep).

(** Batch [b] holds sample count [r.1] and score [r.2]. *)
Definition batch_holds (training : bool) (n : string)
    (b : gmap string value) (r : Qc * Qc) : Prop :=
  b !! bs_key training = Some (VNum r.1) ∧ b !! n = Some (VNum r.2).

(** The order on scores extended with the two infinities. *)
Inductive ext_lt : ext → ext → Prop :=
| lt_neg_fin q : ext_lt NegInf (Fin q)
| lt_neg_pos : ext_lt NegInf PosInf
| lt_fin_fin a b : (a < b)%Qc → ext_lt (Fin a) (Fin b)
| lt_fin_pos q : ext_lt (Fin q) PosInf.

(** What an [on_epoch_end] of either callback can do to the callback and
    to the history: nothing; record a score; record a score and the
    is-best flag, taking the score as the new running best when the flag is
    true; or record a score and fail on the comparison. *)
Inductive epoch_end_outcome (self : ScoringBase) (h : History)
    : result unit → ScoringBase → History → Prop :=
| nothing_recorded r :
    epoch_end_outcome self h r self h
| score_recorded n c hs ep :
    name_ self = Some n →
    h = hs ++ [ep] →
    _is_best_score self c = Ok None →
    epoch_end_outcome self h (Ok ()) self
      (hs ++ [Epoch (<[n := VNum c]> (ep_entries ep)) (ep_batches ep)])
| score_and_flag_recorded n c b hs ep :
    name_ self = Some n →
    h = hs ++ [ep] →
    _is_best_score self c = Ok (Some b) →
    epoch_end_outcome self h (Ok ())
      (if b then set_best_score_ (Fin c) self else self)
      (hs ++ [Epoch (<[n +:+ "_best" := VBool b]>
                       (<[n := VNum c]> (ep_entries ep)))
                    (ep_batches ep)])
| score_recorded_then_error n c e hs ep :
    name_ self = Some n →
    h = hs ++ [ep] →
    _is_best_score self c = Raise e →
    epoch_end_outcome self h (Raise e) self
      (hs ++ [Epoch (<[n := VNum c]> (ep_entries ep)) (ep_batches ep)]).

(** The list objects a callback holds in its cache attributes. *)
Definition owns (self : ScoringBase) (l : loc) : Prop :=
  y_trues_ self = Some l ∨ y_preds_ self = Some l.

(** Two states of a callback with the same constructor arguments. *)
Definition same_params (self self' : ScoringBase) : Prop :=
  scoring self' = scoring self
  ∧ lower_is_better self' = lower_is_better self
  ∧ on_train self' = on_train self
  ∧ name self' = name self
  ∧ target_extractor self' = target_extractor self
  ∧ use_caching self' = use_caching self.

(** All batch slots of a history, and the histories in which no batch has
    an entry under [key]. *)
Definition batch_maps (h : History) : list (gmap string value) :=
  h ≫= ep_batches.

Definition batch_free (key : string) (h : History) : Prop :=
  Forall (λ b : gmap string value, b !! key = None) (batch_maps h).

(** What one event, delivered to the callback [self] in world [w], can
    change on the way to [self'] and [w']. *)
Record event_frame (self : ScoringBase) (w : world)
    (self' : ScoringBase) (w' : world) : Prop := {
  (** the constructor arguments stay *)
  ef_params : same_params self self';
  (** [name_] stays, or is set to what [_get_name] returns *)
  ef_name :
    name_ self' = name_ self
    ∨ ∃ n, _get_name self = Ok n ∧ name_ self' = Some n;
  (** lists that the callback does not hold are not touched *)
  ef_heap :
    ∀ l, is_Some (heap w !! l) → ¬ owns self l → heap w' !! l = heap w !! l;
  (** no list disappears *)
  ef_dom : ∀ l, is_Some (heap w !! l) → is_Some (heap w' !! l);
  (** the lists held afterwards were held before or are newly allocated *)
  ef_owns :
    ∀ l, owns self' l →
         owns self l ∨ (heap w !! l = None ∧ is_Some (heap w' !! l));
  (** epoch-level entries change only under the callback's name and, when
      comparison is enabled, under that name with "_best" appended;
      epochs are only ever added at the end *)
  ef_entries :
    ∀ key,
      (∀ n, name_ self = Some n →
            key ≠ n ∧ (lower_is_better self = None ∨ key ≠ n +:+ "_best")) →
      ∃ m, epoch_column key (net_history w')
           = epoch_column key (net_history w) ++ replicate m None;
  (** batch-level entries appear only under the callback's name and the
      two batch-size keys of the training loop *)
  ef_batches :
    ∀ key,
      (∀ n, name_ self = Some n → key ≠ n) →
      key ≠ bs_key true → key ≠ bs_key false →
      batch_free key (net_history w) → batch_free key (net_history w')
}.

(** Two per-epoch callbacks on the same net: the training loop delivers
    each event to one of them. *)
Inductive who :=
| First
| Second.

Definition system : Type := ScoringBase * ScoringBase * world.

Definition deliver (net : NeuralNet) (t : who) (ev : event) (s : system) : system :=
  match t with
  | First =>
      ((exec (fire net PerEpoch ev) (s.1.1, s.2)).1, s.1.2,
       (exec (fire net PerEpoch ev) (s.1.1, s.2)).2)
  | Second =>
      (s.1.1, (exec (fire net PerEpoch ev) (s.1.2, s.2)).1,
       (exec (fire net PerEpoch ev) (s.1.2, s.2)).2)
  end.

Definition deliver_all (net : NeuralNet) (evs : list (who * event)) (s : system)
    : system :=
  foldl (λ s te, deliver net te.1 te.2 s) s evs.

(** Each callback's lists are allocated and no list is held by both. *)
Definition separate (s : system) : Prop :=
  (∀ l, owns s.1.1 l → is_Some (heap s.2 !! l))
  ∧ (∀ l, owns s.1.2 l → is_Some (heap s.2 !! l))
  ∧ (∀ l, owns s.1.1 l → ¬ owns s.1.2 l).

(** The events the loop delivers between the begin and the end of one
    epoch: batches opened and batches ended. *)
Definition within_epoch (ev : event) : Prop :=
  match ev with
  | BatchEnd _ _ _ _ | LoopNewBatch _ _ => True
  | _ => False
  end.

(** [better l new old]: [new] is strictly better than [old], lower being
    better when [l] is true and higher otherwise. *)
Definition better (l : bool) (new old : ext) : Prop :=
  if l then ext_lt new old else ext_lt old new.

(** The targets and the predictions of the batch events of one phase, in
    the order of the events. *)
Definition seen_targets (on_train : bool) (evs : list event) : list tensor :=
  omap (λ ev, match ev with
              | BatchEnd _ y _ training =>
                  if eqb training on_train then Some y else None
              | _ => None
              end) evs.

Definition seen_preds (on_train : bool) (evs : list event) : list tensor :=
  omap (λ ev, match ev with
              | BatchEnd _ _ y_pred training =>
                  if eqb training on_train then Some y_pred else None
              | _ => None
              end) evs.

Definition is_batch_end (ev : event) : Prop :=
  match ev with
  | BatchEnd _ _ _ _ => True
  | _ => False
  end.

(** Whether [on_epoch_begin] finds the targets of the phase's dataset to be
    a placeholder. *)
Definition targets_absent (self : ScoringBase) (dt dv : option dataset) : bool :=
  match (if on_train self then dt else dv) with
  | Some (SkorchDataset _ None) => true
  | _ => false
  end.

(** [np.concatenate(y_test) if y_test else None] over the extracted
    targets. *)
Definition concat_targets (self : ScoringBase) (ys : list tensor) : option ndarray :=
  match target_extractor self <$> ys with
  | [] => None
  | arrays => Some (concat arrays)
  end.

(** A body that invokes the prediction operation once per element of
    [xs], then goes on with the collected predictions. *)
Fixpoint collect_then {A} (xs : list tensor) (acc : list tensor)
    (k : list tensor → prog A) : prog A :=
  match xs with
  | [] => k (reverse acc)
  | x :: xs' => CallInfer x (λ y, collect_then xs' (y :: acc) k)
  end.

(** A batch as the training loop goes through it: its sample count, its
    data, its target and the prediction of the training step. *)
Record batch := Batch {
  b_size : Z;
  b_X : tensor;
  b_y : tensor;
  b_y_pred : tensor
}.

(** The events of the batches of one phase: each batch is opened, with its
    sample count, then ended. *)
Definition batch_events_of (training : bool) (batches : list batch) : list event :=
  batches ≫= (λ b, [LoopNewBatch training (b_size b);
                     BatchEnd (b_X b) (b_y b) (b_y_pred b) training]).

(** What the non-caching path of [EpochScoring.on_epoch_end] hands to the
    scorer for a dataset: the raw [X] and the extracted [y] of a skorch
    dataset, the dataset itself and no target otherwise. *)
Definition uncached_inputs (self : ScoringBase) (ds : dataset)
    : option xtest * option ndarray :=
  match ds with
  | SkorchDataset X y => (XTensor <$> X, target_extractor self <$> y)
  | CustomDataset _ => (Some (XDataset ds), None)
  end.

(** The second half of [EpochScoring.on_epoch_end], from the outcome [r] of
    the scoring call on, in the world [w] that the caching context leaves
    behind: an exception goes to the caller; a score is recorded under
    [name_] and compared with the running best, and with comparison enabled
    the flag is recorded under [name_] with "_best" appended and the score
    taken as the running best when the flag is true. *)
Definition after_scoring (self : ScoringBase) (w : world) (r : result Qc)
    : result unit * (ScoringBase * world) :=
  match r with
  | Raise e => (Raise e, (self, w))
  | Ok c =>
      match name_ self with
      | None => (Raise AttributeError, (self, w))
      | Some n =>
          match history.record n (VNum c) (net_history w) with
          | Raise e => (Raise e, (self, w))
          | Ok h1 =>
              match _is_best_score self c with
              | Raise e => (Raise e, (self, set_net_history h1 w))
              | Ok None => (Ok (), (self, set_net_history h1 w))
              | Ok (Some b) =>
                  match history.record (n +:+ "_best") (VBool b) h1 with
                  | Raise e => (Raise e, (self, set_net_history h1 w))
                  | Ok h2 =>
                      (Ok (),
                       (if b then set_best_score_ (Fin c) self else self,
                        set_net_history h2 w))
                  end
              end
          end
      end
  end.

(** What an epoch end that scored [c] leaves in the entries of the current
    epoch, [ep] before and [ep'] after, for the callback [self] with key
    [n]: the score under [n]; the flag that [_is_best_score] returns under
    [n] with "_best" appended when comparison is enabled, and nothing new
    under that key when it is disabled; every other entry as it was. *)
Definition score_and_flag_under (self : ScoringBase) (n : string) (c : Qc)
    (ep ep' : epoch) : Prop :=
  ep_entries ep' !! n = Some (VNum c)
  ∧ match lower_is_better self with
    | Some _ =>
        ∃ b, _is_best_score self c = Ok (Some b)
             ∧ ep_entries ep' !! (n +:+ "_best") = Some (VBool b)
    | None =>
        ep_entries ep' !! (n +:+ "_best") = ep_entries ep !! (n +:+ "_best")
    end
  ∧ ∀ key, key ≠ n → key ≠ n +:+ "_best" →
           ep_entries ep' !! key = ep_entries ep !! key.

(** The rows that the batches of one phase leave for [get_avg_score]: the
    sample count and the score of each batch, the score being [g] of the
    batch's data and extracted target. *)
Definition rows_of (self : ScoringBase) (g : xtest → option ndarray → Qc)
    (batches : list batch) : list (value * value) :=
  (λ b, (VNum (Q2Qc (inject_Z (b_size b))),
         VNum (g (XTensor (b_X b)) (Some (target_extractor self (b_y b))))))
  <$> batches.

(** ** Concrete nets, scorers and runs for the examples *)

Module Demo.

Definition q (a : Z) (b : positive) : Qc := Q2Qc (a # b).

(** A net whose scorers are given by the callbacks themselves. *)
Definition net : NeuralNet :=
  {| nn_infer := λ x, x;
     nn_score := λ _ _, Return 0%Qc;
     sklearn_scorers := λ _, None |}.

(** Before the first epoch: nothing allocated, empty history. *)
Definition world0 : world := World ∅ None [].

(** A world holding one list of two cached predictions. *)
Definition cached_world : world :=
  World {[ 1%positive := [[10%Z]; [20%Z]] ]} None [].

(** One epoch with one open batch. *)
Definition one_batch_world : world := World ∅ None [Epoch ∅ [∅]].

(** A per-batch callback on validation data whose scorer raises a
    [KeyError], after [initialize]. *)
Definition declining : ScoringBase :=
  set_name_ "declining"
    (set_best_score_ PosInf
       (__init__ (ScoringCallable (Some "declining") (λ _ _, Throw KeyError))
                 (Some true) false None (λ y, y) true)).

(** A scorer that returns 0.1, 0.2, 0.3 on the batches [[1]], [[2]],
    [[3]]. *)
Definition batch_scorer : scorer :=
  λ X _, match X with
         | XTensor [1%Z] => Return (q 1 10)
         | XTensor [2%Z] => Return (q 2 10)
         | _ => Return (q 3 10)
         end.

Definition acc_batch : ScoringBase :=
  __init__ (ScoringCallable (Some "acc") batch_scorer)
           (Some true) false None (λ y, y) true.

(** One validation epoch of three batches, of sizes 2, 3 and 5. *)
Definition batch_events : list event :=
  [Initialize; LoopNewEpoch;
   LoopNewBatch false 2; BatchEnd [1%Z] [] [7%Z] false;
   LoopNewBatch false 3; BatchEnd [2%Z] [] [7%Z] false;
   LoopNewBatch false 5; BatchEnd [3%Z] [] [7%Z] false;
   EpochEnd None None].

(** The same epoch just before [on_epoch_end]. *)
Definition batches_done : ScoringBase * world :=
  exec (run net PerBatch
          [Initialize; LoopNewEpoch;
           LoopNewBatch false 2; BatchEnd [1%Z] [] [7%Z] false;
           LoopNewBatch false 3; BatchEnd [2%Z] [] [7%Z] false;
           LoopNewBatch false 5; BatchEnd [3%Z] [] [7%Z] false])
       (acc_batch, world0).

(** A scorer that returns 0.5, 0.3, 0.4, 0.3 on the datasets 1, 2, 3, 4. *)
Definition epoch_scorer : scorer :=
  λ X _, match X with
         | XDataset (CustomDataset 1) => Return (q 5 10)
         | XDataset (CustomDataset 2) => Return (q 3 10)
         | XDataset (CustomDataset 3) => Return (q 4 10)
         | _ => Return (q 3 10)
         end.

(** A lower-is-better per-epoch callback on validation data. *)
Definition acc_epoch : ScoringBase :=
  __init__ (ScoringCallable (Some "acc") epoch_scorer)
           (Some true) false None (λ y, y) true.

(** Four epochs, the validation dataset of epoch [i] being dataset [i]. *)
Definition epoch_events : list event :=
  [Initialize;
   LoopNewEpoch; EpochBegin None (Some (CustomDataset 1));
   EpochEnd None (Some (CustomDataset 1));
   LoopNewEpoch; EpochBegin None (Some (CustomDataset 2));
   EpochEnd None (Some (CustomDataset 2));
   LoopNewEpoch; EpochBegin None (Some (CustomDataset 3));
   EpochEnd None (Some (CustomDataset 3));
   LoopNewEpoch; EpochBegin None (Some (CustomDataset 4));
   EpochEnd None (Some (CustomDataset 4))].

(** One open epoch, no batch yet. *)
Definition one_epoch_world : world := World ∅ None [Epoch ∅ []].

(** The per-epoch callback with comparison disabled. *)
Definition no_compare : ScoringBase :=
  __init__ (ScoringCallable (Some "acc") epoch_scorer)
           None false None (λ y, y) true.

(** An epoch on a validation dataset without targets: two batches. *)
Definition placeholder_events : list event :=
  [LoopNewBatch false 2; BatchEnd [1%Z] [5%Z] [7%Z] false;
   LoopNewBatch false 3; BatchEnd [2%Z] [6%Z] [8%Z] false].

(** A scorer that tells whether it was handed a target: 1 without, 0
    with. *)
Definition probe_scorer : scorer :=
  λ _ y, match y with
         | None => Return (q 1 1)
         | Some _ => Return (q 0 1)
         end.

Definition probe : ScoringBase :=
  __init__ (ScoringCallable (Some "probe") probe_scorer)
           (Some true) false None (λ y, y) true.

(** One whole validation epoch on the dataset [ds]. *)
Definition probe_events (ds : dataset) : list event :=
  [Initialize; LoopNewEpoch; EpochBegin None (Some ds)]
  ++ placeholder_events ++ [EpochEnd None (Some ds)].

(** A callback whose scorer is a callable object without a [__name__],
    and no explicit name. *)
Definition nameless : ScoringBase :=
  __init__ (ScoringCallable None epoch_scorer) (Some true) false None
           (λ y, y) true.

(** The same scorer under an explicit name. *)
Definition named : ScoringBase :=
  __init__ (ScoringCallable None epoch_scorer) (Some false) false
           (Some "loss") (λ y, y) true.

(** The first entry of a prediction, as a score. *)
Definition first_entry (p : tensor) : Qc :=
  Q2Qc (inject_Z (default 0%Z (head p))).

(** A scorer that asks the net for one prediction and scores it. *)
Definition echo_scorer : scorer :=
  λ X _, match X with
         | XTensor x => CallInfer x (λ p, Return (first_entry p))
         | XDataset _ => Return (q 0 1)
         end.

Definition echo : ScoringBase :=
  set_name_ "echo"
    (set_best_score_ PosInf
       (__init__ (ScoringCallable (Some "echo") echo_scorer)
                 (Some true) false None (λ y, y) true)).

(** A scorer that asks the net twice. *)
Definition greedy_scorer : scorer :=
  λ X _, match X with
         | XTensor x =>
             CallInfer x (λ _, CallInfer x (λ p, Return (first_entry p)))
         | XDataset _ => Return (q 0 1)
         end.

Definition greedy : ScoringBase :=
  set_name_ "greedy"
    (set_best_score_ PosInf
       (__init__ (ScoringCallable (Some "greedy") greedy_scorer)
                 (Some true) false None (λ y, y) true)).

(** An epoch whose only batch is empty (sample count 0) and scored. *)
Definition empty_batch_world : world :=
  World ∅ None
    [Epoch ∅ [ {[ "valid_batch_size" := VNum (q 0 1);
                  "echo" := VNum (q 1 2) ]} ]].

(** An epoch whose only batch is scored but carries no sample count. *)
Definition unsized_batch_world : world :=
  World ∅ None [Epoch ∅ [ {[ "echo" := VNum (q 1 2) ]} ]].

(** Three validation batches with a training batch in between. *)
Definition mixed_batches : list event :=
  [BatchEnd [1%Z] [10%Z] [11%Z] false;
   BatchEnd [2%Z] [20%Z] [21%Z] true;
   BatchEnd [3%Z] [30%Z] [31%Z] false;
   BatchEnd [4%Z] [40%Z] [41%Z] false].

(** A per-epoch callback that does not cache. *)
Definition uncached : ScoringBase :=
  set_name_ "acc"
    (set_best_score_ PosInf
       (__init__ (ScoringCallable (Some "acc") epoch_scorer)
                 (Some true) false None (λ y, y) false)).


(** The sum of the first entries of the predictions, as a score. *)
Definition sum_first (preds : list tensor) : Qc :=
  foldr (λ p acc, first_entry p + acc)%Qc 0%Qc preds.

(** A scorer that predicts on two batches and sums what it gets. *)
Definition summing_scorer : scorer :=
  λ _ _, collect_then [[0%Z]; [0%Z]] [] (λ preds, Return (sum_first preds)).

(** A caching per-epoch callback at the end of an epoch of two batches. *)
Definition summing_epoch : ScoringBase * world :=
  (set_y_is_placeholder_ false
     (set_y_preds_ 2%positive
        (set_y_trues_ 1%positive
           (set_name_ "sum"
              (set_best_score_ PosInf
                 (__init__ (ScoringCallable (Some "sum") summing_scorer)
                           (Some true) false None (λ y, y) true))))),
   World {[ 1%positive := [[10%Z]; [30%Z]];
            2%positive := [[11%Z]; [31%Z]] ]} None [Epoch ∅ []]).

(** A per-batch scorer that is a function of the batch's data: its first
    entry over ten. *)
Definition first_score (X : xtest) (y : option ndarray) : Qc :=
  match X with
  | XTensor x => (first_entry x / q 10 1)%Qc
  | XDataset _ => q 0 1
  end.

Definition pure_scorer : scorer := λ X y, Return (first_score X y).

Definition pure_batch : ScoringBase :=
  set_name_ "first"
    (set_best_score_ PosInf
       (__init__ (ScoringCallable (Some "first") pure_scorer)
                 (Some true) false None (λ y, y) true)).

(** An epoch whose training batch is over; validation is about to start. *)
Definition train_done_world : world :=
  World ∅ None [Epoch ∅ [ {[ "train_batch_size" := VNum (q 4 1) ]} ]].

Definition three_batches : list batch :=
  [Batch 2 [1%Z] [0%Z] [7%Z]; Batch 3 [2%Z] [0%Z] [7%Z];
   Batch 5 [3%Z] [0%Z] [7%Z]].

(** The summing scorer in a callback that does not cache. *)
Definition summing_uncached : ScoringBase :=
  set_name_ "sum"
    (set_best_score_ PosInf
       (__init__ (ScoringCallable (Some "sum") summing_scorer)
                 (Some true) false None (λ y, y) false)).

(** The target probe after [initialize], in a newly opened epoch. *)
Definition probe_ready : ScoringBase * world :=
  exec (run net PerEpoch [Initialize; LoopNewEpoch]) (probe, world0).

(** Its placeholder epoch on validation data [[1]] without targets, up to
    the epoch end. *)
Definition probe_before_end : ScoringBase * world :=
  exec (run net PerEpoch
          (EpochBegin None (Some (SkorchDataset (Some [1%Z]) None))
           :: placeholder_events))
       probe_ready.

(** An epoch whose only batch holds four samples and is scored 1/2. *)
Definition scored_batch_world : world :=
  World ∅ None
    [Epoch ∅ [ {[ "valid_batch_size" := VNum (q 4 1);
                  "echo" := VNum (q 1 2) ]} ]].

End Demo.

(** ** The averaging of [BatchScoring] over machine floats *)

(** Python's [float] and numpy's [float64] are IEEE 754 binary64 numbers.
    Where rounding decides, the way from the batch scores to the epoch
    score ([get_avg_score], [_is_best_score] and
    [BatchScoring.on_epoch_end]) is taken over these: the methods are the
    same as above, with scores in binary64 and sample counts in the
    integers, on a history that holds such values. *)

Module F64.

Import PrimFloat.
Local Open Scope float_scope.
#[local] Set Warnings "-inexact-float".

(** A value stored in the history: a float, an integer or a flag. *)
Inductive value :=
| VFloat (x : float)
| VInt (n : Z)
| VBool (b : bool).

Record epoch := Epoch {
  ep_entries : gmap string value;
  ep_batches : list (gmap string value)
}.

Definition History := list epoch.

(** Modelled from the spec: the history store, as in [history.record]. *)
Definition record (name : string) (v : value) (h : History) : result History :=
  match last h with
  | None => Raise IndexError
  | Some _ =>
      Ok (history.alter_last
            (λ e, Epoch (<[name := v]> (ep_entries e)) (ep_batches e)) h)
  end.

Definition row (k1 k2 : string) (b : gmap string value) : option (value * value) :=
  v1 ← b !! k1; v2 ← b !! k2; Some (v1, v2).

(** Modelled from the spec: [history[-1, 'batches', :, [k1, k2]]], as in
    [history.batches_pairs]. *)
Definition batches_pairs (k1 k2 : string) (h : History) : result (list (value * value)) :=
  match last h with
  | None => Raise IndexError
  | Some e =>
      match omap (row k1 k2) (ep_batches e) with
      | [] => Raise KeyError
      | rows => Ok rows
      end
  end.

(** Modelled from the spec: [history[-1, 'batches', :, name]], as in
    [history.batches_column]. *)
Definition batches_column (name : string) (h : History) : result (list value) :=
  match last h with
  | None => Raise IndexError
  | Some e =>
      match omap (λ b : gmap string value, b !! name) (ep_batches e) with
      | [] => Raise KeyError
      | col => Ok col
      end
  end.

(** The attributes of a callback that the epoch end of [BatchScoring]
    reads and writes. *)
Record callback := {
  lower_is_better : option bool;
  on_train : bool;
  best_score_ : option float;
  name_ : option string
}.

Definition set_best_score_ (v : float) (self : callback) : callback :=
  {| lower_is_better := lower_is_better self; on_train := on_train self;
     best_score_ := Some v; name_ := name_ self |}.

(** A method body: [self] and the net's history. *)
Definition method (A : Type) : Type := M (callback * History) A.

Definition attr {A} (f : callback → option A) : method A :=
  λ '(self, h), match f self with
                | Some a => (Ok a, (self, h))
                | None => (Raise AttributeError, (self, h))
                end.

Definition setattr (f : callback → callback) : method unit :=
  λ '(self, h), (Ok tt, (f self, h)).

(** [self], for the attributes read later on. *)
Definition self_attrs : method callback :=
  λ '(self, h), (Ok self, (self, h)).

Definition query_history {A} (f : History → result A) : method A :=
  λ '(self, h), (f h, (self, h)).

Definition update_history (f : History → result History) : method unit :=
  λ '(self, h), match f h with
                | Ok h' => (Ok tt, (self, h'))
                | Raise e => (Raise e, (self, h))
                end.

(** [ScoringBase._is_best_score]: the comparisons are those of binary64,
    false whenever an operand is NaN. *)
Definition _is_best_score (self : callback) (current_score : float)
    : result (option bool) :=
  match lower_is_better self with
  | None => Ok None
  | Some true =>
      match best_score_ self with
      | Some best => Ok (Some (ltb current_score best))
      | None => Raise AttributeError
      end
  | Some false =>
      match best_score_ self with
      | Some best => Ok (Some (ltb best current_score))
      | None => Raise AttributeError
      end
  end.

(** An integer as numpy casts it to [float64] (sample counts are far below
    2^63, where the cast rounds to the nearest float). *)
Definition of_int (n : Z) : float :=
  if (n <? 0)%Z then - of_uint63 (Uint63.of_Z (- n))
  else of_uint63 (Uint63.of_Z n).

(** How numpy reads a stored value as a [float64]. *)
Definition to_float (v : value) : float :=
  match v with
  | VFloat x => x
  | VInt n => of_int n
  | VBool true => 1
  | VBool false => 0
  end.

Section Numpy.

(** [ndarray.sum] of a one-dimensional [float64] array.  The order in
    which numpy adds the terms, and with it the rounding of the sum, is
    numpy's own and not part of this repository: the sum is a parameter. *)
Variable np_sum : list float → float.

(** [np.average(a, weights=weights)]: the weights are summed, the products
    of scores and weights are summed, and the second sum is divided by the
    first; every operation rounds to binary64. *)
Definition np_average (a weights : list value) : result float :=
  let wgt := to_float <$> weights in
  let scl := np_sum wgt in
  if eqb scl 0 then Raise ZeroDivisionError
  else Ok (np_sum (zip_with mul (to_float <$> a) wgt) / scl).

Definition get_avg_score (self : callback) (h : History) : result float :=
  let bs_key := if on_train self then "train_batch_size" else "valid_batch_size" in
  match name_ self with
  | None => Raise AttributeError
  | Some n =>
      match batches_pairs bs_key n h with
      | Raise e => Raise e
      | Ok rows =>
          let weights := rows.*1 in
          let scores := rows.*2 in
          np_average scores weights
      end
  end.

(** [BatchScoring.on_epoch_end] *)
Definition on_epoch_end : method unit :=
  n <- attr name_ ;;
  found <- try_except
             (query_history (batches_column n) ;;; ret true)
             KeyError
             (ret false) ;;
  if negb found then
    ret tt
  else
    self <- self_attrs ;;
    score_avg <- query_history (get_avg_score self) ;;
    is_best <- of_result (_is_best_score self score_avg) ;;
    (if default false is_best then setattr (set_best_score_ score_avg)
     else ret tt) ;;;
    update_history (record n (VFloat score_avg)) ;;;
    match is_best with
    | Some b => update_history (record (n +:+ "_best") (VBool b))
    | None => ret tt
    end.

End Numpy.

(** Arrays of fewer than eight numbers numpy sums in a plain loop: from 0,
    from left to right.  (Longer arrays are added in blocks.) *)
Definition sum_left (l : list float) : float := foldl add 0 l.

(** The batches of an epoch that have a score recorded under [n]. *)
Definition scored_batches (n : string) (ep : epoch) : list (gmap string value) :=
  filter (λ b : gmap string value, is_Some (b !! n)) (ep_batches ep).

(** Batch [b] holds sample count [r.1] and score [r.2]. *)
Definition batch_holds (training : bool) (n : string)
    (b : gmap string value) (r : Z * float) : Prop :=
  b !! bs_key training = Some (VInt r.1) ∧ b !! n = Some (VFloat r.2).


(** The epoch-level entries recorded under [key], one per epoch. *)
Definition epoch_column (key : string) (h : History) : list (option value) :=
  (λ e, ep_entries e !! key) <$> h.

(** A callback named "acc" on validation data, higher scores being better,
    as [initialize] leaves it. *)
Definition acc : callback :=
  {| lower_is_better := Some false; on_train := false;
     best_score_ := Some neg_infinity; name_ := Some "acc" |}.


(** One batch of size 3 scored 0.1. *)
Definition one_batch_of_3 : History :=
  [Epoch ∅ [ {[ "valid_batch_size" := VInt 3; "acc" := VFloat 0.1 ]} ]].

(** A callback right after [initialize], lower scores being better or
    higher scores being better. *)
Definition fresh_callback (lower : bool) : callback :=
  {| lower_is_better := Some lower; on_train := false;
     best_score_ := Some (if lower then infinity else neg_infinity);
     name_ := Some "acc" |}.

End F64.

(** * Properties *)

(** ** The monad and the world *)

Lemma world_eta w :
  World (heap w) (net_dict_infer w) (net_history w) = w.
Proof. by destruct w. Qed.

Lemma set_net_dict_infer_id w :
  set_net_dict_infer (net_dict_infer w) w = w.
Proof. apply world_eta. Qed.

Lemma set_net_dict_infer_twice o o' w :
  set_net_dict_infer o (set_net_dict_infer o' w) = set_net_dict_infer o w.
Proof. reflexivity. Qed.

(** A scorer run on a plain net leaves the world as it found it. *)
Lemma run_prog_plain net A (p : prog A) w :
  net_dict_infer w = None → (run_prog net p w).2 = w.
Proof.
  intros Hplain. induction p as [a|e|x k IH|k IH]; simpl; try done.
  unfold bind, call_infer, lookup_infer. rewrite Hplain.
  specialize (IH (nn_infer net x)).
  by destruct (run_prog net (k (nn_infer net x)) w) as [[?|?] ?].
Qed.

(** Under the override a scorer can only advance the iterator. *)
Lemma run_prog_guarded net A (p : prog A) w l i :
  net_dict_infer w = Some (l, i) →
  ∃ j, (run_prog net p w).2 = set_net_dict_infer (Some (l, j)) w.
Proof.
  revert w i. induction p as [a|e|x k IH|k IH]; intros w i Hg; simpl.
  - exists i. by rewrite <-Hg, set_net_dict_infer_id.
  - exists i. by rewrite <-Hg, set_net_dict_infer_id.
  - unfold bind, call_infer, lookup_infer. rewrite Hg. simpl.
    destruct (next (l, i) (heap w)) as [y|] eqn:Hnext; simpl.
    + destruct (IH y (set_net_dict_infer (Some (l, S i)) w) (S i) eq_refl)
        as [j Hj].
      exists j.
      destruct (run_prog net (k y) _) as [[?|?] ?]; simpl in *;
        by rewrite Hj.
    + exists i. by rewrite <-Hg, set_net_dict_infer_id.
  - eapply IH, Hg.
Qed.

Lemma run_prog_history net A (p : prog A) w :
  net_history (run_prog net p w).2 = net_history w.
Proof.
  destruct (net_dict_infer w) as [[l i]|] eqn:Hg.
  - destruct (run_prog_guarded net A p w l i Hg) as [j ->]. done.
  - by rewrite run_prog_plain.
Qed.

Lemma run_prog_heap net A (p : prog A) w :
  heap (run_prog net p w).2 = heap w.
Proof.
  destruct (net_dict_infer w) as [[l i]|] eqn:Hg.
  - destruct (run_prog_guarded net A p w l i Hg) as [j ->]. done.
  - by rewrite run_prog_plain.
Qed.

(** ** The caching context *)

(** Replaying from index [i]: the calls return the rest of the list. *)
Lemma infer_each_replays net xs : ∀ acc w l i preds,
  net_dict_infer w = Some (l, i) →
  heap w !! l = Some preds →
  i + length xs = length preds →
  run_prog net (infer_each xs acc) w =
    (Ok (reverse acc ++ drop i preds),
     set_net_dict_infer (Some (l, length preds)) w).
Proof.
  induction xs as [|x xs IH]; intros acc w l i preds Hg Hl Hlen; simpl in *.
  - unfold ret. replace i with (length preds) in * by lia.
    by rewrite drop_all, app_nil_r, <-Hg, set_net_dict_infer_id.
  - unfold bind, call_infer, lookup_infer, next. rewrite Hg. simpl.
    rewrite Hl. simpl.
    destruct (lookup_lt_is_Some_2 preds i) as [y Hy]; [lia|].
    rewrite Hy.
    rewrite (IH (y :: acc) _ l (S i) preds); [|done|done|lia].
    rewrite set_net_dict_infer_twice. f_equal.
    rewrite reverse_cons, <-app_assoc. simpl.
    by rewrite (drop_S preds y i Hy).
Qed.

(** Whatever the body does, the context leaves no override behind. *)
Lemma cache_net_infer_exit E A (body : M (E * world) A) l s :
  net_dict_infer (cache_net_infer true l body s).2.2 = None.
Proof.
  destruct s as [e w]. unfold cache_net_infer, bind, try_finally, on_world,
    modify. simpl.
  destruct (body _) as [r [e' w']]. simpl.
  destruct (net_dict_infer w') as [it|] eqn:Hit; simpl; [done|].
  by rewrite Hit.
Qed.

(** A scorer run inside the context: its outcome is the one it has under
    replay, and the world it leaves is the one it was entered with. *)
Lemma cache_net_infer_scorer net E A (p : prog A) (e : E) w l :
  net_dict_infer w = None →
  cache_net_infer true l (on_world (run_prog net p)) (e, w) =
    ((run_prog net p (set_net_dict_infer (Some (l, 0)) w)).1, (e, w)).
Proof.
  intros Hplain.
  unfold cache_net_infer, bind, try_finally, on_world, modify. simpl.
  destruct (run_prog_guarded net A p (set_net_dict_infer (Some (l, 0)) w) l 0
              eq_refl) as [j Hj].
  destruct (run_prog net p _) as [r w']. simpl in *. subst w'. simpl.
  unfold set_net_dict_infer. simpl. by rewrite <-Hplain, world_eta.
Qed.

(** C1. For a net whose prediction operation is its own method, entering
    [cache_net_infer] with caching enabled over a list of N predictions and
    invoking [infer] N times, with any arguments, returns those N
    predictions in order; and however the guarded scope is left (return or
    exception, after any number of invocations) no override remains, so
    the prediction operation is the original one again. *)
Theorem cache_net_infer_transparent
    (net : NeuralNet) (E : Type) (e : E) (w : world) (l : loc)
    (preds xs : list tensor) :
  net_dict_infer w = None →
  heap w !! l = Some preds →
  length xs = length preds →
  cache_net_infer true l (on_world (run_prog net (infer_each xs []))) (e, w)
    = (Ok preds, (e, w))
  ∧ (∀ A (body : M (E * world) A),
       lookup_infer (exec (cache_net_infer true l body) (e, w)).2
         = lookup_infer w)
  ∧ (∀ A (p : prog A),
       cache_net_infer true l (on_world (run_prog net p)) (e, w)
         = ((run_prog net p (set_net_dict_infer (Some (l, 0)) w)).1, (e, w))).
Proof.
  intros Hplain Hl Hlen. split; [|split].
  - rewrite cache_net_infer_scorer by done.
    rewrite (infer_each_replays net xs [] _ l 0 preds); done.
  - intros A body. unfold lookup_infer, exec.
    by rewrite cache_net_infer_exit, Hplain.
  - intros A p. by apply cache_net_infer_scorer.
Qed.

Lemma cache_net_infer_transparent_witness :
  cache_net_infer true 1%positive
    (on_world (run_prog Demo.net (infer_each [[1%Z]; [2%Z]] [])))
    ((), Demo.cached_world)
  = (Ok [[10%Z]; [20%Z]], ((), Demo.cached_world)).
Proof.
  apply (cache_net_infer_transparent Demo.net unit () Demo.cached_world
           1%positive [[10%Z]; [20%Z]] [[1%Z]; [2%Z]]); reflexivity.
Defined.

(** ** Scoring *)

Lemma _scoring_guarded net self X y w l i :
  net_dict_infer w = Some (l, i) →
  ∃ j, (_scoring net self X y w).2 = set_net_dict_infer (Some (l, j)) w.
Proof.
  intros Hg. unfold _scoring, bind, of_result.
  destruct (check_scoring net (scoring self)) as [f|e]; simpl.
  - destruct (run_prog_guarded net _ (f X y) w l i Hg) as [j Hj].
    exists j. by destruct (run_prog net (f X y) w) as [[?|?] ?].
  - exists i. by rewrite <-Hg, set_net_dict_infer_id.
Qed.

Lemma _scoring_plain net self X y w :
  net_dict_infer w = None → (_scoring net self X y w).2 = w.
Proof.
  intros Hp. unfold _scoring, bind, of_result.
  destruct (check_scoring net (scoring self)) as [f|e]; simpl; [|done].
  pose proof (run_prog_plain net _ (f X y) w Hp).
  by destruct (run_prog net (f X y) w) as [[?|?] ?].
Qed.

Lemma _scoring_history net self X y w :
  net_history (_scoring net self X y w).2 = net_history w.
Proof.
  destruct (net_dict_infer w) as [[l i]|] eqn:Hg.
  - by destruct (_scoring_guarded net self X y w l i Hg) as [j ->].
  - by rewrite _scoring_plain.
Qed.

Lemma _scoring_heap net self X y w :
  heap (_scoring net self X y w).2 = heap w.
Proof.
  destruct (net_dict_infer w) as [[l i]|] eqn:Hg.
  - by destruct (_scoring_guarded net self X y w l i Hg) as [j ->].
  - by rewrite _scoring_plain.
Qed.

(** ** Phase filter *)

(** C8. A batch event whose training flag differs from the callback's
    [on_train] returns at once from both [BatchScoring.on_batch_end] and
    [EpochScoring.on_batch_end]: the callback (caches, running best) and
    the world (history included) are exactly as before. *)
Theorem on_batch_end_opposite_phase
    (net : NeuralNet) (self : ScoringBase) (w : world)
    (X y y_pred : tensor) (training : bool) :
  training ≠ on_train self →
  BatchScoring.on_batch_end net X y training y_pred (self, w) = (Ok (), (self, w))
  ∧ EpochScoring.on_batch_end y y_pred training (self, w) = (Ok (), (self, w)).
Proof.
  intros Hphase.
  unfold BatchScoring.on_batch_end, EpochScoring.on_batch_end, bind, on_self,
    get. simpl.
  destruct training, (on_train self), (use_caching self); simpl; done.
Qed.

Lemma on_batch_end_opposite_phase_witness :
  BatchScoring.on_batch_end Demo.net [1%Z] [2%Z] true [3%Z]
    (Demo.declining, Demo.one_batch_world)
    = (Ok (), (Demo.declining, Demo.one_batch_world))
  ∧ EpochScoring.on_batch_end [2%Z] [3%Z] true
      (Demo.declining, Demo.one_batch_world)
    = (Ok (), (Demo.declining, Demo.one_batch_world)).
Proof.
  apply (on_batch_end_opposite_phase Demo.net Demo.declining
           Demo.one_batch_world [1%Z] [2%Z] [3%Z] true).
  simpl. discriminate.
Defined.

(** ** Errors during batch scoring *)

(** The scorer of [Demo.declining] raises a [KeyError]; [on_batch_end]
    returns normally all the same. *)
Lemma batch_on_batch_end_swallows_scorer_KeyError :
  (_scoring Demo.net Demo.declining (XTensor [1%Z]) (Some [2%Z])
     (batch_scoring_world Demo.declining Demo.one_batch_world [3%Z])).1
    = Raise KeyError
  ∧ (BatchScoring.on_batch_end Demo.net [1%Z] [2%Z] false [3%Z]
       (Demo.declining, Demo.one_batch_world)).1 = Ok ()
  ∧ (BatchScoring.on_batch_end Demo.net [1%Z] [2%Z] false [3%Z]
       (Demo.declining, Demo.one_batch_world)).1 ≠ Raise KeyError.
Proof. repeat split; [reflexivity..|discriminate]. Qed.

(** C2, as the code has it. When the scoring call of
    [BatchScoring.on_batch_end] raises, a [KeyError] is caught and the
    batch is skipped silently, whether it comes from the scorer or from
    recording; every other exception of the scoring call propagates to the
    caller. Either way the callback and the history are unchanged. *)
Theorem batch_on_batch_end_scoring_error
    (net : NeuralNet) (self : ScoringBase) (w w2 : world)
    (X y y_pred : tensor) (e : exn) :
  _scoring net self (XTensor X) (Some (target_extractor self y))
    (batch_scoring_world self w y_pred) = (Raise e, w2) →
  let out := BatchScoring.on_batch_end net X y (on_train self) y_pred (self, w) in
  out.1 = (if decide (e = KeyError) then Ok () else Raise e)
  ∧ out.2.1 = self
  ∧ net_history out.2.2 = net_history w.
Proof.
  intros Hsc out. subst out.
  pose proof (_scoring_history net self (XTensor X)
                (Some (target_extractor self y))
                (batch_scoring_world self w y_pred)) as Hh.
  unfold BatchScoring.on_batch_end, cache_net_infer, batch_scoring_world in *.
  unfold bind, on_self, get, on_world, alloc, try_finally, try_except, modify.
  simpl. rewrite eqb_reflx. simpl.
  destruct (use_caching self) eqn:Hc; simpl.
  - destruct (_scoring_guarded net self (XTensor X)
                (Some (target_extractor self y))
                (set_net_dict_infer (Some (fresh (dom (heap w)), 0))
                   (set_heap (<[fresh (dom (heap w)):=[y_pred]]> (heap w)) w))
                _ 0 eq_refl) as [j Hj].
    rewrite Hsc in *. simpl in *. subst w2.
    destruct (decide (e = KeyError)); simpl; done.
  - rewrite Hsc in *. simpl in *.
    destruct (decide (e = KeyError)); simpl; done.
Qed.

Lemma batch_on_batch_end_scoring_error_witness :
  let out := BatchScoring.on_batch_end Demo.net [1%Z] [2%Z] false [3%Z]
               (Demo.declining, Demo.one_batch_world) in
  out.1 = Ok ()
  ∧ out.2.1 = Demo.declining
  ∧ net_history out.2.2 = net_history Demo.one_batch_world.
Proof.
  apply (batch_on_batch_end_scoring_error Demo.net Demo.declining
           Demo.one_batch_world
           (batch_scoring_world Demo.declining Demo.one_batch_world [3%Z])
           [1%Z] [2%Z] [3%Z] KeyError).
  reflexivity.
Defined.

(** ** The history *)

Lemma alter_last_snoc {A} (f : A → A) (l : list A) (x : A) :
  history.alter_last f (l ++ [x]) = l ++ [f x].
Proof.
  unfold history.alter_last. rewrite length_app. simpl.
  replace (pred (length l + 1)) with (length l + 0) by lia.
  by rewrite alter_app_r.
Qed.

Lemma record_snoc n v hs ep :
  history.record n v (hs ++ [ep])
    = Ok (hs ++ [Epoch (<[n := v]> (ep_entries ep)) (ep_batches ep)]).
Proof.
  unfold history.record. by rewrite last_snoc, alter_last_snoc.
Qed.

Lemma omap_all_None {A B} (f : A → option B) (l : list A) :
  (∀ x, x ∈ l → f x = None) → omap f l = [].
Proof.
  induction l as [|x l IH]; intros Hall; simpl; [done|].
  rewrite (Hall x) by left. apply IH. intros y Hy. apply Hall. by right.
Qed.

(** ** Nothing to average *)

(** C7. When no batch of the current epoch has a score recorded under the
    callback's name, [BatchScoring.on_epoch_end] does nothing: it returns
    normally and the callback (running best included) and the world
    (history included) are exactly as before. *)
Theorem batch_on_epoch_end_nothing_recorded
    (self : ScoringBase) (w : world) (n : string) (ep : epoch) :
  name_ self = Some n →
  last (net_history w) = Some ep →
  (∀ b, b ∈ ep_batches ep → b !! n = None) →
  BatchScoring.on_epoch_end (self, w) = (Ok (), (self, w)).
Proof.
  intros Hn Hlast Hnone.
  unfold BatchScoring.on_epoch_end, bind, attr, try_except, on_world,
    query_history, history.batches_column.
  rewrite Hn, Hlast. simpl.
  by rewrite (omap_all_None (λ b : gmap string value, b !! n) _ Hnone).
Qed.

Lemma batch_on_epoch_end_nothing_recorded_witness :
  BatchScoring.on_epoch_end (Demo.declining, Demo.one_batch_world)
    = (Ok (), (Demo.declining, Demo.one_batch_world)).
Proof.
  apply (batch_on_epoch_end_nothing_recorded Demo.declining
           Demo.one_batch_world "declining" (Epoch ∅ [∅]));
    [reflexivity|reflexivity|].
  intros b Hb. apply list_elem_of_singleton in Hb. by subst b.
Defined.

(** ** Keys *)

Lemma length_append (s1 s2 : string) :
  String.length (s1 +:+ s2) = String.length s1 + String.length s2.
Proof. induction s1 as [|c s1 IH]; simpl; [done|]. by rewrite IH. Qed.

Lemma name_ne_best (n : string) : n ≠ n +:+ "_best".
Proof.
  intros Heq. apply (f_equal String.length) in Heq.
  rewrite length_append in Heq. simpl in Heq. lia.
Qed.

Lemma append_inj_r (s1 s2 t1 t2 : string) :
  String.length s1 = String.length s2 →
  s1 +:+ t1 = s2 +:+ t2 → t1 = t2.
Proof.
  revert s2. induction s1 as [|c s1 IH]; intros [|c' s2] Hlen Heq;
    simpl in *; try done.
  injection Heq as _ Heq. apply (IH s2); [lia|done].
Qed.

(** No name with "_best" appended is one of the batch-size keys. *)
Lemma best_ne_bs_key (n : string) (training : bool) :
  n +:+ "_best" ≠ bs_key training.
Proof.
  intros Heq.
  assert (String.length n = 11) as Hlen.
  { apply (f_equal String.length) in Heq. rewrite length_append in Heq.
    destruct training; simpl in Heq; lia. }
  destruct training.
  - by pose proof (append_inj_r n "train_batch" "_best" "_size" Hlen Heq).
  - by pose proof (append_inj_r n "valid_batch" "_best" "_size" Hlen Heq).
Qed.

(** ** The weighted average *)

(** What the two history queries of [BatchScoring] return when the scored
    batches hold the given sizes and scores. *)
Lemma queries_of_batches training n bs recs :
  Forall2 (batch_holds training n)
    (filter (λ b : gmap string value, is_Some (b !! n)) bs) recs →
  omap (history.row (bs_key training) n) bs
    = (λ r : Qc * Qc, (VNum r.1, VNum r.2)) <$> recs
  ∧ omap (λ b : gmap string value, b !! n) bs
    = (λ r : Qc * Qc, VNum r.2) <$> recs.
Proof.
  revert recs. induction bs as [|b bs IH]; intros recs Hall.
  - apply Forall2_nil_inv_l in Hall as ->. done.
  - rewrite filter_cons in Hall. cbn [omap list_omap].
    destruct (decide (is_Some (b !! n))) as [Hs|Hn].
    + apply Forall2_cons_inv_l in Hall as (r & recs' & [Hsize Hscore] & Hall & ->).
      destruct (IH recs' Hall) as [IH1 IH2].
      unfold history.row at 1. rewrite Hsize, Hscore. simpl.
      by rewrite IH1, IH2.
    + destruct (IH recs Hall) as [IH1 IH2].
      unfold history.row at 1.
      destruct (b !! n) eqn:Hbn; [by destruct Hn|].
      by destruct (b !! bs_key training).
Qed.

Lemma np_average_weighted_mean (recs : list (Qc * Qc)) :
  total_size recs ≠ 0%Qc →
  np_average (((λ r : Qc * Qc, (VNum r.1, VNum r.2)) <$> recs).*2)
             (((λ r : Qc * Qc, (VNum r.1, VNum r.2)) <$> recs).*1)
    = Ok (weighted_mean recs).
Proof.
  intros Htotal. unfold np_average, weighted_mean.
  assert (Hw : np_sum (to_num <$> ((λ r : Qc * Qc, (VNum r.1, VNum r.2)) <$> recs).*1)
               = total_size recs).
  { clear. induction recs as [|r recs IH]; [done|].
    exact (f_equal (Qcplus r.1) IH). }
  assert (Hs : np_sum (zip_with Qcmult
                  (to_num <$> ((λ r : Qc * Qc, (VNum r.1, VNum r.2)) <$> recs).*2)
                  (to_num <$> ((λ r : Qc * Qc, (VNum r.1, VNum r.2)) <$> recs).*1))
               = foldr (λ b acc, b.1 * b.2 + acc)%Qc 0%Qc recs).
  { clear. induction recs as [|r recs IH]; [done|].
    simpl. rewrite (Qcmult_comm r.1 r.2).
    exact (f_equal (Qcplus (r.2 * r.1)) IH). }
  rewrite Hw, Hs. by destruct (decide (total_size recs = 0%Qc)).
Qed.

(** ** The weighted average in binary64 *)

Section Float64.

Import PrimFloat.
Local Open Scope float_scope.
#[local] Set Warnings "-inexact-float".








(** The order in which the three products are added does not matter for
    this: the two other ways of adding them give 0.22999999999999998 and
    0.23000000000000004, and never 0.23. *)
Example no_order_of_summation_gives_0_23 :
  (0.1 * 2 + 0.2 * 3 + 0.3 * 5) / 10 = 0.22999999999999998
  ∧ (0.1 * 2 + 0.3 * 5 + 0.2 * 3) / 10 = 0.22999999999999998
  ∧ (0.1 * 2 + (0.2 * 3 + 0.3 * 5)) / 10 = 0.23000000000000004
  ∧ eqb 0.22999999999999998 0.23 = false
  ∧ eqb 0.23000000000000004 0.23 = false.
Proof. repeat split; vm_compute; reflexivity. Qed.

(** Nor does the average stay between the smallest and the largest batch
    score: a single batch of size 3 scored 0.1 gives 0.10000000000000002. *)
Example single_batch_average_is_rounded :
  F64.epoch_column "acc"
    (exec (F64.on_epoch_end F64.sum_left) (F64.acc, F64.one_batch_of_3)).2
  = [Some (F64.VFloat 0.10000000000000002)]
  ∧ ltb 0.1 0.10000000000000002 = true.
Proof. split; vm_compute; reflexivity. Qed.

(** The first score of a run is the best so far when it is a finite
    number; a NaN is never the best, and neither is the infinity that
    [initialize] installed. *)
Example first_score_nan_or_infinite :
  F64._is_best_score (F64.fresh_callback true) 0.5 = Ok (Some true)
  ∧ F64._is_best_score (F64.fresh_callback true) nan = Ok (Some false)
  ∧ F64._is_best_score (F64.fresh_callback true) infinity = Ok (Some false)
  ∧ F64._is_best_score (F64.fresh_callback false) 0.5 = Ok (Some true)
  ∧ F64._is_best_score (F64.fresh_callback false) nan = Ok (Some false)
  ∧ F64._is_best_score (F64.fresh_callback false) neg_infinity
    = Ok (Some false).
Proof. repeat split; vm_compute; reflexivity. Qed.

End Float64.

(** ** What an epoch end can do *)

Lemma last_snoc_inv {A} (l : list A) (x : A) :
  last l = Some x → ∃ l', l = l' ++ [x].
Proof. apply last_Some. Qed.

Lemma update_history_record n v w :
  (∃ hs ep, net_history w = hs ++ [ep]
     ∧ update_history (history.record n v) w
       = (Ok (), set_net_history
                   (hs ++ [Epoch (<[n := v]> (ep_entries ep)) (ep_batches ep)]) w))
  ∨ (net_history w = []
     ∧ update_history (history.record n v) w = (Raise IndexError, w)).
Proof.
  unfold update_history.
  destruct (last (net_history w)) as [ep|] eqn:Hlast.
  - left. apply last_snoc_inv in Hlast as [hs Hh]. exists hs, ep.
    split; [done|]. by rewrite Hh, record_snoc.
  - right. apply last_None in Hlast. split; [done|].
    by rewrite Hlast.
Qed.

Lemma scoring_inputs_frame dt dv self w :
  ∃ r w1,
    EpochScoring.scoring_inputs dt dv (self, w) = (r, (self, w1))
    ∧ net_history w1 = net_history w
    ∧ net_dict_infer w1 = net_dict_infer w
    ∧ ∀ l, is_Some (heap w !! l) → heap w1 !! l = heap w !! l.
Proof.
  unfold EpochScoring.scoring_inputs, bind, on_self, get, attr, on_world,
    read_list, alloc, ret. simpl.
  destruct (use_caching self).
  - destruct (y_preds_ self); [|by eauto 10].
    destruct (y_trues_ self); by eauto 10.
  - destruct (match (if on_train self then dt else dv) with
              | Some ds => _ | None => _ end) as [X_test y_test].
    eexists _, _. split; [done|]. simpl. split; [done|]. split; [done|].
    intros l Hl. apply lookup_insert_ne. intros <-.
    apply elem_of_dom in Hl. by apply is_fresh in Hl.
Qed.

(** The body of the [with] block of [EpochScoring.on_epoch_end]. *)
Lemma epoch_with_body_outcome net self X_test y_test w :
  ∃ r self' w',
    (current_score <- on_world (_scoring net self X_test y_test) ;;
     n <- attr name_ ;;
     on_world (update_history (history.record n (VNum current_score))) ;;;
     is_best <- of_result (_is_best_score self current_score) ;;
     match is_best with
     | None => ret ()
     | Some b =>
         on_world (update_history
                     (history.record (n +:+ "_best") (VBool b))) ;;;
         if b then setattr (set_best_score_ (Fin current_score))
         else ret ()
     end) (self, w) = (r, (self', w'))
    ∧ epoch_end_outcome self (net_history w) r self' (net_history w')
    ∧ (is_Some (net_dict_infer w) → is_Some (net_dict_infer w'))
    ∧ heap w' = heap w.
Proof.
  unfold bind, on_world at 1.
  pose proof (_scoring_history net self X_test y_test w) as Hh.
  pose proof (_scoring_heap net self X_test y_test w) as Hp.
  assert (is_Some (net_dict_infer w) →
          is_Some (net_dict_infer (_scoring net self X_test y_test w).2)) as Hg.
  { intros [[l i] Hit].
    by destruct (_scoring_guarded net self X_test y_test w l i Hit) as [j ->]. }
  destruct (_scoring net self X_test y_test w) as [[c|e] w2]; simpl in *;
    [|eexists _, _, _; split; [done|]; rewrite Hh; by split; [constructor|]].
  unfold attr. destruct (name_ self) as [n|] eqn:Hn;
    [|eexists _, _, _; split; [done|]; rewrite Hh; by split; [constructor|]].
  unfold on_world at 1.
  destruct (update_history_record n (VNum c) w2)
    as [(hs & ep & Hw2 & ->)|[Hw2 ->]];
    [|eexists _, _, _; split; [done|]; rewrite Hh; by split; [constructor|]].
  rewrite <-Hh, Hw2. unfold of_result.
  destruct (_is_best_score self c) as [[b|]|e] eqn:Hbest; simpl.
  - unfold on_world, update_history. simpl. rewrite record_snoc. simpl.
    unfold setattr, on_self, modify, ret.
    destruct b; eexists _, _, _; (split; [done|]); simpl;
      (split; [|done]).
    + exact (score_and_flag_recorded self _ n c true hs ep Hn eq_refl Hbest).
    + exact (score_and_flag_recorded self _ n c false hs ep Hn eq_refl Hbest).
  - eexists _, _, _. split; [done|]. simpl. split; [|done].
    by apply score_recorded.
  - eexists _, _, _. split; [done|]. simpl. split; [|done].
    by apply score_recorded_then_error.
Qed.

Lemma epoch_on_epoch_end_outcome net dt dv self w :
  ∃ r self' w',
    EpochScoring.on_epoch_end net dt dv (self, w) = (r, (self', w'))
    ∧ epoch_end_outcome self (net_history w) r self' (net_history w')
    ∧ ∀ l, is_Some (heap w !! l) → heap w' !! l = heap w !! l.
Proof.
  unfold EpochScoring.on_epoch_end, bind at 1.
  destruct (scoring_inputs_frame dt dv self w) as (ri & w1 & -> & Hh & Hg & Hp).
  rewrite <-Hh.
  destruct ri as [[[[X_test|] y_pred] y_test]|e];
    [|eexists _, _, _; split; [done|]; by split; [constructor|]..].
  unfold bind at 1, on_self, get. simpl. unfold cache_net_infer.
  destruct (use_caching self); simpl.
  - unfold bind at 1, try_finally.
    change (on_world (modify (set_net_dict_infer (Some (y_pred, 0)))) (self, w1))
      with (@Ok unit (), (self, set_net_dict_infer (Some (y_pred, 0)) w1)).
    cbv beta iota.
    destruct (epoch_with_body_outcome net self X_test y_test
                (set_net_dict_infer (Some (y_pred, 0)) w1))
      as (r & self' & w' & -> & Hout & Hsome & Hheap).
    destruct (Hsome (mk_is_Some _ _ eq_refl)) as [it Hit].
    unfold on_world. rewrite Hit.
    eexists _, _, _. split; [done|]. split; [done|]. simpl.
    by rewrite Hheap.
  - destruct (epoch_with_body_outcome net self X_test y_test w1)
      as (r & self' & w' & -> & Hout & _ & Hheap).
    eexists _, _, _. split; [done|]. split; [done|]. by rewrite Hheap.
Qed.

Lemma batch_on_epoch_end_outcome self w :
  ∃ r self' w',
    BatchScoring.on_epoch_end (self, w) = (r, (self', w'))
    ∧ epoch_end_outcome self (net_history w) r self' (net_history w')
    ∧ w' = set_net_history (net_history w') w.
Proof.
  assert (w = set_net_history (net_history w) w) as Hw by by destruct w.
  unfold BatchScoring.on_epoch_end, bind, attr, try_except, on_world, on_self,
    query_history, get, history.batches_column, of_result.
  destruct (name_ self) as [n|] eqn:Hn; simpl;
    [|eexists _, _, _; split; [done|]; split; [constructor|done]].
  destruct (last (net_history w)) as [ep|] eqn:Hlast; simpl;
    [|eexists _, _, _; split; [done|]; split; [constructor|done]].
  apply last_snoc_inv in Hlast as [hs Hh].
  destruct (omap _ (ep_batches ep)); simpl;
    [eexists _, _, _; split; [done|]; split; [constructor|done]|].
  destruct (BatchScoring.get_avg_score self (net_history w)) as [c|e]; simpl;
    [|eexists _, _, _; split; [done|]; split; [constructor|done]].
  destruct (_is_best_score self c) as [[b|]|e] eqn:Hbest; simpl;
    [| |eexists _, _, _; split; [done|]; split; [constructor|done]].
  - unfold setattr, on_self, modify, ret, update_history.
    destruct b; simpl; rewrite Hh, record_snoc; simpl; rewrite record_snoc;
      eexists _, _, _; (split; [done|]); simpl; (split; [|done]).
    + exact (score_and_flag_recorded self _ n c true hs ep Hn eq_refl Hbest).
    + exact (score_and_flag_recorded self _ n c false hs ep Hn eq_refl Hbest).
  - unfold ret, update_history. rewrite Hh, record_snoc. simpl.
    eexists _, _, _. split; [done|]. simpl. split; [|done].
    by apply score_recorded.
Qed.

(** ** The best-score tracker *)

Lemma score_lt_spec current best :
  score_lt current best = true ↔ ext_lt (Fin current) best.
Proof.
  destruct best as [|b|]; simpl.
  - split; [done|]. inversion 1.
  - rewrite bool_decide_eq_true. split; [by constructor|]. by inversion 1.
  - split; [constructor|done].
Qed.

Lemma score_gt_spec current best :
  score_gt current best = true ↔ ext_lt best (Fin current).
Proof.
  destruct best as [|b|]; simpl.
  - split; [constructor|done].
  - rewrite bool_decide_eq_true. split; [by constructor|]. by inversion 1.
  - split; [done|]. inversion 1.
Qed.

Lemma epoch_end_outcome_best self h r self' h' :
  epoch_end_outcome self h r self' h' →
  best_score_ self' = best_score_ self
  ∨ ∃ c, _is_best_score self c = Ok (Some true)
         ∧ best_score_ self' = Some (Fin c).
Proof.
  destruct 1 as [| | n c b hs ep Hn Hh Hbest |]; try by left.
  destruct b; [right; by exists c|by left].
Qed.

(** C4. [_is_best_score] returns [None] when [lower_is_better] is [None],
    whether the current score is strictly below the running best when it is
    true, and whether it is strictly above otherwise. [initialize] sets the
    running best of a lower-is-better callback to plus infinity, and an
    [on_epoch_end] of either callback changes the running best only to a
    score for which [_is_best_score] returned true. A lower-is-better
    [EpochScoring] fed the epoch scores 0.5, 0.3, 0.4, 0.3 records the
    flags true, true, false, false and ends with running best 0.3. *)
Theorem best_score_tracker :
  (∀ (self : ScoringBase) (current : Qc) (best : ext),
     best_score_ self = Some best →
     match lower_is_better self with
     | None => _is_best_score self current = Ok None
     | Some true =>
         ∃ b, _is_best_score self current = Ok (Some b)
              ∧ (b = true ↔ ext_lt (Fin current) best)
     | Some false =>
         ∃ b, _is_best_score self current = Ok (Some b)
              ∧ (b = true ↔ ext_lt best (Fin current))
     end)
  ∧ (∀ (net : NeuralNet) (k : strategy) (self : ScoringBase) (w : world),
       lower_is_better self = Some true →
       best_score_ (exec (fire net k Initialize) (self, w)).1 = Some PosInf)
  ∧ (∀ (net : NeuralNet) (k : strategy) (dt dv : option dataset)
       (self : ScoringBase) (w : world),
       let self' := (exec (fire net k (EpochEnd dt dv)) (self, w)).1 in
       best_score_ self' = best_score_ self
       ∨ ∃ c, _is_best_score self c = Ok (Some true)
              ∧ best_score_ self' = Some (Fin c))
  ∧ epoch_column "acc_best"
      (net_history
         (exec (run Demo.net PerEpoch Demo.epoch_events)
               (Demo.acc_epoch, Demo.world0)).2)
    = [Some (VBool true); Some (VBool true);
       Some (VBool false); Some (VBool false)]
  ∧ best_score_
      (exec (run Demo.net PerEpoch Demo.epoch_events)
            (Demo.acc_epoch, Demo.world0)).1
    = Some (Fin (Demo.q 3 10)).
Proof.
  split; [|split; [|split; [|split]]].
  - intros self current best Hbest. unfold _is_best_score. rewrite Hbest.
    destruct (lower_is_better self) as [[|]|]; [| |done].
    + eexists. split; [done|]. apply score_lt_spec.
    + eexists. split; [done|]. apply score_gt_spec.
  - intros net k self w Hlower. unfold exec.
    destruct k; simpl;
      unfold EpochScoring.initialize, EpochScoring._initialize_cache,
        initialize, bind, on_self, on_world, get, setattr, modify, of_result,
        alloc;
      simpl; rewrite Hlower; simpl;
      by destruct (_get_name self).
  - intros net k dt dv self w. unfold exec. destruct k; simpl.
    + destruct (batch_on_epoch_end_outcome self w)
        as (r & self' & w' & -> & Hout & _).
      by eapply epoch_end_outcome_best.
    + destruct (epoch_on_epoch_end_outcome net dt dv self w)
        as (r & self' & w' & -> & Hout & _).
      by eapply epoch_end_outcome_best.
  - vm_compute. reflexivity.
  - vm_compute. reflexivity.
Qed.

Lemma best_score_tracker_witness :
  ∃ b, _is_best_score Demo.declining (Demo.q 1 2) = Ok (Some b)
       ∧ (b = true ↔ ext_lt (Fin (Demo.q 1 2)) PosInf).
Proof.
  apply (proj1 best_score_tracker Demo.declining (Demo.q 1 2) PosInf).
  reflexivity.
Defined.

(** ** What one event can change *)

Lemma same_params_get_name self self' :
  same_params self self' → _get_name self' = _get_name self.
Proof.
  intros (Hs & _ & _ & Hn & _). unfold _get_name. by rewrite Hs, Hn.
Qed.

Lemma fresh_lookup_None (hp : gmap loc (list tensor)) :
  hp !! fresh (dom hp) = None.
Proof. apply not_elem_of_dom, is_fresh. Qed.

Lemma lookup_insert_fresh (hp : gmap loc (list tensor)) xs l :
  is_Some (hp !! l) → <[fresh (dom hp) := xs]> hp !! l = hp !! l.
Proof.
  intros Hl. apply lookup_insert_ne. intros <-.
  rewrite fresh_lookup_None in Hl. by destruct Hl.
Qed.

Lemma lookup_insert_is_Some_old (hp : gmap loc (list tensor)) k xs l :
  is_Some (hp !! l) → is_Some (<[k := xs]> hp !! l).
Proof. intros Hl. rewrite lookup_insert_is_Some. destruct (decide (k = l)); auto. Qed.

Lemma column_unchanged key h :
  ∃ m, epoch_column key h = epoch_column key h ++ replicate m None.
Proof. exists 0. simpl. by rewrite app_nil_r. Qed.

Lemma _initialize_cache_eq self w :
  EpochScoring._initialize_cache (self, w) =
    (Ok (),
     (set_y_preds_ (fresh (dom (<[fresh (dom (heap w)) := []]> (heap w))))
        (set_y_trues_ (fresh (dom (heap w))) self),
      set_heap (<[fresh (dom (<[fresh (dom (heap w)) := []]> (heap w))) := []]>
                  (<[fresh (dom (heap w)) := []]> (heap w))) w)).
Proof. reflexivity. Qed.

(** Resetting the cache: two new empty lists, nothing else touched. *)
Lemma cache_reset_frame self self' w :
  same_params self self' →
  (name_ self' = name_ self ∨ ∃ n, _get_name self = Ok n ∧ name_ self' = Some n) →
  y_trues_ self' = Some (fresh (dom (heap w))) →
  y_preds_ self' = Some (fresh (dom (<[fresh (dom (heap w)) := []]> (heap w)))) →
  event_frame self w self'
    (set_heap (<[fresh (dom (<[fresh (dom (heap w)) := []]> (heap w))) := []]>
                 (<[fresh (dom (heap w)) := []]> (heap w))) w).
Proof.
  intros Hpar Hname Ht Hp. split; simpl.
  - done.
  - done.
  - intros l Hl _.
    rewrite lookup_insert_fresh by by apply lookup_insert_is_Some_old.
    by rewrite lookup_insert_fresh.
  - intros l Hl. by do 2 apply lookup_insert_is_Some_old.
  - intros l [Hl|Hl]; right.
    + rewrite Ht in Hl. injection Hl as <-. split; [apply fresh_lookup_None|].
      apply lookup_insert_is_Some_old. rewrite lookup_insert_eq. by eexists.
    + rewrite Hp in Hl. injection Hl as <-. split.
      * pose proof (fresh_lookup_None (<[fresh (dom (heap w)) := []]> (heap w)))
          as Hfresh.
        apply lookup_insert_None in Hfresh. tauto.
      * rewrite lookup_insert_eq. by eexists.
  - intros key _. apply column_unchanged.
  - intros key _ _ _ Hfree. exact Hfree.
Qed.

Ltac frame_trivial :=
  solve [ by repeat split
        | by left
        | intros; by left
        | intros; apply column_unchanged
        | intros; assumption
        | done ].

Lemma initialize_frame self w :
  event_frame self w (exec initialize (self, w)).1 (exec initialize (self, w)).2.
Proof.
  unfold exec, initialize, bind, on_self, get, setattr, modify, of_result.
  simpl. destruct (_get_name self) as [n|e] eqn:Hn; simpl.
  - split; simpl; try frame_trivial. right. by exists n.
  - split; simpl; frame_trivial.
Qed.

Lemma epoch_initialize_frame self w :
  event_frame self w (exec EpochScoring.initialize (self, w)).1
    (exec EpochScoring.initialize (self, w)).2.
Proof.
  pose proof (initialize_frame self w) as Hbase.
  assert ((exec initialize (self, w)).2 = w) as Hw.
  { unfold exec, initialize, bind, on_self, get, setattr, modify, of_result.
    simpl. by destruct (_get_name self). }
  unfold exec, EpochScoring.initialize, bind in *.
  destruct (initialize (self, w)) as [[[]|e] [self1 w1]]; [|exact Hbase].
  cbn [fst snd] in Hbase, Hw. subst w1.
  rewrite _initialize_cache_eq. cbn [fst snd].
  destruct Hbase as [Hpar Hname _ _ _ _].
  apply cache_reset_frame; try done.
Qed.

Lemma on_epoch_begin_frame dt dv self w :
  event_frame self w (exec (EpochScoring.on_epoch_begin dt dv) (self, w)).1
    (exec (EpochScoring.on_epoch_begin dt dv) (self, w)).2.
Proof.
  unfold exec, EpochScoring.on_epoch_begin, bind.
  rewrite _initialize_cache_eq. cbn.
  apply cache_reset_frame; frame_trivial.
Qed.

Lemma on_train_end_frame self w :
  event_frame self w (exec EpochScoring.on_train_end (self, w)).1
    (exec EpochScoring.on_train_end (self, w)).2.
Proof.
  unfold exec, EpochScoring.on_train_end.
  rewrite _initialize_cache_eq. cbn [fst snd].
  apply cache_reset_frame; frame_trivial.
Qed.

(** An event that leaves the callback as it is. *)
Lemma event_frame_self self w w' m :
  (∀ l, is_Some (heap w !! l) → ¬ owns self l → heap w' !! l = heap w !! l) →
  (∀ l, is_Some (heap w !! l) → is_Some (heap w' !! l)) →
  ep_entries <$> net_history w'
    = (ep_entries <$> net_history w) ++ replicate m ∅ →
  (∀ key, (∀ n, name_ self = Some n → key ≠ n) →
          key ≠ bs_key true → key ≠ bs_key false →
          batch_free key (net_history w) → batch_free key (net_history w')) →
  event_frame self w self w'.
Proof.
  intros Hheap Hdom Hent Hfree. split; try frame_trivial.
  intros key _. exists m.
  assert (∀ h : History,
            epoch_column key h
            = (λ e : gmap string value, e !! key) <$> (ep_entries <$> h))
    as Hc.
  { intros h. unfold epoch_column. induction h as [|e h IH]; [done|].
    exact (f_equal (cons (ep_entries e !! key)) IH). }
  rewrite !Hc, Hent, fmap_app, fmap_replicate. by rewrite lookup_empty.
Qed.

(** An event that leaves the callback and the history as they are. *)
Lemma event_frame_heap self w w' :
  (∀ l, is_Some (heap w !! l) → ¬ owns self l → heap w' !! l = heap w !! l) →
  (∀ l, is_Some (heap w !! l) → is_Some (heap w' !! l)) →
  net_history w' = net_history w →
  event_frame self w self w'.
Proof.
  intros Hheap Hdom Hh. apply (event_frame_self self w w' 0); try done.
  - by rewrite Hh, app_nil_r.
  - intros key _ _ _. by rewrite Hh.
Qed.

Lemma batch_maps_snoc hs ep :
  batch_maps (hs ++ [ep]) = batch_maps hs ++ ep_batches ep.
Proof. unfold batch_maps. rewrite bind_app. simpl. by rewrite app_nil_r. Qed.

Lemma record_batch_free key n v h h' :
  history.record_batch n v h = Ok h' →
  key ≠ n →
  batch_free key h → batch_free key h'.
Proof.
  unfold history.record_batch, batch_free.
  destruct (last h) as [ep|] eqn:Hlast; [|done].
  apply last_snoc_inv in Hlast as [hs ->].
  destruct (last (ep_batches ep)) as [b|] eqn:Hb; [|done].
  apply last_snoc_inv in Hb as [bs Hb].
  rewrite alter_last_snoc. intros [= <-] Hne.
  rewrite !batch_maps_snoc. simpl. rewrite Hb, alter_last_snoc.
  rewrite !Forall_app, !Forall_singleton.
  intros (Hhs & Hbs & Hlast). by rewrite lookup_insert_ne.
Qed.

Lemma new_batch_free key h h' :
  history.new_batch h = Ok h' →
  batch_free key h → batch_free key h'.
Proof.
  unfold history.new_batch, batch_free.
  destruct (last h) as [ep|] eqn:Hlast; [|done].
  apply last_snoc_inv in Hlast as [hs ->].
  rewrite alter_last_snoc. intros [= <-].
  rewrite !batch_maps_snoc. simpl.
  rewrite !Forall_app, !Forall_singleton.
  intros (Hhs & Hbs). by rewrite lookup_empty.
Qed.

Lemma update_history_free key f w :
  (∀ h h', f h = Ok h' → batch_free key h → batch_free key h') →
  batch_free key (net_history w) →
  batch_free key (net_history (update_history f w).2).
Proof.
  intros Hf Hfree. unfold update_history.
  destruct (f (net_history w)) as [h'|e] eqn:Hfh; simpl; [|done].
  by apply (Hf _ _ Hfh).
Qed.

Lemma record_batch_entries n v h h' :
  history.record_batch n v h = Ok h' →
  ep_entries <$> h' = ep_entries <$> h.
Proof.
  unfold history.record_batch.
  destruct (last h) as [ep|] eqn:Hlast; [|done].
  apply last_snoc_inv in Hlast as [hs ->].
  destruct (last (ep_batches ep)); [|done].
  rewrite alter_last_snoc. intros [= <-]. by rewrite !fmap_app.
Qed.

Lemma new_batch_entries h h' :
  history.new_batch h = Ok h' →
  ep_entries <$> h' = ep_entries <$> h.
Proof.
  unfold history.new_batch.
  destruct (last h) as [ep|] eqn:Hlast; [|done].
  apply last_snoc_inv in Hlast as [hs ->].
  rewrite alter_last_snoc. intros [= <-]. by rewrite !fmap_app.
Qed.

Lemma update_history_entries f w :
  (∀ h h', f h = Ok h' → ep_entries <$> h' = ep_entries <$> h) →
  heap (update_history f w).2 = heap w
  ∧ net_dict_infer (update_history f w).2 = net_dict_infer w
  ∧ ep_entries <$> net_history (update_history f w).2
    = ep_entries <$> net_history w.
Proof.
  intros Hf. unfold update_history.
  destruct (f (net_history w)) as [h'|e] eqn:Hfh; simpl; [|done].
  by rewrite (Hf _ _ Hfh).
Qed.

Lemma batch_on_batch_end_effect net X y training y_pred self w :
  ∃ r w',
    BatchScoring.on_batch_end net X y training y_pred (self, w) = (r, (self, w'))
    ∧ (heap w' = heap w
       ∨ heap w' = <[fresh (dom (heap w)) := [y_pred]]> (heap w))
    ∧ ep_entries <$> net_history w' = ep_entries <$> net_history w
    ∧ ∀ key, (∀ n, name_ self = Some n → key ≠ n) →
             batch_free key (net_history w) → batch_free key (net_history w').
Proof.
  unfold BatchScoring.on_batch_end, bind at 1, on_self, get. simpl.
  destruct (negb (eqb training (on_train self))); simpl.
  { eexists _, _. split; [done|]. split; [by left|done]. }
  unfold bind at 1, on_world at 1, alloc. simpl.
  set (w1 := set_heap (<[fresh (dom (heap w)) := [y_pred]]> (heap w)) w).
  set (body := try_except _ KeyError (ret ())).
  assert (∀ wa, heap wa = heap w1 →
                net_history wa = net_history w →
                (body (self, wa)).2.1 = self
                ∧ heap (body (self, wa)).2.2 = heap w1
                ∧ ep_entries <$> net_history (body (self, wa)).2.2
                  = ep_entries <$> net_history w
                ∧ (is_Some (net_dict_infer wa) →
                   is_Some (net_dict_infer (body (self, wa)).2.2))
                ∧ ∀ key, (∀ n, name_ self = Some n → key ≠ n) →
                         batch_free key (net_history w) →
                         batch_free key (net_history (body (self, wa)).2.2))
    as Hbody.
  { intros wa Hha Hea. subst body.
    unfold try_except, bind, on_world, attr, ret.
    pose proof (_scoring_heap net self (XTensor X)
                  (Some (target_extractor self y)) wa) as Hsh.
    pose proof (_scoring_history net self (XTensor X)
                  (Some (target_extractor self y)) wa) as Hsy.
    assert (is_Some (net_dict_infer wa) →
            is_Some (net_dict_infer
                       (_scoring net self (XTensor X)
                          (Some (target_extractor self y)) wa).2)) as Hsg.
    { intros [[l i] Hit].
      by destruct (_scoring_guarded net self (XTensor X)
                     (Some (target_extractor self y)) wa l i Hit) as [j ->]. }
    destruct (_scoring net self (XTensor X) (Some (target_extractor self y)) wa)
      as [[c|e] w2]; simpl in *.
    - destruct (name_ self) as [n|] eqn:Hn.
      + pose proof (update_history_entries
                      (history.record_batch n (VNum c)) w2
                      (record_batch_entries n (VNum c))) as (Hu1 & Hu2 & Hu3).
        assert (∀ key, (∀ n', Some n = Some n' → key ≠ n') →
                       batch_free key (net_history w) →
                       batch_free key
                         (net_history
                            (update_history
                               (history.record_batch n (VNum c)) w2).2))
          as Hu4.
        { intros key Hkey Hfree. apply update_history_free.
          - intros h h' Hrec. apply (record_batch_free key n (VNum c) h h' Hrec).
            by apply Hkey.
          - by rewrite Hsy, Hea. }
        destruct (update_history _ w2) as [[[]|e] w3]; simpl in *;
          [|destruct (decide (e = KeyError)); simpl];
          rewrite Hu1, Hu2, Hu3, Hsh, Hsy, Hea; done.
      + simpl. rewrite Hsh, Hsy, Hea. done.
    - destruct (decide (e = KeyError)); simpl; rewrite Hsh, Hsy, Hea; done. }
  unfold cache_net_infer. destruct (use_caching self); simpl.
  - unfold bind, try_finally, on_world at 1 2, modify. simpl.
    destruct (Hbody (set_net_dict_infer (Some (fresh (dom (heap w)), 0)) w1)
                eq_refl eq_refl) as (Hs & Hh & He & Hg & Hf).
    destruct (body _) as [r [self' w']]. simpl in *. subst self'.
    destruct (Hg (mk_is_Some _ _ eq_refl)) as [it ->].
    eexists _, _. split; [done|]. simpl. split; [by right|done].
  - destruct (Hbody w1 eq_refl eq_refl) as (Hs & Hh & He & _ & Hf).
    destruct (body _) as [r [self' w']]. simpl in *. subst self'.
    eexists _, _. split; [done|]. split; [by right|done].
Qed.

Lemma batch_on_batch_end_frame net X y training y_pred self w :
  event_frame self w
    (exec (BatchScoring.on_batch_end net X y training y_pred) (self, w)).1
    (exec (BatchScoring.on_batch_end net X y training y_pred) (self, w)).2.
Proof.
  destruct (batch_on_batch_end_effect net X y training y_pred self w)
    as (r & w' & Heq & Hheap & Hent & Hfree).
  unfold exec. rewrite Heq. simpl.
  apply (event_frame_self self w w' 0).
  - intros l Hl _. destruct Hheap as [->| ->]; [done|].
    by apply lookup_insert_fresh.
  - intros l Hl. destruct Hheap as [->| ->]; [done|].
    by apply lookup_insert_is_Some_old.
  - simpl. by rewrite Hent, app_nil_r.
  - intros key Hkey _ _. by apply Hfree.
Qed.

Lemma epoch_on_batch_end_effect y y_pred training self w :
  ∃ r w',
    EpochScoring.on_batch_end y y_pred training (self, w) = (r, (self, w'))
    ∧ net_history w' = net_history w
    ∧ (∀ l, ¬ owns self l → heap w' !! l = heap w !! l)
    ∧ (∀ l, is_Some (heap w !! l) → is_Some (heap w' !! l)).
Proof.
  unfold EpochScoring.on_batch_end, bind, on_self, get, attr, on_world, append,
    modify, ret, owns.
  simpl.
  destruct (negb (use_caching self) || negb (eqb training (on_train self)));
    [by eexists _, _|].
  destruct (y_is_placeholder_ self) as [[|]|]; simpl; [| |by eexists _, _].
  - destruct (y_preds_ self) as [lp|]; [|by eexists _, _].
    eexists _, _. split; [done|]. simpl. split; [done|]. split.
    + intros l Hl. apply lookup_alter_ne. intros ->. tauto.
    + intros l Hl. by apply lookup_alter_is_Some.
  - destruct (y_trues_ self) as [lt|]; [|by eexists _, _].
    destruct (y_preds_ self) as [lp|]; simpl.
    + eexists _, _. split; [done|]. simpl. split; [done|]. split.
      * intros l Hl. rewrite !lookup_alter_ne; [done|intros ->; tauto..].
      * intros l Hl. by do 2 apply lookup_alter_is_Some.
    + eexists _, _. split; [done|]. simpl. split; [done|]. split.
      * intros l Hl. apply lookup_alter_ne. intros ->. tauto.
      * intros l Hl. by apply lookup_alter_is_Some.
Qed.

Lemma epoch_on_batch_end_frame y y_pred training self w :
  event_frame self w
    (exec (EpochScoring.on_batch_end y y_pred training) (self, w)).1
    (exec (EpochScoring.on_batch_end y y_pred training) (self, w)).2.
Proof.
  destruct (epoch_on_batch_end_effect y y_pred training self w)
    as (r & w' & Heq & Hh & Hheap & Hdom).
  unfold exec. rewrite Heq. simpl.
  apply (event_frame_heap self w w'); by auto.
Qed.

Lemma epoch_column_snoc key hs ep :
  epoch_column key (hs ++ [ep]) = epoch_column key hs ++ [ep_entries ep !! key].
Proof. unfold epoch_column. by rewrite fmap_app. Qed.

(** The outcomes of an epoch end, as a frame. *)
Lemma epoch_end_outcome_frame self w r self' w' :
  epoch_end_outcome self (net_history w) r self' (net_history w') →
  (∀ l, is_Some (heap w !! l) → heap w' !! l = heap w !! l) →
  event_frame self w self' w'.
Proof.
  intros Hout Hheap.
  assert (same_params self self' ∧ name_ self' = name_ self
          ∧ y_trues_ self' = y_trues_ self ∧ y_preds_ self' = y_preds_ self)
    as (Hpar & Hname & Ht & Hp).
  { destruct Hout as [| | n c b hs ep Hn Hh Hbest |]; try by repeat split.
    destruct b; by repeat split. }
  split.
  - done.
  - by left.
  - intros l Hl _. by apply Hheap.
  - intros l Hl. by rewrite Hheap.
  - intros l [Hl|Hl]; left; [left; congruence|right; congruence].
  - intros key Hkey.
    destruct Hout as [r|n c hs ep Hn Hh Hbest|n c b hs ep Hn Hh Hbest
                      |n c e hs ep Hn Hh Hbest].
    + apply column_unchanged.
    + destruct (Hkey n Hn) as [Hne _]. exists 0. rewrite Hh.
      rewrite !epoch_column_snoc. simpl.
      by rewrite lookup_insert_ne, app_nil_r.
    + destruct (Hkey n Hn) as [Hne [Hnone|Hne']].
      { unfold _is_best_score in Hbest. by rewrite Hnone in Hbest. }
      exists 0. rewrite Hh. rewrite !epoch_column_snoc. simpl.
      by rewrite !lookup_insert_ne, app_nil_r.
    + destruct (Hkey n Hn) as [Hne _]. exists 0. rewrite Hh.
      rewrite !epoch_column_snoc. simpl.
      by rewrite lookup_insert_ne, app_nil_r.
  - intros key _ _ _. unfold batch_free.
    destruct Hout as [r|n c hs ep Hn Hh Hbest|n c b hs ep Hn Hh Hbest
                      |n c e hs ep Hn Hh Hbest];
      [done|rewrite Hh, !batch_maps_snoc; done..].
Qed.

Lemma loop_new_epoch_frame self w :
  event_frame self w self (exec loop_new_epoch w).
Proof.
  apply (event_frame_self self w _ 1); try done.
  - unfold exec, loop_new_epoch, modify, history.new_epoch. simpl.
    by rewrite fmap_app.
  - intros key _ _ _. unfold exec, loop_new_epoch, modify, history.new_epoch,
      batch_free.
    simpl. rewrite batch_maps_snoc. simpl. by rewrite app_nil_r.
Qed.

Lemma loop_new_batch_frame training size self w :
  event_frame self w self (exec (loop_new_batch training size) w).
Proof.
  unfold exec, loop_new_batch, bind.
  pose proof (update_history_entries history.new_batch w new_batch_entries)
    as (H1 & _ & H3).
  assert (∀ key, batch_free key (net_history w) →
                 batch_free key
                   (net_history (update_history history.new_batch w).2))
    as H4.
  { intros key. apply update_history_free. intros h h'. apply new_batch_free. }
  destruct (update_history history.new_batch w) as [[[]|e] w1]; simpl in *.
  - pose proof (update_history_entries
                  (history.record_batch (bs_key training)
                     (VNum (Q2Qc (inject_Z size)))) w1
                  (record_batch_entries _ _))
      as (H1' & _ & H3').
    apply (event_frame_self self w _ 0).
    + intros l _ _. by rewrite H1', H1.
    + intros l Hl. by rewrite H1', H1.
    + by rewrite H3', H3, app_nil_r.
    + intros key _ Ht Hv Hfree. apply update_history_free; [|by apply H4].
      intros h h' Hrec. apply (record_batch_free _ _ _ _ _ Hrec).
      by destruct training.
  - apply (event_frame_self self w _ 0).
    + intros l _ _. by rewrite H1.
    + intros l Hl. by rewrite H1.
    + by rewrite H3, app_nil_r.
    + intros key _ _ _. apply H4.
Qed.

Lemma exec_on_world {E A} (m : M world A) (e : E) w :
  exec (on_world m) (e, w) = (e, exec m w).
Proof. unfold exec, on_world. by destruct (m w). Qed.

(** Every event, delivered to a callback of either class, respects the
    frame. *)
Lemma fire_frame net k ev self w :
  event_frame self w (exec (fire net k ev) (self, w)).1
    (exec (fire net k ev) (self, w)).2.
Proof.
  destruct ev as [|dt dv|X y y_pred training|dt dv| | |training size], k;
    simpl.
  - apply initialize_frame.
  - apply epoch_initialize_frame.
  - by apply (event_frame_heap self w w).
  - apply on_epoch_begin_frame.
  - apply batch_on_batch_end_frame.
  - apply epoch_on_batch_end_frame.
  - destruct (batch_on_epoch_end_outcome self w)
      as (r & self' & w' & Heq & Hout & Hw').
    unfold exec. rewrite Heq. simpl.
    apply (epoch_end_outcome_frame self w r self' w' Hout).
    intros l _. by rewrite Hw'.
  - destruct (epoch_on_epoch_end_outcome net dt dv self w)
      as (r & self' & w' & Heq & Hout & Hheap).
    unfold exec. rewrite Heq. simpl.
    by apply (epoch_end_outcome_frame self w r self' w' Hout).
  - by apply (event_frame_heap self w w).
  - apply on_train_end_frame.
  - apply loop_new_epoch_frame.
  - apply loop_new_epoch_frame.
  - rewrite exec_on_world. apply loop_new_batch_frame.
  - rewrite exec_on_world. apply loop_new_batch_frame.
Qed.

(** ** Comparison disabled *)

Lemma exec_run_cons net k ev evs s :
  exec (run net k (ev :: evs)) s
  = match (fire net k ev s).1 with
    | Ok _ => exec (run net k evs) (exec (fire net k ev) s)
    | Raise _ => exec (fire net k ev) s
    end.
Proof.
  unfold exec. simpl. unfold bind.
  by destruct (fire net k ev s) as [[[]|e] s'].
Qed.

(** C9. A callback of either class built with [lower_is_better=None] never
    writes under its name with "_best" appended: over any sequence of
    events (and so any sequence of scores), the epochs that were there keep
    what they had under that key, the epochs opened since have nothing
    under it, and no batch gains an entry under it. *)
Theorem no_best_flag_when_comparison_disabled
    (net : NeuralNet) (k : strategy) (evs : list event)
    (self : ScoringBase) (w : world) (n : string) :
  lower_is_better self = None →
  _get_name self = Ok n →
  name_ self = None ∨ name_ self = Some n →
  (∃ m,
     epoch_column (n +:+ "_best")
       (net_history (exec (run net k evs) (self, w)).2)
     = epoch_column (n +:+ "_best") (net_history w) ++ replicate m None)
  ∧ (batch_free (n +:+ "_best") (net_history w) →
     batch_free (n +:+ "_best")
       (net_history (exec (run net k evs) (self, w)).2)).
Proof.
  revert self w. induction evs as [|ev evs IH]; intros self w Hlower Hget Hname.
  - split; [apply column_unchanged|done].
  - rewrite exec_run_cons.
    destruct (fire_frame net k ev self w) as [Hpar Hn _ _ _ Hent Hbat].
    assert (∀ n', name_ self = Some n' → n' = n) as Hsame.
    { intros n' Hn'. destruct Hname as [Hname|Hname]; congruence. }
    destruct (Hent (n +:+ "_best")) as [m1 Hm1].
    { intros n' Hn'. rewrite (Hsame n' Hn').
      split; [|by left]. intros Heq. by apply (name_ne_best n). }
    specialize (Hbat (n +:+ "_best")).
    assert (batch_free (n +:+ "_best") (net_history w) →
            batch_free (n +:+ "_best")
              (net_history (exec (fire net k ev) (self, w)).2)) as Hb1.
    { apply Hbat; [|apply best_ne_bs_key..].
      intros n' Hn'. rewrite (Hsame n' Hn').
      intros Heq. by apply (name_ne_best n). }
    destruct (fire net k ev (self, w)).1; [|split; [by exists m1|done]].
    destruct (exec (fire net k ev) (self, w)) as [self1 w1]. simpl in *.
    destruct (IH self1 w1) as [[m2 Hm2] Hb2].
    + destruct Hpar as (_ & -> & _). done.
    + by rewrite (same_params_get_name self self1).
    + destruct Hn as [->|(n' & Hget' & ->)]; [done|]. right. congruence.
    + split; [|by auto].
      exists (m1 + m2). rewrite Hm2, Hm1, <-app_assoc.
      by rewrite replicate_add.
Qed.

Lemma no_best_flag_when_comparison_disabled_witness :
  (∃ m,
     epoch_column ("acc" +:+ "_best")
       (net_history
          (exec (run Demo.net PerEpoch Demo.epoch_events)
                (Demo.no_compare, Demo.world0)).2)
     = epoch_column ("acc" +:+ "_best") (net_history Demo.world0)
       ++ replicate m None)
  ∧ (batch_free ("acc" +:+ "_best") (net_history Demo.world0) →
     batch_free ("acc" +:+ "_best")
       (net_history
          (exec (run Demo.net PerEpoch Demo.epoch_events)
                (Demo.no_compare, Demo.world0)).2)).
Proof.
  apply (no_best_flag_when_comparison_disabled Demo.net PerEpoch
           Demo.epoch_events Demo.no_compare Demo.world0 "acc").
  - reflexivity.
  - reflexivity.
  - left. reflexivity.
Defined.

(** ** Each callback owns its cache *)

Lemma cache_of_frame self other w self' w' :
  event_frame self w self' w' →
  (∀ l, owns other l → is_Some (heap w !! l)) →
  (∀ l, owns self l → ¬ owns other l) →
  cache_of other w' = cache_of other w.
Proof.
  intros [_ _ Hheap _ _ _] Halloc Hsep. unfold cache_of.
  f_equal.
  - destruct (y_trues_ other) as [l|] eqn:Hl; [|done]. simpl.
    apply Hheap; [apply Halloc; by left|].
    intros Hown. apply (Hsep l Hown). by left.
  - destruct (y_preds_ other) as [l|] eqn:Hl; [|done]. simpl.
    apply Hheap; [apply Halloc; by right|].
    intros Hown. apply (Hsep l Hown). by right.
Qed.

Lemma separate_frame self other w self' w' :
  event_frame self w self' w' →
  (∀ l, owns self l → is_Some (heap w !! l)) →
  (∀ l, owns other l → is_Some (heap w !! l)) →
  (∀ l, owns self l → ¬ owns other l) →
  (∀ l, owns self' l → is_Some (heap w' !! l))
  ∧ (∀ l, owns other l → is_Some (heap w' !! l))
  ∧ (∀ l, owns self' l → ¬ owns other l).
Proof.
  intros [_ _ _ Hdom Howns _] Hself Hother Hsep. repeat split.
  - intros l Hl. destruct (Howns l Hl) as [Hold|[_ Hnew]]; [|done].
    by apply Hdom, Hself.
  - intros l Hl. by apply Hdom, Hother.
  - intros l Hl Ho. destruct (Howns l Hl) as [Hold|[Hnone _]].
    + by apply (Hsep l).
    + apply Hother in Ho. rewrite Hnone in Ho. by destruct Ho.
Qed.

Lemma deliver_separate net t ev s :
  separate s → separate (deliver net t ev s).
Proof.
  destruct s as [[a b] w]. intros (Ha & Hb & Hsep). simpl in *.
  destruct t; unfold separate; simpl.
  - by apply (separate_frame a b w _ _ (fire_frame net PerEpoch ev a w)).
  - destruct (separate_frame b a w _ _ (fire_frame net PerEpoch ev b w))
      as (Hb' & Ha' & Hsep'); try done.
    { intros l Hl Hl'. by apply (Hsep l). }
    repeat split; try done. intros l Hl Hl'. by apply (Hsep' l).
Qed.

Lemma deliver_all_separate net evs s :
  separate s → separate (deliver_all net evs s).
Proof.
  revert s. induction evs as [|[t ev] evs IH]; intros s Hs; [done|].
  simpl. by apply IH, deliver_separate.
Qed.

(** C5. Two [EpochScoring] instances attached to the same net, each built
    by [__init__]: after any interleaving of events delivered to the two,
    one more event delivered to one of them leaves the other as it is and
    the contents of the other's [y_trues_] and [y_preds_] lists as they
    are: nothing added, removed or reordered. *)
Theorem epoch_caches_do_not_interfere
    (net : NeuralNet) (evs : list (who * event)) (ev : event) (w : world)
    (sc1 sc2 : scoring_spec) (lib1 lib2 : option bool) (ot1 ot2 : bool)
    (nm1 nm2 : option string) (te1 te2 : tensor → ndarray) (uc1 uc2 : bool) :
  let s := deliver_all net evs
             (__init__ sc1 lib1 ot1 nm1 te1 uc1,
              __init__ sc2 lib2 ot2 nm2 te2 uc2, w) in
  ((deliver net First ev s).1.2 = s.1.2
   ∧ cache_of s.1.2 (deliver net First ev s).2 = cache_of s.1.2 s.2)
  ∧ ((deliver net Second ev s).1.1 = s.1.1
     ∧ cache_of s.1.1 (deliver net Second ev s).2 = cache_of s.1.1 s.2).
Proof.
  intros s.
  assert (separate s) as (Ha & Hb & Hsep).
  { apply deliver_all_separate. unfold separate, owns. simpl.
    repeat split; intros l [?|?]; done. }
  destruct s as [[a b] w']. simpl in *. repeat split.
  - by apply (cache_of_frame a b w' _ _ (fire_frame net PerEpoch ev a w')).
  - apply (cache_of_frame b a w' _ _ (fire_frame net PerEpoch ev b w'));
      [done|].
    intros l Hl Hl'. by apply (Hsep l).
Qed.

(** ** Batches of an epoch without targets *)

(** During an epoch whose targets are a placeholder, a batch leaves the
    callback as it is and the target list empty. *)
Lemma placeholder_batch net ev self w lt lp :
  within_epoch ev →
  y_is_placeholder_ self = Some true →
  y_trues_ self = Some lt →
  y_preds_ self = Some lp →
  lt ≠ lp →
  heap w !! lt = Some [] →
  (exec (fire net PerEpoch ev) (self, w)).1 = self
  ∧ heap (exec (fire net PerEpoch ev) (self, w)).2 !! lt = Some [].
Proof.
  intros Hev Hph Ht Hp Hne Hlt.
  destruct ev as [| |X y y_pred training| | | |training size]; try done.
  - unfold exec. simpl.
    unfold EpochScoring.on_batch_end, bind, on_self, get, attr, on_world,
      append, modify, ret.
    simpl.
    destruct (negb (use_caching self) || negb (eqb training (on_train self)));
      [done|].
    rewrite Hph. simpl. rewrite Hp. simpl. split; [done|].
    by rewrite lookup_alter_ne.
  - simpl. rewrite exec_on_world. simpl. split; [done|].
    unfold exec, loop_new_batch, bind.
    pose proof (update_history_entries history.new_batch w new_batch_entries)
      as (H1 & _ & _).
    destruct (update_history history.new_batch w) as [[[]|e] w1]; simpl in *.
    + pose proof (update_history_entries
                    (history.record_batch (bs_key training)
                       (VNum (Q2Qc (inject_Z size)))) w1
                    (record_batch_entries _ _))
        as (H1' & _ & _).
      by rewrite H1', H1.
    + by rewrite H1.
Qed.

Lemma placeholder_batches net evs self w lt lp :
  Forall within_epoch evs →
  y_is_placeholder_ self = Some true →
  y_trues_ self = Some lt →
  y_preds_ self = Some lp →
  lt ≠ lp →
  heap w !! lt = Some [] →
  (exec (run net PerEpoch evs) (self, w)).1 = self
  ∧ heap (exec (run net PerEpoch evs) (self, w)).2 !! lt = Some [].
Proof.
  intros Hevs Hph Ht Hp Hne. revert w.
  induction Hevs as [|ev evs Hev Hevs IH]; intros w Hlt; [done|].
  rewrite exec_run_cons.
  destruct (placeholder_batch net ev self w lt lp Hev Hph Ht Hp Hne Hlt)
    as [Hself Hheap].
  destruct (fire net PerEpoch ev (self, w)).1; [|done].
  destruct (exec (fire net PerEpoch ev) (self, w)) as [self1 w1].
  simpl in *. subst self1. by apply IH.
Qed.

Lemma on_epoch_begin_eq dt dv self w :
  EpochScoring.on_epoch_begin dt dv (self, w) =
    (Ok (),
     (set_y_is_placeholder_
        (match (if on_train self then dt else dv) with
         | Some (SkorchDataset _ None) => true
         | _ => false
         end)
        (set_y_preds_ (fresh (dom (<[fresh (dom (heap w)) := []]> (heap w))))
           (set_y_trues_ (fresh (dom (heap w))) self)),
      set_heap (<[fresh (dom (<[fresh (dom (heap w)) := []]> (heap w))) := []]>
                  (<[fresh (dom (heap w)) := []]> (heap w))) w)).
Proof. reflexivity. Qed.

(** In an epoch without targets the predictions are cached all the same,
    and with targets present both lists grow together. *)
Example placeholder_epoch_caches :
  cache_of
    (exec (run Demo.net PerEpoch
             (EpochBegin None (Some (SkorchDataset (Some [1%Z]) None))
              :: Demo.placeholder_events))
          (Demo.acc_epoch, Demo.one_epoch_world)).1
    (exec (run Demo.net PerEpoch
             (EpochBegin None (Some (SkorchDataset (Some [1%Z]) None))
              :: Demo.placeholder_events))
          (Demo.acc_epoch, Demo.one_epoch_world)).2
  = (Some [], Some [[7%Z]; [8%Z]])
  ∧ cache_of
      (exec (run Demo.net PerEpoch
               (EpochBegin None (Some (SkorchDataset (Some [1%Z]) (Some [0%Z])))
                :: Demo.placeholder_events))
            (Demo.acc_epoch, Demo.one_epoch_world)).1
      (exec (run Demo.net PerEpoch
               (EpochBegin None (Some (SkorchDataset (Some [1%Z]) (Some [0%Z])))
                :: Demo.placeholder_events))
            (Demo.acc_epoch, Demo.one_epoch_world)).2
    = (Some [[5%Z]; [6%Z]], Some [[7%Z]; [8%Z]]).
Proof. split; vm_compute; reflexivity. Qed.

(** The scorer of an epoch without targets is called without a target,
    and with one when the dataset has targets. *)
Example placeholder_scorer_sees_None :
  epoch_column "probe"
    (net_history
       (exec (run Demo.net PerEpoch
                (Demo.probe_events (SkorchDataset (Some [1%Z]) None)))
             (Demo.probe, Demo.world0)).2)
  = [Some (VNum (Demo.q 1 1))]
  ∧ epoch_column "probe"
      (net_history
         (exec (run Demo.net PerEpoch
                  (Demo.probe_events (SkorchDataset (Some [1%Z]) (Some [0%Z]))))
               (Demo.probe, Demo.world0)).2)
    = [Some (VNum (Demo.q 0 1))].
Proof. split; vm_compute; reflexivity. Qed.

(** * Further properties of the code *)

(** ** The caching context: any number of invocations, no caching, nesting *)

(** Replaying from index [i] with any number of invocations: as many
    values as there are invocations while the list lasts, [StopIteration]
    at the first invocation past its end. *)
Lemma infer_each_replays_any net xs : ∀ acc w l i preds,
  net_dict_infer w = Some (l, i) →
  heap w !! l = Some preds →
  i ≤ length preds →
  (run_prog net (infer_each xs acc) w).1 =
    if decide (i + length xs ≤ length preds)
    then Ok (reverse acc ++ take (length xs) (drop i preds))
    else Raise StopIteration.
Proof.
  induction xs as [|x xs IH]; intros acc w l i preds Hg Hl Hi; simpl.
  - rewrite decide_True by lia. by rewrite take_0, app_nil_r.
  - unfold bind, call_infer, lookup_infer, next. rewrite Hg. simpl.
    rewrite Hl. simpl.
    destruct (preds !! i) as [y|] eqn:Hy.
    + pose proof (lookup_lt_Some _ _ _ Hy) as Hlt.
      specialize (IH (y :: acc) (set_net_dict_infer (Some (l, S i)) w)
                    l (S i) preds eq_refl Hl Hlt).
      destruct (run_prog net (infer_each xs (y :: acc)) _) as [r w'].
      cbn [fst snd] in *. subst r.
      destruct (decide (S i + length xs ≤ length preds)).
      * rewrite decide_True by lia.
        rewrite reverse_cons, <-app_assoc, (drop_S preds y i Hy). done.
      * by rewrite decide_False by lia.
    + apply lookup_ge_None in Hy. simpl. by rewrite decide_False by lia.
Qed.

(** X1. The number of cached predictions is not validated. With at most as
    many invocations as cached predictions the scope returns the first
    ones in order (the rest is ignored); with more, the invocation past
    the end raises [StopIteration], which leaves the scope. Either way the
    world is as it was on entry. *)
Theorem cache_net_infer_any_length
    (net : NeuralNet) (E : Type) (e : E) (w : world) (l : loc)
    (preds xs : list tensor) :
  net_dict_infer w = None →
  heap w !! l = Some preds →
  cache_net_infer true l (on_world (run_prog net (infer_each xs []))) (e, w)
    = (if decide (length xs ≤ length preds)
       then Ok (take (length xs) preds)
       else Raise StopIteration,
       (e, w)).
Proof.
  intros Hplain Hl. rewrite cache_net_infer_scorer by done. f_equal.
  rewrite (infer_each_replays_any net xs [] _ l 0 preds); [done..|lia].
Qed.

Lemma cache_net_infer_any_length_witness :
  cache_net_infer true 1%positive
    (on_world (run_prog Demo.net (infer_each [[1%Z]; [2%Z]; [3%Z]] [])))
    ((), Demo.cached_world)
  = (Raise StopIteration, ((), Demo.cached_world)).
Proof.
  apply (cache_net_infer_any_length Demo.net unit () Demo.cached_world
           1%positive [[10%Z]; [20%Z]] [[1%Z]; [2%Z]; [3%Z]]); reflexivity.
Defined.

Lemma infer_each_plain net xs : ∀ acc w,
  net_dict_infer w = None →
  run_prog net (infer_each xs acc) w
    = (Ok (reverse acc ++ (nn_infer net <$> xs)), w).
Proof.
  induction xs as [|x xs IH]; intros acc w Hplain; simpl.
  - by rewrite app_nil_r.
  - unfold bind, call_infer, lookup_infer. rewrite Hplain.
    rewrite IH by done. by rewrite reverse_cons, <-app_assoc.
Qed.

(** X2. With caching disabled the context changes nothing: every invocation
    of the prediction operation runs the net's own [infer] on its
    argument, and the cached predictions are never looked at. *)
Theorem cache_net_infer_disabled
    (net : NeuralNet) (E : Type) (e : E) (w : world) (l : loc)
    (xs : list tensor) :
  net_dict_infer w = None →
  cache_net_infer false l (on_world (run_prog net (infer_each xs []))) (e, w)
    = (Ok (nn_infer net <$> xs), (e, w)).
Proof.
  intros Hplain. unfold cache_net_infer, on_world. simpl.
  by rewrite infer_each_plain.
Qed.

Lemma cache_net_infer_disabled_witness :
  cache_net_infer false 1%positive
    (on_world (run_prog Demo.net (infer_each [[1%Z]; [2%Z]] [])))
    ((), Demo.cached_world)
  = (Ok [[1%Z]; [2%Z]], ((), Demo.cached_world)).
Proof.
  apply (cache_net_infer_disabled Demo.net unit () Demo.cached_world
           1%positive [[1%Z]; [2%Z]]); reflexivity.
Defined.

(** X3. Nesting two caching contexts on the same net fails: the inner exit
    deletes the only [infer] entry of the attribute dictionary, so the
    [del] of the outer exit raises [KeyError], whatever the body did. *)
Theorem cache_net_infer_nested_fails
    (E A : Type) (body : M (E * world) A) (l1 l2 : loc) (s : E * world) :
  (cache_net_infer true l1 (cache_net_infer true l2 body) s).1 = Raise KeyError
  ∧ net_dict_infer (cache_net_infer true l1 (cache_net_infer true l2 body) s).2.2
    = None.
Proof.
  split; [|apply cache_net_infer_exit].
  destruct s as [e w].
  unfold cache_net_infer at 1. unfold bind, try_finally, on_world, modify.
  simpl.
  pose proof (cache_net_infer_exit E A body l2
                (e, set_net_dict_infer (Some (l1, 0)) w)) as Hexit.
  destruct (cache_net_infer true l2 body _) as [r [e' w']]. simpl in *.
  by rewrite Hexit.
Qed.

(** ** Initialisation *)

Lemma fire_initialize_effect net k self w :
  let s' := exec (fire net k Initialize) (self, w) in
  same_params self s'.1
  ∧ best_score_ s'.1
    = Some (if default false (lower_is_better self) then PosInf else NegInf)
  ∧ match _get_name self with
    | Ok n =>
        (fire net k Initialize (self, w)).1 = Ok () ∧ name_ s'.1 = Some n
    | Raise e =>
        (fire net k Initialize (self, w)).1 = Raise e
        ∧ name_ s'.1 = name_ self
        ∧ y_trues_ s'.1 = y_trues_ self
        ∧ y_preds_ s'.1 = y_preds_ self
        ∧ s'.2 = w
    end.
Proof.
  unfold exec.
  destruct k; simpl;
    unfold EpochScoring.initialize, EpochScoring._initialize_cache,
      initialize, bind, on_self, on_world, get, setattr, modify, of_result,
      alloc;
    simpl; destruct (_get_name self); simpl; by repeat split.
Qed.

(** X4. An explicit [name] is the history key whatever [scoring] is, also for
    a callable without a [__name__]; [initialize] then succeeds and sets the
    running best to plus infinity when lower is better and to minus
    infinity otherwise (also when [lower_is_better] is [None]). *)
Theorem initialize_explicit_name
    (net : NeuralNet) (k : strategy) (self : ScoringBase) (w : world)
    (n : string) :
  name self = Some n →
  (fire net k Initialize (self, w)).1 = Ok ()
  ∧ name_ (exec (fire net k Initialize) (self, w)).1 = Some n
  ∧ best_score_ (exec (fire net k Initialize) (self, w)).1
    = Some (match lower_is_better self with
            | Some true => PosInf
            | _ => NegInf
            end).
Proof.
  intros Hname.
  destruct (fire_initialize_effect net k self w) as (_ & Hbest & Hn).
  unfold _get_name in Hn. rewrite Hname in Hn. destruct Hn as [Hok Hn].
  split; [done|]. split; [done|]. rewrite Hbest.
  by destruct (lower_is_better self) as [[|]|].
Qed.

Lemma initialize_explicit_name_witness :
  (fire Demo.net PerEpoch Initialize (Demo.named, Demo.world0)).1 = Ok ()
  ∧ name_ (exec (fire Demo.net PerEpoch Initialize)
             (Demo.named, Demo.world0)).1 = Some "loss"
  ∧ best_score_ (exec (fire Demo.net PerEpoch Initialize)
                   (Demo.named, Demo.world0)).1
    = Some NegInf.
Proof.
  apply (initialize_explicit_name Demo.net PerEpoch Demo.named Demo.world0
           "loss").
  reflexivity.
Defined.

(** X5. Without an explicit name, a scorer that has no [__name__] (a callable
    object, or a partial of one) makes [initialize] raise [AttributeError]
    half way: the running best is already set, [name_] is not, and
    [EpochScoring.initialize] has not created its cache lists. *)
Theorem initialize_nameless_scorer
    (net : NeuralNet) (k : strategy) (self : ScoringBase) (w : world)
    (f : scorer) :
  name self = None →
  scoring self = ScoringCallable None f ∨ scoring self = ScoringPartial None f →
  (fire net k Initialize (self, w)).1 = Raise AttributeError
  ∧ is_Some (best_score_ (exec (fire net k Initialize) (self, w)).1)
  ∧ name_ (exec (fire net k Initialize) (self, w)).1 = name_ self
  ∧ y_trues_ (exec (fire net k Initialize) (self, w)).1 = y_trues_ self
  ∧ y_preds_ (exec (fire net k Initialize) (self, w)).1 = y_preds_ self
  ∧ (exec (fire net k Initialize) (self, w)).2 = w.
Proof.
  intros Hname Hsc.
  destruct (fire_initialize_effect net k self w) as (_ & Hbest & Hn).
  assert (_get_name self = Raise AttributeError) as Hget.
  { unfold _get_name. rewrite Hname. by destruct Hsc as [-> | ->]. }
  rewrite Hget in Hn. destruct Hn as (? & ? & ? & ? & ?).
  rewrite Hbest. by repeat split.
Qed.

Lemma initialize_nameless_scorer_witness :
  (fire Demo.net PerEpoch Initialize (Demo.nameless, Demo.world0)).1
    = Raise AttributeError
  ∧ is_Some (best_score_ (exec (fire Demo.net PerEpoch Initialize)
                            (Demo.nameless, Demo.world0)).1)
  ∧ name_ (exec (fire Demo.net PerEpoch Initialize)
             (Demo.nameless, Demo.world0)).1 = name_ Demo.nameless
  ∧ y_trues_ (exec (fire Demo.net PerEpoch Initialize)
                (Demo.nameless, Demo.world0)).1 = y_trues_ Demo.nameless
  ∧ y_preds_ (exec (fire Demo.net PerEpoch Initialize)
                (Demo.nameless, Demo.world0)).1 = y_preds_ Demo.nameless
  ∧ (exec (fire Demo.net PerEpoch Initialize)
       (Demo.nameless, Demo.world0)).2 = Demo.world0.
Proof.
  apply (initialize_nameless_scorer Demo.net PerEpoch Demo.nameless
           Demo.world0 Demo.epoch_scorer).
  - reflexivity.
  - left. reflexivity.
Defined.



(** ** The net is never left patched *)

Lemma update_history_net_dict f w :
  net_dict_infer (update_history f w).2 = net_dict_infer w.
Proof. unfold update_history. by destruct (f (net_history w)). Qed.

Lemma batch_try_block_unpatched net self X y w :
  net_dict_infer w = None →
  net_dict_infer
    (try_except
       (score <- on_world (_scoring net self (XTensor X) (Some y)) ;;
        n <- attr name_ ;;
        on_world (update_history (history.record_batch n (VNum score))))
       KeyError (ret ()) (self, w)).2.2 = None.
Proof.
  intros Hplain. unfold try_except, bind, on_world, attr, ret.
  pose proof (_scoring_plain net self (XTensor X) (Some y) w Hplain) as Hs.
  destruct (_scoring net self (XTensor X) (Some y) w) as [[c|e] w2];
    simpl in *; subst w2.
  - destruct (name_ self) as [n|]; simpl; [|done].
    pose proof (update_history_net_dict
                  (history.record_batch n (VNum c)) w) as Hu.
    destruct (update_history _ w) as [[[]|e] w3]; simpl in *;
      [|destruct (decide (e = KeyError)); simpl]; congruence.
  - destruct (decide (e = KeyError)); simpl; done.
Qed.

Lemma epoch_with_body_unpatched net self X_test y_test w :
  net_dict_infer w = None →
  net_dict_infer
    ((current_score <- on_world (_scoring net self X_test y_test) ;;
      n <- attr name_ ;;
      on_world (update_history (history.record n (VNum current_score))) ;;;
      is_best <- of_result (_is_best_score self current_score) ;;
      match is_best with
      | None => ret ()
      | Some b =>
          on_world (update_history
                      (history.record (n +:+ "_best") (VBool b))) ;;;
          if b then setattr (set_best_score_ (Fin current_score))
          else ret ()
      end) (self, w)).2.2 = None.
Proof.
  intros Hplain. unfold bind, on_world, attr, of_result, ret.
  pose proof (_scoring_plain net self X_test y_test w Hplain) as Hs.
  destruct (_scoring net self X_test y_test w) as [[c|e] w2];
    simpl in *; subst w2; [|done].
  destruct (name_ self) as [n|]; simpl; [|done].
  pose proof (update_history_net_dict (history.record n (VNum c)) w) as Hu.
  destruct (update_history (history.record n (VNum c)) w) as [[[]|e] w3];
    simpl in *; [|congruence].
  destruct (_is_best_score self c) as [[b|]|e]; simpl; [|congruence..].
  pose proof (update_history_net_dict
                (history.record (n +:+ "_best") (VBool b)) w3) as Hu'.
  destruct (update_history _ w3) as [[[]|e] w4]; simpl in *; [|congruence].
  unfold setattr, on_self, modify. destruct b; simpl; congruence.
Qed.

Lemma fire_unpatched net k ev self w :
  net_dict_infer w = None →
  net_dict_infer (exec (fire net k ev) (self, w)).2 = None.
Proof.
  intros Hplain. unfold exec.
  destruct ev as [|dt dv|X y y_pred training|dt dv| | |training size], k;
    cbn [fire].
  - unfold initialize, bind, on_self, get, setattr, modify, of_result. simpl.
    by destruct (_get_name self).
  - unfold EpochScoring.initialize, EpochScoring._initialize_cache,
      initialize, bind, on_self, on_world, get, setattr, modify, of_result,
      alloc.
    simpl. by destruct (_get_name self).
  - done.
  - by rewrite on_epoch_begin_eq.
  - unfold BatchScoring.on_batch_end, bind at 1, on_self, get. simpl.
    destruct (negb (eqb training (on_train self))); [done|].
    unfold bind at 1, on_world at 1, alloc. simpl.
    destruct (use_caching self) eqn:Hc.
    + apply cache_net_infer_exit.
    + unfold cache_net_infer. simpl. by apply batch_try_block_unpatched.
  - destruct (epoch_on_batch_end_effect y y_pred training self w)
      as (r & w' & Heq & _).
    revert Heq.
    unfold EpochScoring.on_batch_end, bind, on_self, get, attr, on_world,
      append, modify, ret.
    simpl.
    destruct (negb (use_caching self) || negb (eqb training (on_train self)));
      [done|].
    destruct (y_is_placeholder_ self) as [[|]|]; simpl; [| |done].
    + by destruct (y_preds_ self).
    + destruct (y_trues_ self); [|done]. by destruct (y_preds_ self).
  - destruct (batch_on_epoch_end_outcome self w)
      as (r & self' & w' & -> & _ & ->). done.
  - unfold EpochScoring.on_epoch_end, bind at 1.
    destruct (scoring_inputs_frame dt dv self w) as (ri & w1 & -> & _ & Hg & _).
    rewrite Hplain in Hg.
    destruct ri as [[[[X_test|] y_pred] y_test]|e]; [|done..].
    unfold bind at 1, on_self, get. simpl.
    destruct (use_caching self).
    + apply cache_net_infer_exit.
    + unfold cache_net_infer. simpl. by apply epoch_with_body_unpatched.
  - done.
  - unfold EpochScoring.on_train_end. by rewrite _initialize_cache_eq.
  - done.
  - done.
  - unfold on_world, loop_new_batch, bind.
    pose proof (update_history_net_dict history.new_batch w) as H1.
    destruct (update_history history.new_batch w) as [[[]|e] w1];
      simpl in *; [|congruence].
    pose proof (update_history_net_dict
                  (history.record_batch (bs_key training)
                     (VNum (Q2Qc (inject_Z size)))) w1) as H2.
    destruct (update_history _ w1) as [r w2]. simpl in *. congruence.
  - unfold on_world, loop_new_batch, bind.
    pose proof (update_history_net_dict history.new_batch w) as H1.
    destruct (update_history history.new_batch w) as [[[]|e] w1];
      simpl in *; [|congruence].
    pose proof (update_history_net_dict
                  (history.record_batch (bs_key training)
                     (VNum (Q2Qc (inject_Z size)))) w1) as H2.
    destruct (update_history _ w1) as [r w2]. simpl in *. congruence.
Qed.

(** X7. Whatever the callbacks are sent, and whether their scorers return or
    raise, the net comes out unpatched: if its [infer] was its own method
    before a run of events, it is its own method after it, also when the
    run was cut short by an exception. *)
Theorem callbacks_leave_net_unpatched
    (net : NeuralNet) (k : strategy) (evs : list event)
    (self : ScoringBase) (w : world) :
  net_dict_infer w = None →
  lookup_infer (exec (run net k evs) (self, w)).2 = BoundMethod.
Proof.
  intros Hplain. unfold lookup_infer.
  assert (net_dict_infer (exec (run net k evs) (self, w)).2 = None) as ->;
    [|done].
  revert self w Hplain. induction evs as [|ev evs IH]; intros self w Hplain.
  - done.
  - rewrite exec_run_cons.
    pose proof (fire_unpatched net k ev self w Hplain) as Hev.
    destruct (fire net k ev (self, w)).1; [|done].
    destruct (exec (fire net k ev) (self, w)) as [self1 w1]. by apply IH.
Qed.

Lemma callbacks_leave_net_unpatched_witness :
  lookup_infer
    (exec (run Demo.net PerBatch Demo.batch_events)
          (Demo.acc_batch, Demo.world0)).2 = BoundMethod.
Proof.
  apply (callbacks_leave_net_unpatched Demo.net PerBatch Demo.batch_events
           Demo.acc_batch Demo.world0).
  reflexivity.
Defined.

(** ** The running best only gets better *)

Lemma ext_lt_trans a b c : ext_lt a b → ext_lt b c → ext_lt a c.
Proof.
  destruct 1; inversion 1; subst; try constructor.
  by eapply Qclt_trans.
Qed.

Lemma better_trans l a b c : better l a b → better l b c → better l a c.
Proof.
  destruct l; simpl; intros H1 H2; by eapply ext_lt_trans.
Qed.

Lemma fire_best_score net k ev self w :
  ev ≠ Initialize →
  best_score_ (exec (fire net k ev) (self, w)).1 = best_score_ self
  ∨ ∃ c, _is_best_score self c = Ok (Some true)
         ∧ best_score_ (exec (fire net k ev) (self, w)).1 = Some (Fin c).
Proof.
  intros Hev. unfold exec.
  destruct ev as [|dt dv|X y y_pred training|dt dv| | |training size], k;
    cbn [fire].
  - done.
  - done.
  - by left.
  - rewrite on_epoch_begin_eq. by left.
  - destruct (batch_on_batch_end_effect net X y training y_pred self w)
      as (r & w' & -> & _). by left.
  - destruct (epoch_on_batch_end_effect y y_pred training self w)
      as (r & w' & -> & _). by left.
  - destruct (batch_on_epoch_end_outcome self w)
      as (r & self' & w' & -> & Hout & _).
    by eapply epoch_end_outcome_best.
  - destruct (epoch_on_epoch_end_outcome net dt dv self w)
      as (r & self' & w' & -> & Hout & _).
    by eapply epoch_end_outcome_best.
  - by left.
  - unfold EpochScoring.on_train_end. rewrite _initialize_cache_eq. by left.
  - by left.
  - by left.
  - left. unfold on_world. by destruct (loop_new_batch training size w).
  - left. unfold on_world. by destruct (loop_new_batch training size w).
Qed.

(** X8. Between two calls of [initialize] the running best only ever moves in
    the better direction: after any run of events it is the one the run
    started with or a strictly better one (lower when lower is better,
    higher otherwise), whatever scores were seen and whether or not the
    run was cut short by an exception. *)
Theorem running_best_only_improves
    (net : NeuralNet) (k : strategy) (evs : list event)
    (self : ScoringBase) (w : world) (l : bool) (best : ext) :
  lower_is_better self = Some l →
  best_score_ self = Some best →
  Forall (λ ev, ev ≠ Initialize) evs →
  ∃ best',
    best_score_ (exec (run net k evs) (self, w)).1 = Some best'
    ∧ (best' = best ∨ better l best' best).
Proof.
  intros Hlower Hbest Hevs. revert self w best Hlower Hbest.
  induction Hevs as [|ev evs Hev Hevs IH]; intros self w best Hlower Hbest.
  - exists best. by split; [|left].
  - rewrite exec_run_cons.
    destruct (fire_frame net k ev self w) as [(_ & Hl & _) _ _ _ _ _ _].
    assert (∃ b1, best_score_ (exec (fire net k ev) (self, w)).1 = Some b1
                  ∧ (b1 = best ∨ better l b1 best)) as (b1 & Hb1 & Hrel).
    { destruct (fire_best_score net k ev self w Hev) as [->|(c & Hc & ->)].
      - exists best. by split; [|left].
      - exists (Fin c). split; [done|]. right.
        unfold _is_best_score in Hc. rewrite Hlower, Hbest in Hc.
        destruct l; simpl; injection Hc as Hc.
        + by apply score_lt_spec.
        + by apply score_gt_spec. }
    destruct (fire net k ev (self, w)).1; [|by exists b1].
    destruct (exec (fire net k ev) (self, w)) as [self1 w1]. simpl in *.
    destruct (IH self1 w1 b1) as (b2 & Hb2 & Hrel2); [congruence|done|].
    exists b2. split; [done|].
    destruct Hrel2 as [->|Hrel2]; [done|]. right.
    destruct Hrel as [->|Hrel]; [done|]. by eapply better_trans.
Qed.

Lemma running_best_only_improves_witness :
  ∃ best',
    best_score_
      (exec (run Demo.net PerEpoch (tail Demo.epoch_events))
            (exec (fire Demo.net PerEpoch Initialize)
                  (Demo.acc_epoch, Demo.world0))).1 = Some best'
    ∧ (best' = PosInf ∨ better true best' PosInf).
Proof.
  apply (running_best_only_improves Demo.net PerEpoch (tail Demo.epoch_events)
           (exec (fire Demo.net PerEpoch Initialize)
                 (Demo.acc_epoch, Demo.world0)).1
           (exec (fire Demo.net PerEpoch Initialize)
                 (Demo.acc_epoch, Demo.world0)).2 true PosInf).
  - reflexivity.
  - reflexivity.
  - repeat constructor; discriminate.
Defined.

(** ** Scoring a batch *)

Lemma record_batch_snoc n v hs ep bs b :
  ep_batches ep = bs ++ [b] →
  history.record_batch n v (hs ++ [ep])
    = Ok (hs ++ [Epoch (ep_entries ep) (bs ++ [<[n := v]> b])]).
Proof.
  intros Hb. unfold history.record_batch.
  rewrite last_snoc, Hb, last_snoc, alter_last_snoc, Hb.
  by rewrite alter_last_snoc.
Qed.

(** [BatchScoring.on_batch_end] when the scorer returns: the score goes
    into the current batch under [name_]. *)
Lemma batch_on_batch_end_returns net self w X y y_pred n hs ep bs b c :
  net_dict_infer w = None →
  name_ self = Some n →
  net_history w = hs ++ [ep] →
  ep_batches ep = bs ++ [b] →
  (_scoring net self (XTensor X) (Some (target_extractor self y))
     (batch_scoring_world self w y_pred)).1 = Ok c →
  BatchScoring.on_batch_end net X y (on_train self) y_pred (self, w) =
    (Ok (),
     (self,
      World (<[fresh (dom (heap w)) := [y_pred]]> (heap w)) None
        (hs ++ [Epoch (ep_entries ep) (bs ++ [<[n := VNum c]> b])]))).
Proof.
  intros Hplain Hn Hh Hb Hsc.
  pose proof (_scoring_history net self (XTensor X)
                (Some (target_extractor self y))
                (batch_scoring_world self w y_pred)) as Hsh.
  pose proof (_scoring_heap net self (XTensor X)
                (Some (target_extractor self y))
                (batch_scoring_world self w y_pred)) as Hsp.
  unfold BatchScoring.on_batch_end, cache_net_infer, batch_scoring_world in *.
  unfold bind, on_self, get, on_world, alloc, try_finally, try_except, modify,
    attr, update_history.
  simpl. rewrite eqb_reflx. simpl.
  destruct (use_caching self) eqn:Hc; simpl.
  - destruct (_scoring_guarded net self (XTensor X)
                (Some (target_extractor self y))
                (set_net_dict_infer (Some (fresh (dom (heap w)), 0))
                   (set_heap (<[fresh (dom (heap w)):=[y_pred]]> (heap w)) w))
                _ 0 eq_refl) as [j Hj].
    destruct (_scoring net self (XTensor X) (Some (target_extractor self y)) _)
      as [r w2].
    simpl in *. subst r w2. simpl. rewrite Hn. simpl.
    rewrite Hh, (record_batch_snoc n (VNum c) hs ep bs b Hb). simpl. done.
  - pose proof (_scoring_plain net self (XTensor X)
                  (Some (target_extractor self y))
                  (set_heap (<[fresh (dom (heap w)):=[y_pred]]> (heap w)) w)
                  Hplain) as Hw2.
    destruct (_scoring net self (XTensor X) (Some (target_extractor self y)) _)
      as [r w2].
    simpl in *. subst r w2. simpl. rewrite Hn. simpl.
    rewrite Hh, (record_batch_snoc n (VNum c) hs ep bs b Hb). simpl.
    unfold set_net_history, set_heap. simpl. by rewrite Hplain.
Qed.

(** [BatchScoring.on_batch_end] when the scoring call raises. *)
Lemma batch_on_batch_end_raises net self w X y y_pred e :
  net_dict_infer w = None →
  (_scoring net self (XTensor X) (Some (target_extractor self y))
     (batch_scoring_world self w y_pred)).1 = Raise e →
  BatchScoring.on_batch_end net X y (on_train self) y_pred (self, w) =
    (if decide (e = KeyError) then Ok () else Raise e,
     (self,
      World (<[fresh (dom (heap w)) := [y_pred]]> (heap w)) None
        (net_history w))).
Proof.
  intros Hplain Hsc.
  unfold BatchScoring.on_batch_end, cache_net_infer, batch_scoring_world in *.
  unfold bind, on_self, get, on_world, alloc, try_finally, try_except, modify.
  simpl. rewrite eqb_reflx. simpl.
  destruct (use_caching self) eqn:Hc; simpl.
  - destruct (_scoring_guarded net self (XTensor X)
                (Some (target_extractor self y))
                (set_net_dict_infer (Some (fresh (dom (heap w)), 0))
                   (set_heap (<[fresh (dom (heap w)):=[y_pred]]> (heap w)) w))
                _ 0 eq_refl) as [j Hj].
    destruct (_scoring net self (XTensor X) (Some (target_extractor self y)) _)
      as [r w2].
    simpl in *. subst r w2.
    destruct (decide (e = KeyError)); simpl; done.
  - pose proof (_scoring_plain net self (XTensor X)
                  (Some (target_extractor self y))
                  (set_heap (<[fresh (dom (heap w)):=[y_pred]]> (heap w)) w)
                  Hplain) as Hw2.
    destruct (_scoring net self (XTensor X) (Some (target_extractor self y)) _)
      as [r w2].
    simpl in *. subst r w2.
    unfold set_heap. simpl. rewrite Hplain.
    destruct (decide (e = KeyError)); simpl; done.
Qed.

(** X9. When the scorer returns a score for a batch of the callback's phase,
    [BatchScoring.on_batch_end] writes it under [name_] into the batch that
    is open (the last batch of the last epoch) and into nothing else: the
    other batches, the epoch-level entries, the earlier epochs and the
    callback itself are as before, and the net is unpatched again. *)
Theorem batch_score_is_recorded
    (net : NeuralNet) (self : ScoringBase) (w : world) (X y y_pred : tensor)
    (n : string) (hs : History) (ep : epoch)
    (bs : list (gmap string value)) (b : gmap string value) (c : Qc) :
  net_dict_infer w = None →
  name_ self = Some n →
  net_history w = hs ++ [ep] →
  ep_batches ep = bs ++ [b] →
  (_scoring net self (XTensor X) (Some (target_extractor self y))
     (batch_scoring_world self w y_pred)).1 = Ok c →
  BatchScoring.on_batch_end net X y (on_train self) y_pred (self, w) =
    (Ok (),
     (self,
      World (<[fresh (dom (heap w)) := [y_pred]]> (heap w)) None
        (hs ++ [Epoch (ep_entries ep) (bs ++ [<[n := VNum c]> b])]))).
Proof. apply batch_on_batch_end_returns. Qed.

Lemma batch_score_is_recorded_witness :
  BatchScoring.on_batch_end Demo.net [1%Z] [2%Z] false [3%Z]
    ((exec initialize (Demo.acc_batch, Demo.one_batch_world)).1,
     Demo.one_batch_world)
  = (Ok (),
     ((exec initialize (Demo.acc_batch, Demo.one_batch_world)).1,
      World (<[fresh (dom (heap Demo.one_batch_world)) := [[3%Z]]]>
               (heap Demo.one_batch_world)) None
        ([] ++ [Epoch ∅ ([] ++ [<["acc" := VNum (Demo.q 1 10)]> ∅])]))).
Proof.
  apply (batch_score_is_recorded Demo.net
           (exec initialize (Demo.acc_batch, Demo.one_batch_world)).1
           Demo.one_batch_world [1%Z] [2%Z] [3%Z] "acc" [] (Epoch ∅ [∅])
           [] ∅ (Demo.q 1 10)); reflexivity.
Defined.

(** X10. What a scorer gets when it asks the net for a prediction during
    [BatchScoring.on_batch_end]: with caching the prediction the training
    step already made for this batch, whatever it asks about; without
    caching a fresh inference on what it asks about. The score computed
    from it is what is recorded. *)
Theorem batch_scorer_gets_cached_prediction
    (net : NeuralNet) (self : ScoringBase) (w : world) (X y y_pred x : tensor)
    (nm : option string) (f : scorer) (g : tensor → Qc)
    (n : string) (hs : History) (ep : epoch)
    (bs : list (gmap string value)) (b : gmap string value) :
  net_dict_infer w = None →
  name_ self = Some n →
  net_history w = hs ++ [ep] →
  ep_batches ep = bs ++ [b] →
  scoring self = ScoringCallable nm f →
  f (XTensor X) (Some (target_extractor self y))
    = CallInfer x (λ p, Return (g p)) →
  BatchScoring.on_batch_end net X y (on_train self) y_pred (self, w) =
    (Ok (),
     (self,
      World (<[fresh (dom (heap w)) := [y_pred]]> (heap w)) None
        (hs ++ [Epoch (ep_entries ep)
                  (bs ++ [<[n := VNum (g (if use_caching self then y_pred
                                          else nn_infer net x))]> b])]))).
Proof.
  intros Hplain Hn Hh Hb Hsc Hf.
  apply batch_on_batch_end_returns; try done.
  unfold _scoring, bind, of_result, check_scoring, batch_scoring_world.
  rewrite Hsc. simpl. rewrite Hf. simpl.
  unfold bind, call_infer, lookup_infer, next.
  destruct (use_caching self); simpl.
  - rewrite lookup_insert_eq. simpl. done.
  - rewrite Hplain. done.
Qed.

Lemma batch_scorer_gets_cached_prediction_witness :
  BatchScoring.on_batch_end Demo.net [1%Z] [2%Z] false [3%Z]
    (Demo.echo, Demo.one_batch_world)
  = (Ok (),
     (Demo.echo,
      World (<[fresh (dom (heap Demo.one_batch_world)) := [[3%Z]]]>
               (heap Demo.one_batch_world)) None
        ([] ++ [Epoch ∅
                  ([] ++ [<["echo" :=
                            VNum (Demo.first_entry
                                    (if use_caching Demo.echo then [3%Z]
                                     else nn_infer Demo.net [1%Z]))]> ∅])]))).
Proof.
  apply (batch_scorer_gets_cached_prediction Demo.net Demo.echo
           Demo.one_batch_world [1%Z] [2%Z] [3%Z] [1%Z] (Some "echo")
           Demo.echo_scorer Demo.first_entry "echo" [] (Epoch ∅ [∅]) [] ∅);
    reflexivity.
Defined.

(** X11. The cached list of a batch holds one prediction: a scorer that asks
    the net twice under caching gets [StopIteration] at the second call,
    which [on_batch_end] does not catch; nothing is recorded and the net is
    unpatched again. *)
Theorem batch_scorer_second_infer_fails
    (net : NeuralNet) (self : ScoringBase) (w : world)
    (X y y_pred x1 x2 : tensor) (nm : option string) (f : scorer)
    (k : tensor → tensor → prog Qc) :
  net_dict_infer w = None →
  use_caching self = true →
  scoring self = ScoringCallable nm f →
  f (XTensor X) (Some (target_extractor self y))
    = CallInfer x1 (λ p1, CallInfer x2 (k p1)) →
  BatchScoring.on_batch_end net X y (on_train self) y_pred (self, w) =
    (Raise StopIteration,
     (self,
      World (<[fresh (dom (heap w)) := [y_pred]]> (heap w)) None
        (net_history w))).
Proof.
  intros Hplain Hc Hsc Hf.
  rewrite (batch_on_batch_end_raises net self w X y y_pred StopIteration);
    [done|done|].
  unfold _scoring, bind, of_result, check_scoring, batch_scoring_world.
  rewrite Hsc, Hc. simpl. rewrite Hf. simpl.
  unfold bind, call_infer, lookup_infer, next. simpl.
  rewrite lookup_insert_eq. simpl. rewrite lookup_insert_eq. done.
Qed.

Lemma batch_scorer_second_infer_fails_witness :
  BatchScoring.on_batch_end Demo.net [1%Z] [2%Z] false [3%Z]
    (Demo.greedy, Demo.one_batch_world)
  = (Raise StopIteration,
     (Demo.greedy,
      World (<[fresh (dom (heap Demo.one_batch_world)) := [[3%Z]]]>
               (heap Demo.one_batch_world)) None
        (net_history Demo.one_batch_world))).
Proof.
  apply (batch_scorer_second_infer_fails Demo.net Demo.greedy
           Demo.one_batch_world [1%Z] [2%Z] [3%Z] [1%Z] [1%Z]
           (Some "greedy") Demo.greedy_scorer
           (λ p1 p2, Return (Demo.first_entry p2)));
    reflexivity.
Defined.

(** ** Averaging: errors *)

Lemma np_sum_weights (recs : list (Qc * Qc)) :
  np_sum (to_num <$> ((λ r : Qc * Qc, (VNum r.1, VNum r.2)) <$> recs).*1)
    = total_size recs.
Proof.
  induction recs as [|r recs IH]; [done|].
  exact (f_equal (Qcplus r.1) IH).
Qed.

(** [get_avg_score] on an epoch whose scored batches hold [recs]. *)
Lemma get_avg_score_eq self n hs ep recs :
  name_ self = Some n →
  recs ≠ [] →
  Forall2 (batch_holds (on_train self) n) (scored_batches n ep) recs →
  BatchScoring.get_avg_score self (hs ++ [ep]) =
    if decide (total_size recs = 0%Qc) then Raise ZeroDivisionError
    else Ok (weighted_mean recs).
Proof.
  intros Hn Hne Hall.
  destruct (queries_of_batches _ _ _ _ Hall) as [Hrows _].
  unfold BatchScoring.get_avg_score, history.batches_pairs.
  rewrite Hn, last_snoc. fold (bs_key (on_train self)). rewrite Hrows.
  destruct recs as [|r recs]; [done|].
  change (np_average
            (((λ r : Qc * Qc, (VNum r.1, VNum r.2)) <$> r :: recs).*2)
            (((λ r : Qc * Qc, (VNum r.1, VNum r.2)) <$> r :: recs).*1)
          = if decide (total_size (r :: recs) = 0%Qc)
            then Raise ZeroDivisionError
            else Ok (weighted_mean (r :: recs))).
  destruct (decide (total_size (r :: recs) = 0%Qc)) as [Hz|Hnz].
  - unfold np_average. rewrite np_sum_weights. by rewrite decide_True.
  - by apply np_average_weighted_mean.
Qed.

(** X12. When the sample counts of the scored batches sum to zero there is
    nothing to normalise by: [BatchScoring.on_epoch_end] raises
    [ZeroDivisionError] and neither records anything nor touches the
    running best. *)
Theorem batch_on_epoch_end_zero_weights
    (self : ScoringBase) (w : world) (n : string) (hs : History)
    (ep : epoch) (recs : list (Qc * Qc)) :
  name_ self = Some n →
  net_history w = hs ++ [ep] →
  recs ≠ [] →
  Forall2 (batch_holds (on_train self) n) (scored_batches n ep) recs →
  total_size recs = 0%Qc →
  BatchScoring.on_epoch_end (self, w) = (Raise ZeroDivisionError, (self, w)).
Proof.
  intros Hn Hh Hne Hall Hzero.
  destruct (queries_of_batches _ _ _ _ Hall) as [_ Hcol].
  pose proof (get_avg_score_eq self n hs ep recs Hn Hne Hall) as Havg.
  rewrite decide_True in Havg by done.
  unfold BatchScoring.on_epoch_end, bind, attr, try_except, on_world, on_self,
    query_history, get, history.batches_column.
  rewrite Hn, Hh, last_snoc, Hcol. simpl.
  destruct recs as [|r recs]; [done|]. simpl.
  by rewrite Hh, Havg.
Qed.

Lemma batch_on_epoch_end_zero_weights_witness :
  BatchScoring.on_epoch_end (Demo.echo, Demo.empty_batch_world)
    = (Raise ZeroDivisionError, (Demo.echo, Demo.empty_batch_world)).
Proof.
  apply (batch_on_epoch_end_zero_weights Demo.echo Demo.empty_batch_world
           "echo" []
           (default (Epoch ∅ []) (last (net_history Demo.empty_batch_world)))
           [(Demo.q 0 1, Demo.q 1 2)]).
  - reflexivity.
  - reflexivity.
  - discriminate.
  - repeat constructor.
  - apply Qc_is_canon. reflexivity.
Defined.

(** X13. A score recorded under the callback's name in batches that carry no
    sample count for the callback's phase cannot be averaged: the second
    history query of [BatchScoring.on_epoch_end] raises [KeyError] outside
    the [try], so the error reaches the caller and nothing is recorded. *)
Theorem batch_on_epoch_end_sizes_missing
    (self : ScoringBase) (w : world) (n : string) (ep : epoch)
    (b : gmap string value) :
  name_ self = Some n →
  last (net_history w) = Some ep →
  b ∈ ep_batches ep →
  is_Some (b !! n) →
  (∀ b', b' ∈ ep_batches ep → b' !! bs_key (on_train self) = None) →
  BatchScoring.on_epoch_end (self, w) = (Raise KeyError, (self, w)).
Proof.
  intros Hn Hlast Hb [v Hv] Hsizes.
  assert (omap (λ b : gmap string value, b !! n) (ep_batches ep) ≠ []) as Hcol.
  { intros Hnil.
    assert (v ∈ omap (λ b : gmap string value, b !! n) (ep_batches ep)) as Hin.
    { apply list_elem_of_omap. by exists b. }
    rewrite Hnil in Hin. by apply elem_of_nil in Hin. }
  assert (omap (history.row (bs_key (on_train self)) n) (ep_batches ep) = [])
    as Hrows.
  { apply omap_all_None. intros b' Hb'. unfold history.row.
    by rewrite (Hsizes b' Hb'). }
  unfold BatchScoring.on_epoch_end, bind, attr, try_except, on_world, on_self,
    query_history, get, history.batches_column, BatchScoring.get_avg_score,
    history.batches_pairs.
  rewrite Hn, Hlast. simpl.
  destruct (omap (λ b : gmap string value, b !! n) (ep_batches ep));
    [done|].
  simpl. rewrite Hn, Hlast. fold (bs_key (on_train self)).
  by rewrite Hrows.
Qed.

Lemma batch_on_epoch_end_sizes_missing_witness :
  BatchScoring.on_epoch_end (Demo.echo, Demo.unsized_batch_world)
    = (Raise KeyError, (Demo.echo, Demo.unsized_batch_world)).
Proof.
  apply (batch_on_epoch_end_sizes_missing Demo.echo Demo.unsized_batch_world
           "echo"
           (default (Epoch ∅ []) (last (net_history Demo.unsized_batch_world)))
           {[ "echo" := VNum (Demo.q 1 2) ]}).
  - reflexivity.
  - reflexivity.
  - apply list_elem_of_singleton. reflexivity.
  - by eexists.
  - intros b' Hb'. apply list_elem_of_singleton in Hb'. by subst b'.
Defined.

(** ** The epoch cache: reset and accumulation *)

(** X15. Every reset of the cache binds the two attributes to two new, empty
    and distinct lists; the lists that existed before, the old cache lists
    included, keep their contents for whoever still holds them. This holds
    for [on_epoch_begin] and for [on_train_end], whatever was accumulated
    and however often they are called in a row. *)
Theorem cache_reset_is_fresh
    (net : NeuralNet) (dt dv : option dataset) (self : ScoringBase) (w : world) :
  ((fire net PerEpoch (EpochBegin dt dv) (self, w)).1 = Ok ()
   ∧ cache_of (exec (fire net PerEpoch (EpochBegin dt dv)) (self, w)).1
              (exec (fire net PerEpoch (EpochBegin dt dv)) (self, w)).2
     = (Some [], Some [])
   ∧ y_trues_ (exec (fire net PerEpoch (EpochBegin dt dv)) (self, w)).1
     ≠ y_preds_ (exec (fire net PerEpoch (EpochBegin dt dv)) (self, w)).1
   ∧ ∀ l, is_Some (heap w !! l) →
          heap (exec (fire net PerEpoch (EpochBegin dt dv)) (self, w)).2 !! l
          = heap w !! l)
  ∧ ((fire net PerEpoch TrainEnd (self, w)).1 = Ok ()
     ∧ cache_of (exec (fire net PerEpoch TrainEnd) (self, w)).1
                (exec (fire net PerEpoch TrainEnd) (self, w)).2
       = (Some [], Some [])
     ∧ y_trues_ (exec (fire net PerEpoch TrainEnd) (self, w)).1
       ≠ y_preds_ (exec (fire net PerEpoch TrainEnd) (self, w)).1
     ∧ ∀ l, is_Some (heap w !! l) →
            heap (exec (fire net PerEpoch TrainEnd) (self, w)).2 !! l
            = heap w !! l).
Proof.
  assert (fresh (dom (heap w))
          ≠ fresh (dom (<[fresh (dom (heap w)) := []]> (heap w)))) as Hne.
  { intros Heq.
    pose proof (is_fresh (dom (<[fresh (dom (heap w)) := []]> (heap w)))) as Hf.
    rewrite <-Heq in Hf. apply Hf.
    apply elem_of_dom. rewrite lookup_insert_eq. by eexists. }
  unfold exec. cbn [fire]. unfold EpochScoring.on_train_end.
  rewrite on_epoch_begin_eq, _initialize_cache_eq. unfold cache_of. simpl.
  rewrite lookup_insert_eq, lookup_insert_ne, lookup_insert_eq by done.
  assert (∀ l, is_Some (heap w !! l) →
               <[fresh (dom (<[fresh (dom (heap w)) := []]> (heap w))) := []]>
                 (<[fresh (dom (heap w)) := []]> (heap w)) !! l
               = heap w !! l) as Hheap.
  { intros l Hl.
    rewrite lookup_insert_fresh by by apply lookup_insert_is_Some_old.
    by rewrite lookup_insert_fresh. }
  split; (split; [done|]; split; [done|]; split; [congruence|exact Hheap]).
Qed.

(** The cache across the batches of an epoch, from any starting contents. *)
Lemma epoch_batches_accumulate net evs : ∀ self w lt lp ts ps ph,
  Forall is_batch_end evs →
  use_caching self = true →
  y_is_placeholder_ self = Some ph →
  y_trues_ self = Some lt →
  y_preds_ self = Some lp →
  lt ≠ lp →
  heap w !! lt = Some ts →
  heap w !! lp = Some ps →
  (run net PerEpoch evs (self, w)).1 = Ok ()
  ∧ (exec (run net PerEpoch evs) (self, w)).1 = self
  ∧ heap (exec (run net PerEpoch evs) (self, w)).2 !! lt
    = Some (ts ++ if ph then [] else seen_targets (on_train self) evs)
  ∧ heap (exec (run net PerEpoch evs) (self, w)).2 !! lp
    = Some (ps ++ seen_preds (on_train self) evs)
  ∧ net_history (exec (run net PerEpoch evs) (self, w)).2 = net_history w
  ∧ net_dict_infer (exec (run net PerEpoch evs) (self, w)).2 = net_dict_infer w.
Proof.
  induction evs as [|ev evs IH];
    intros self w lt lp ts ps ph Hevs Hc Hph Ht Hp Hne Hlt Hlp.
  - unfold exec. simpl. destruct ph; by rewrite !app_nil_r.
  - apply Forall_cons in Hevs as [Hev Hevs].
    destruct ev as [| |X y y_pred training| | | |]; try done.
    unfold exec in *. cbn [run fire]. unfold bind at 1 2 3 4 5 6.
    unfold EpochScoring.on_batch_end, bind, on_self, get, attr, on_world,
      append, modify, ret.
    simpl. rewrite Hc. simpl.
    destruct (eqb training (on_train self)) eqn:Hphase; simpl.
    + rewrite Hph. destruct ph; simpl.
      * rewrite Hp. simpl.
        destruct (IH self (set_heap (alter (λ xs, xs ++ [y_pred]) lp (heap w)) w)
                    lt lp ts (ps ++ [y_pred]) true)
          as (H1 & H2 & H3 & H4 & H5 & H6); try done.
        { simpl. by rewrite lookup_alter_ne. }
        { simpl. rewrite lookup_alter_eq, Hlp. done. }
        rewrite <-app_assoc in H4. done.
      * rewrite Ht. simpl. rewrite Hp. simpl.
        destruct (IH self
                    (set_heap (alter (λ xs, xs ++ [y_pred]) lp
                                 (alter (λ xs, xs ++ [y]) lt (heap w))) w)
                    lt lp (ts ++ [y]) (ps ++ [y_pred]) false)
          as (H1 & H2 & H3 & H4 & H5 & H6); try done.
        { simpl. rewrite lookup_alter_ne by done.
          by rewrite lookup_alter_eq, Hlt. }
        { simpl. rewrite lookup_alter_eq, lookup_alter_ne by done.
          by rewrite Hlp. }
        rewrite <-app_assoc in H3, H4. done.
    + by apply (IH self w lt lp ts ps ph).
Qed.

(** Three validation batches with a training batch in between. *)
Example mixed_batches_cache :
  cache_of
    (exec (run Demo.net PerEpoch
             (EpochBegin None (Some (CustomDataset 1)) :: Demo.mixed_batches))
          (Demo.acc_epoch, Demo.world0)).1
    (exec (run Demo.net PerEpoch
             (EpochBegin None (Some (CustomDataset 1)) :: Demo.mixed_batches))
          (Demo.acc_epoch, Demo.world0)).2
  = (Some [[10%Z]; [30%Z]; [40%Z]], Some [[11%Z]; [31%Z]; [41%Z]]).
Proof. vm_compute. reflexivity. Qed.

(** X17. [y_is_placeholder_] is set by [on_epoch_begin] only: a caching
    [EpochScoring] that was initialised but has not seen an epoch begin
    fails with [AttributeError] on the first batch of its phase, before
    caching anything. *)
Theorem batch_before_first_epoch_begin
    (net : NeuralNet) (sc : scoring_spec) (lib : option bool) (ot : bool)
    (nm : option string) (te : tensor → ndarray) (w : world)
    (X y y_pred : tensor) :
  (fire net PerEpoch Initialize (__init__ sc lib ot nm te true, w)).1 = Ok () →
  fire net PerEpoch (BatchEnd X y y_pred ot)
    (exec (fire net PerEpoch Initialize) (__init__ sc lib ot nm te true, w))
  = (Raise AttributeError,
     exec (fire net PerEpoch Initialize) (__init__ sc lib ot nm te true, w)).
Proof.
  unfold exec. cbn [fire].
  unfold EpochScoring.initialize, EpochScoring._initialize_cache,
    initialize, bind, on_self, on_world, get, setattr, modify, of_result,
    alloc.
  simpl. destruct (_get_name (__init__ sc lib ot nm te true)); simpl; [|done].
  intros _.
  unfold EpochScoring.on_batch_end, bind, on_self, get, attr. simpl.
  by rewrite eqb_reflx.
Qed.

Lemma batch_before_first_epoch_begin_witness :
  fire Demo.net PerEpoch (BatchEnd [1%Z] [2%Z] [3%Z] false)
    (exec (fire Demo.net PerEpoch Initialize)
       (__init__ (ScoringCallable (Some "acc") Demo.epoch_scorer)
                 (Some true) false None (λ y, y) true, Demo.world0))
  = (Raise AttributeError,
     exec (fire Demo.net PerEpoch Initialize)
       (__init__ (ScoringCallable (Some "acc") Demo.epoch_scorer)
                 (Some true) false None (λ y, y) true, Demo.world0)).
Proof.
  apply (batch_before_first_epoch_begin Demo.net
           (ScoringCallable (Some "acc") Demo.epoch_scorer)
           (Some true) false None (λ y, y) Demo.world0 [1%Z] [2%Z] [3%Z]).
  reflexivity.
Defined.

(** ** Scoring an epoch *)

(** X18. Without a dataset for the callback's phase (no validation split, say)
    [EpochScoring.on_epoch_end] returns without calling the scorer: the
    callback, the history and the net's [infer] are as before. *)
Theorem epoch_end_without_dataset
    (net : NeuralNet) (dt dv : option dataset) (self : ScoringBase) (w : world) :
  (if on_train self then dt else dv) = None →
  (use_caching self = true →
   is_Some (y_preds_ self) ∧ is_Some (y_trues_ self)) →
  ∃ w',
    EpochScoring.on_epoch_end net dt dv (self, w) = (Ok (), (self, w'))
    ∧ net_history w' = net_history w
    ∧ net_dict_infer w' = net_dict_infer w.
Proof.
  intros Hds Hattrs.
  unfold EpochScoring.on_epoch_end, EpochScoring.scoring_inputs, bind, on_self,
    get, attr, on_world, read_list, alloc, ret.
  simpl. rewrite Hds. destruct (use_caching self); simpl.
  - destruct Hattrs as [[lp ->] [lt ->]]; [done|]. by eexists.
  - by eexists.
Qed.

Lemma epoch_end_without_dataset_witness :
  ∃ w',
    EpochScoring.on_epoch_end Demo.net None None
      (Demo.uncached, Demo.one_batch_world) = (Ok (), (Demo.uncached, w'))
    ∧ net_history w' = net_history Demo.one_batch_world
    ∧ net_dict_infer w' = net_dict_infer Demo.one_batch_world.
Proof.
  apply (epoch_end_without_dataset Demo.net None None Demo.uncached
           Demo.one_batch_world).
  - reflexivity.
  - simpl. discriminate.
Defined.

(** Closes goals where the world after the exit of the caching context is
    compared with the world before it. *)
Ltac world_restored :=
  unfold set_net_dict_infer, set_net_history; simpl;
  repeat match goal with
         | H : World _ None _ = _ |- _ => rewrite H
         | H : net_dict_infer _ = None |- _ => rewrite H
         end.

Lemma scoring_inputs_caching dt dv self w lp lt ts ds :
  use_caching self = true →
  y_preds_ self = Some lp →
  y_trues_ self = Some lt →
  heap w !! lt = Some ts →
  (if on_train self then dt else dv) = Some ds →
  EpochScoring.scoring_inputs dt dv (self, w)
    = (Ok (Some (XDataset ds), lp, concat_targets self ts), (self, w)).
Proof.
  intros Hc Hp Ht Hlt Hds.
  unfold EpochScoring.scoring_inputs, bind, on_self, get, attr, on_world,
    read_list, ret, concat_targets.
  simpl. rewrite Hc, Hds. simpl. rewrite Hp. simpl. rewrite Ht. simpl.
  rewrite Hlt. simpl. by destruct (target_extractor self <$> ts).
Qed.

(** [EpochScoring.on_epoch_end] on the caching path, in terms of what the
    scoring call does under the override. *)
Lemma epoch_on_epoch_end_caching net dt dv self w lp lt ts ds :
  use_caching self = true →
  y_preds_ self = Some lp →
  y_trues_ self = Some lt →
  heap w !! lt = Some ts →
  (if on_train self then dt else dv) = Some ds →
  net_dict_infer w = None →
  EpochScoring.on_epoch_end net dt dv (self, w) =
    match (_scoring net self (XDataset ds) (concat_targets self ts)
             (set_net_dict_infer (Some (lp, 0)) w)).1 with
    | Raise e => (Raise e, (self, w))
    | Ok c =>
        match name_ self with
        | None => (Raise AttributeError, (self, w))
        | Some n =>
            match history.record n (VNum c) (net_history w) with
            | Raise e => (Raise e, (self, w))
            | Ok h1 =>
                match _is_best_score self c with
                | Raise e => (Raise e, (self, set_net_history h1 w))
                | Ok None => (Ok (), (self, set_net_history h1 w))
                | Ok (Some b) =>
                    match history.record (n +:+ "_best") (VBool b) h1 with
                    | Raise e => (Raise e, (self, set_net_history h1 w))
                    | Ok h2 =>
                        (Ok (),
                         (if b then set_best_score_ (Fin c) self else self,
                          set_net_history h2 w))
                    end
                end
            end
        end
    end.
Proof.
  intros Hc Hp Ht Hlt Hds Hplain.
  assert (World (heap w) None (net_history w) = w) as Hw0.
  { rewrite <-Hplain. apply world_eta. }
  unfold EpochScoring.on_epoch_end, bind at 1.
  rewrite (scoring_inputs_caching dt dv self w lp lt ts ds) by done.
  cbv beta iota. unfold cache_net_infer.
  unfold bind, on_self, get, attr, on_world, ret, try_finally,
    modify, of_result, update_history, setattr.
  simpl. rewrite Hc. simpl.
  set (y_test := concat_targets self ts).
  destruct (_scoring_guarded net self (XDataset ds) y_test
              (set_net_dict_infer (Some (lp, 0)) w) lp 0 eq_refl) as [j Hj].
  destruct (_scoring net self (XDataset ds) y_test _) as [[c|e] w2];
    simpl in *; subst w2; simpl; [|by world_restored].
  destruct (name_ self) as [n|]; simpl; [|by world_restored].
  destruct (history.record n (VNum c) (net_history w)) as [h1|e]; simpl;
    [|by world_restored].
  destruct (_is_best_score self c) as [[b|]|e]; simpl; [|by world_restored..].
  destruct (history.record (n +:+ "_best") (VBool b) h1) as [h2|e]; simpl;
    [|by world_restored].
  destruct b; simpl; by world_restored.
Qed.



Lemma collect_then_replays net A xs : ∀ acc (k : list tensor → prog A) w l i preds,
  net_dict_infer w = Some (l, i) →
  heap w !! l = Some preds →
  i + length xs = length preds →
  run_prog net (collect_then xs acc k) w
    = run_prog net (k (reverse acc ++ drop i preds))
        (set_net_dict_infer (Some (l, length preds)) w).
Proof.
  induction xs as [|x xs IH]; intros acc k w l i preds Hg Hl Hlen; simpl in *.
  - replace i with (length preds) in * by lia.
    by rewrite drop_all, app_nil_r, <-Hg, set_net_dict_infer_id.
  - unfold bind, call_infer, lookup_infer, next. rewrite Hg. simpl.
    rewrite Hl. simpl.
    destruct (lookup_lt_is_Some_2 preds i) as [y Hy]; [lia|].
    rewrite Hy.
    rewrite (IH (y :: acc) k _ l (S i) preds); [|done|done|lia].
    rewrite set_net_dict_infer_twice, reverse_cons, <-app_assoc. simpl.
    by rewrite (drop_S preds y i Hy).
Qed.

(** X20. The point of the epoch cache: a scorer that asks the net for one
    prediction per batch gets, in batch order and whatever it asks about,
    the predictions cached during the epoch; no inference is run. The
    score it computes from them is recorded under [name_], the flag under
    [name_] with "_best" appended, and the score becomes the running best
    when the flag is true. *)
Theorem epoch_scorer_replays_cached_predictions
    (net : NeuralNet) (dt dv : option dataset) (self : ScoringBase) (w : world)
    (lp lt : loc) (ts ps xs : list tensor) (ds : dataset)
    (nm : option string) (f : scorer) (g : list tensor → Qc)
    (n : string) (hs : History) (ep : epoch) (is_best : option bool) :
  use_caching self = true →
  y_preds_ self = Some lp →
  y_trues_ self = Some lt →
  heap w !! lt = Some ts →
  heap w !! lp = Some ps →
  (if on_train self then dt else dv) = Some ds →
  net_dict_infer w = None →
  name_ self = Some n →
  net_history w = hs ++ [ep] →
  scoring self = ScoringCallable nm f →
  f (XDataset ds) (concat_targets self ts)
    = collect_then xs [] (λ preds, Return (g preds)) →
  length xs = length ps →
  _is_best_score self (g ps) = Ok is_best →
  EpochScoring.on_epoch_end net dt dv (self, w) =
    (Ok (),
     (if default false is_best then set_best_score_ (Fin (g ps)) self else self,
      set_net_history
        (hs ++ [Epoch
                  (match is_best with
                   | Some b =>
                       <[n +:+ "_best" := VBool b]>
                         (<[n := VNum (g ps)]> (ep_entries ep))
                   | None => <[n := VNum (g ps)]> (ep_entries ep)
                   end)
                  (ep_batches ep)]) w)).
Proof.
  intros Hc Hp Ht Hlt Hlp Hds Hplain Hn Hh Hsc Hf Hlen Hbest.
  rewrite (epoch_on_epoch_end_caching net dt dv self w lp lt ts ds) by done.
  assert ((_scoring net self (XDataset ds) (concat_targets self ts)
             (set_net_dict_infer (Some (lp, 0)) w)).1 = Ok (g ps)) as ->.
  { unfold _scoring, check_scoring. rewrite Hsc.
    unfold bind, of_result, ret. cbv beta iota. rewrite Hf.
    rewrite (collect_then_replays net Qc xs [] _ _ lp 0 ps); try done. }
  rewrite Hn, Hh, record_snoc, Hbest.
  destruct is_best as [b|]; [|done].
  rewrite record_snoc. by destruct b.
Qed.

Lemma epoch_scorer_replays_cached_predictions_witness :
  EpochScoring.on_epoch_end Demo.net None (Some (CustomDataset 1))
    Demo.summing_epoch
  = (Ok (),
     (if default false (Some true)
      then set_best_score_
             (Fin (Demo.sum_first [[11%Z]; [31%Z]])) Demo.summing_epoch.1
      else Demo.summing_epoch.1,
      set_net_history
        ([] ++ [Epoch
                  (<["sum" +:+ "_best" := VBool true]>
                     (<["sum" := VNum (Demo.sum_first [[11%Z]; [31%Z]])]>
                        (ep_entries (Epoch ∅ []))))
                  (ep_batches (Epoch ∅ []))])
        Demo.summing_epoch.2)).
Proof.
  apply (epoch_scorer_replays_cached_predictions Demo.net None
           (Some (CustomDataset 1)) Demo.summing_epoch.1 Demo.summing_epoch.2
           2%positive 1%positive [[10%Z]; [30%Z]] [[11%Z]; [31%Z]]
           [[0%Z]; [0%Z]] (CustomDataset 1) (Some "sum") Demo.summing_scorer
           Demo.sum_first "sum" [] (Epoch ∅ []) (Some true));
    reflexivity.
Defined.

(** ** The flag and the running best agree *)

Lemma epoch_end_outcome_recorded self h self' h' :
  epoch_end_outcome self h (Ok ()) self' h' →
  h' ≠ h →
  ∃ n c hs ep is_best,
    name_ self = Some n
    ∧ h = hs ++ [ep]
    ∧ _is_best_score self c = Ok is_best
    ∧ h' = hs ++ [Epoch
                    (match is_best with
                     | Some b =>
                         <[n +:+ "_best" := VBool b]>
                           (<[n := VNum c]> (ep_entries ep))
                     | None => <[n := VNum c]> (ep_entries ep)
                     end)
                    (ep_batches ep)]
    ∧ self' = if default false is_best then set_best_score_ (Fin c) self
              else self.
Proof.
  intros Hout. remember (Ok ()) as r eqn:Hr.
  destruct Hout as [r|n c hs ep Hn Hh Hbest|n c b hs ep Hn Hh Hbest
                    |n c e hs ep Hn Hh Hbest]; intros Hne.
  - done.
  - by exists n, c, hs, ep, None.
  - exists n, c, hs, ep, (Some b). by destruct b.
  - done.
Qed.

(** X21. When an [on_epoch_end] of either callback records a score with
    comparison enabled, the history and the callback stay in step: only
    the entries of the current epoch change (earlier epochs and all
    batches are as before), the flag recorded under the name with "_best"
    appended is true exactly when the recorded score is strictly better
    than the running best was, and the running best afterwards is that
    score when the flag is true and the old one when it is false. *)
Theorem best_flag_tells_running_best
    (net : NeuralNet) (k : strategy) (dt dv : option dataset)
    (self self' : ScoringBase) (w w' : world)
    (n : string) (l : bool) (best : ext) :
  fire net k (EpochEnd dt dv) (self, w) = (Ok (), (self', w')) →
  name_ self = Some n →
  lower_is_better self = Some l →
  best_score_ self = Some best →
  net_history w' ≠ net_history w →
  ∃ hs ep ep' c b,
    net_history w = hs ++ [ep]
    ∧ net_history w' = hs ++ [ep']
    ∧ ep_batches ep' = ep_batches ep
    ∧ ep_entries ep' !! n = Some (VNum c)
    ∧ ep_entries ep' !! (n +:+ "_best") = Some (VBool b)
    ∧ (b = true ↔ better l (Fin c) best)
    ∧ best_score_ self' = Some (if b then Fin c else best).
Proof.
  intros Hrun Hn Hlower Hbest Hne.
  assert (epoch_end_outcome self (net_history w) (Ok ()) self'
            (net_history w')) as Hout.
  { destruct k; cbn [fire] in Hrun.
    - destruct (batch_on_epoch_end_outcome self w)
        as (r & s1 & w1 & Heq & Hout & _).
      rewrite Hrun in Heq. by injection Heq as <- <- <-.
    - destruct (epoch_on_epoch_end_outcome net dt dv self w)
        as (r & s1 & w1 & Heq & Hout & _).
      rewrite Hrun in Heq. by injection Heq as <- <- <-. }
  destruct (epoch_end_outcome_recorded _ _ _ _ Hout Hne)
    as (n' & c & hs & ep & ib & Hn' & Hh & Hib & Hh' & ->).
  assert (n' = n) as -> by congruence.
  unfold _is_best_score in Hib. rewrite Hlower, Hbest in Hib.
  exists hs, ep.
  destruct l; injection Hib as <-; simpl.
  - eexists _, c, (score_lt c best). split; [done|]. split; [done|].
    split; [done|]. simpl. split.
    { rewrite lookup_insert_ne by (symmetry; apply name_ne_best).
      by rewrite lookup_insert_eq. }
    split; [by rewrite lookup_insert_eq|]. split; [apply score_lt_spec|].
    by destruct (score_lt c best).
  - eexists _, c, (score_gt c best). split; [done|]. split; [done|].
    split; [done|]. simpl. split.
    { rewrite lookup_insert_ne by (symmetry; apply name_ne_best).
      by rewrite lookup_insert_eq. }
    split; [by rewrite lookup_insert_eq|]. split; [apply score_gt_spec|].
    by destruct (score_gt c best).
Qed.

Lemma best_flag_tells_running_best_witness :
  ∃ hs ep ep' c b,
    net_history Demo.summing_epoch.2 = hs ++ [ep]
    ∧ net_history
        (exec (fire Demo.net PerEpoch (EpochEnd None (Some (CustomDataset 1))))
              Demo.summing_epoch).2 = hs ++ [ep']
    ∧ ep_batches ep' = ep_batches ep
    ∧ ep_entries ep' !! "sum" = Some (VNum c)
    ∧ ep_entries ep' !! ("sum" +:+ "_best") = Some (VBool b)
    ∧ (b = true ↔ better true (Fin c) PosInf)
    ∧ best_score_
        (exec (fire Demo.net PerEpoch (EpochEnd None (Some (CustomDataset 1))))
              Demo.summing_epoch).1
      = Some (if b then Fin c else PosInf).
Proof.
  apply (best_flag_tells_running_best Demo.net PerEpoch None
           (Some (CustomDataset 1)) Demo.summing_epoch.1 _
           Demo.summing_epoch.2 _ "sum" true PosInf).
  - reflexivity.
  - reflexivity.
  - reflexivity.
  - reflexivity.
  - vm_compute. discriminate.
Defined.

(** ** A whole epoch of [BatchScoring] *)

Lemma run_app net k evs1 evs2 s :
  run net k (evs1 ++ evs2) s
  = match run net k evs1 s with
    | (Ok _, s') => run net k evs2 s'
    | (Raise e, s') => (Raise e, s')
    end.
Proof.
  revert s. induction evs1 as [|ev evs1 IH]; intros s; [done|].
  simpl. unfold bind. destruct (fire net k ev s) as [[[]|e] s']; [|done].
  apply IH.
Qed.

Lemma loop_new_batch_snoc training size w hs ents bs :
  net_history w = hs ++ [Epoch ents bs] →
  loop_new_batch training size w =
    (Ok (),
     set_net_history
       (hs ++ [Epoch ents
                 (bs ++ [<[bs_key training := VNum (Q2Qc (inject_Z size))]> ∅])])
       w).
Proof.
  intros Hh. unfold loop_new_batch, bind, update_history, history.new_batch.
  rewrite Hh, last_snoc, alter_last_snoc. simpl.
  by rewrite (record_batch_snoc _ _ hs (Epoch ents (bs ++ [∅])) bs ∅).
Qed.

(** The batches of one phase, scored one after the other by a scorer that
    is a function of the batch. *)
Lemma batch_epoch_runs net self nm f g n batches : ∀ w hs ents bs,
  net_dict_infer w = None →
  name_ self = Some n →
  scoring self = ScoringCallable nm f →
  (∀ X y, f X y = Return (g X y)) →
  net_history w = hs ++ [Epoch ents bs] →
  ∃ hp,
    run net PerBatch (batch_events_of (on_train self) batches) (self, w) =
      (Ok (),
       (self,
        World hp None
          (hs ++ [Epoch ents
                    (bs ++ ((λ b,
                               <[n := VNum (g (XTensor (b_X b))
                                              (Some (target_extractor self (b_y b))))]>
                                 (<[bs_key (on_train self)
                                    := VNum (Q2Qc (inject_Z (b_size b)))]> ∅))
                            <$> batches))]))).
Proof.
  induction batches as [|b batches IH]; intros w hs ents bs Hplain Hn Hsc Hf Hh.
  - exists (heap w). simpl. unfold ret. rewrite app_nil_r, <-Hh, <-Hplain.
    by rewrite world_eta.
  - cbn [batch_events_of mbind list_bind app run fire].
    unfold bind at 1, on_world.
    rewrite (loop_new_batch_snoc _ _ w hs ents bs Hh).
    unfold bind at 1.
    rewrite (batch_on_batch_end_returns net self _ (b_X b) (b_y b) (b_y_pred b)
               n hs
               (Epoch ents
                  (bs ++ [<[bs_key (on_train self)
                            := VNum (Q2Qc (inject_Z (b_size b)))]> ∅]))
               bs
               (<[bs_key (on_train self)
                  := VNum (Q2Qc (inject_Z (b_size b)))]> ∅)
               (g (XTensor (b_X b)) (Some (target_extractor self (b_y b)))));
      try done.
    + cbv beta iota.
      match goal with
      | |- context [run net PerBatch _ (self, ?w')] =>
          destruct (IH w' hs ents
                      (bs ++ [<[n := VNum (g (XTensor (b_X b))
                                             (Some (target_extractor self (b_y b))))]>
                                (<[bs_key (on_train self)
                                   := VNum (Q2Qc (inject_Z (b_size b)))]> ∅)]))
            as [hp Hrun]; try done
      end.
      exists hp. unfold batch_events_of in Hrun. rewrite Hrun.
      by rewrite <-app_assoc.
    + unfold _scoring, check_scoring. rewrite Hsc.
      unfold bind, of_result, ret. cbv beta iota. by rewrite Hf.
Qed.

(** ** Scoring an epoch without caching *)

Lemma collect_then_plain net A xs : ∀ acc (k : list tensor → prog A) w,
  net_dict_infer w = None →
  run_prog net (collect_then xs acc k) w
    = run_prog net (k (reverse acc ++ (nn_infer net <$> xs))) w.
Proof.
  induction xs as [|x xs IH]; intros acc k w Hplain; simpl.
  - by rewrite app_nil_r.
  - unfold bind, call_infer, lookup_infer. rewrite Hplain.
    rewrite IH by done. by rewrite reverse_cons, <-app_assoc.
Qed.

(** [EpochScoring.on_epoch_end] on the non-caching path, in terms of what
    the scoring call does. *)
Lemma epoch_on_epoch_end_uncached net dt dv self w ds X_test y_test :
  use_caching self = false →
  (if on_train self then dt else dv) = Some ds →
  uncached_inputs self ds = (Some X_test, y_test) →
  net_dict_infer w = None →
  EpochScoring.on_epoch_end net dt dv (self, w) =
    let w1 := set_heap (<[fresh (dom (heap w)) := []]> (heap w)) w in
    match (_scoring net self X_test y_test w1).1 with
    | Raise e => (Raise e, (self, w1))
    | Ok c =>
        match name_ self with
        | None => (Raise AttributeError, (self, w1))
        | Some n =>
            match history.record n (VNum c) (net_history w) with
            | Raise e => (Raise e, (self, w1))
            | Ok h1 =>
                match _is_best_score self c with
                | Raise e => (Raise e, (self, set_net_history h1 w1))
                | Ok None => (Ok (), (self, set_net_history h1 w1))
                | Ok (Some b) =>
                    match history.record (n +:+ "_best") (VBool b) h1 with
                    | Raise e => (Raise e, (self, set_net_history h1 w1))
                    | Ok h2 =>
                        (Ok (),
                         (if b then set_best_score_ (Fin c) self else self,
                          set_net_history h2 w1))
                    end
                end
            end
        end
    end.
Proof.
  intros Hc Hds Hin Hplain.
  assert (EpochScoring.scoring_inputs dt dv (self, w)
          = (Ok (Some X_test, fresh (dom (heap w)), y_test),
             (self, set_heap (<[fresh (dom (heap w)) := []]> (heap w)) w)))
    as Hinputs.
  { unfold EpochScoring.scoring_inputs, bind, on_self, get, on_world, alloc,
      ret.
    simpl. rewrite Hc, Hds. unfold uncached_inputs in Hin.
    destruct ds as [X y|id]; simpl in *; by injection Hin as -> ->. }
  unfold EpochScoring.on_epoch_end, bind at 1. rewrite Hinputs.
  cbv beta iota zeta. unfold cache_net_infer.
  unfold bind, on_self, get, attr, on_world, ret, of_result, update_history,
    setattr, modify.
  simpl. rewrite Hc. simpl.
  set (w1 := set_heap (<[fresh (dom (heap w)) := []]> (heap w)) w).
  pose proof (_scoring_plain net self X_test y_test w1 Hplain) as Hw2.
  destruct (_scoring net self X_test y_test w1) as [[c|e] w2];
    simpl in *; subst w2; [|done].
  destruct (name_ self) as [n|]; simpl; [|done].
  destruct (history.record n (VNum c) (net_history w)) as [h1|e]; simpl;
    [|done].
  destruct (_is_best_score self c) as [[b|]|e]; simpl; [|done..].
  destruct (history.record (n +:+ "_best") (VBool b) h1) as [h2|e]; simpl;
    [|done].
  by destruct b.
Qed.

(** X23. With caching disabled [EpochScoring.on_epoch_end] scores afresh: the
    scorer is handed the data taken from the dataset ([X] and the extracted
    [y] of a skorch dataset, the dataset itself and no target otherwise),
    every prediction it asks for is a real inference on what it asks
    about, and whatever the callback saw during the batches plays no part.
    The score is recorded as on the caching path. *)
Theorem epoch_scorer_runs_inference_without_caching
    (net : NeuralNet) (dt dv : option dataset) (self : ScoringBase) (w : world)
    (ds : dataset) (X_test : xtest) (y_test : option ndarray)
    (xs : list tensor) (nm : option string) (f : scorer)
    (g : list tensor → Qc)
    (n : string) (hs : History) (ep : epoch) (is_best : option bool) :
  use_caching self = false →
  (if on_train self then dt else dv) = Some ds →
  uncached_inputs self ds = (Some X_test, y_test) →
  net_dict_infer w = None →
  name_ self = Some n →
  net_history w = hs ++ [ep] →
  scoring self = ScoringCallable nm f →
  f X_test y_test = collect_then xs [] (λ preds, Return (g preds)) →
  _is_best_score self (g (nn_infer net <$> xs)) = Ok is_best →
  EpochScoring.on_epoch_end net dt dv (self, w) =
    (Ok (),
     (if default false is_best
      then set_best_score_ (Fin (g (nn_infer net <$> xs))) self else self,
      World (<[fresh (dom (heap w)) := []]> (heap w)) None
        (hs ++ [Epoch
                  (match is_best with
                   | Some b =>
                       <[n +:+ "_best" := VBool b]>
                         (<[n := VNum (g (nn_infer net <$> xs))]>
                            (ep_entries ep))
                   | None =>
                       <[n := VNum (g (nn_infer net <$> xs))]> (ep_entries ep)
                   end)
                  (ep_batches ep)]))).
Proof.
  intros Hc Hds Hin Hplain Hn Hh Hsc Hf Hbest.
  rewrite (epoch_on_epoch_end_uncached net dt dv self w ds X_test y_test)
    by done.
  cbv zeta.
  assert ((_scoring net self X_test y_test
             (set_heap (<[fresh (dom (heap w)) := []]> (heap w)) w)).1
          = Ok (g (nn_infer net <$> xs))) as ->.
  { unfold _scoring, check_scoring. rewrite Hsc.
    unfold bind, of_result, ret. cbv beta iota. rewrite Hf.
    by rewrite collect_then_plain. }
  rewrite Hn, Hh, record_snoc, Hbest.
  unfold set_net_history, set_heap. simpl. rewrite Hplain.
  destruct is_best as [b|]; [|done].
  rewrite record_snoc. by destruct b.
Qed.

Lemma epoch_scorer_runs_inference_without_caching_witness :
  EpochScoring.on_epoch_end Demo.net None
    (Some (SkorchDataset (Some [5%Z]) (Some [6%Z])))
    (Demo.summing_uncached, Demo.one_epoch_world)
  = (Ok (),
     (if default false (Some true)
      then set_best_score_
             (Fin (Demo.sum_first (nn_infer Demo.net <$> [[0%Z]; [0%Z]])))
             Demo.summing_uncached
      else Demo.summing_uncached,
      World (<[fresh (dom (heap Demo.one_epoch_world)) := []]>
               (heap Demo.one_epoch_world)) None
        ([] ++ [Epoch
                  (<["sum" +:+ "_best" := VBool true]>
                     (<["sum" :=
                        VNum (Demo.sum_first
                                (nn_infer Demo.net <$> [[0%Z]; [0%Z]]))]>
                        (ep_entries (Epoch ∅ []))))
                  (ep_batches (Epoch ∅ []))]))).
Proof.
  apply (epoch_scorer_runs_inference_without_caching Demo.net None
           (Some (SkorchDataset (Some [5%Z]) (Some [6%Z])))
           Demo.summing_uncached Demo.one_epoch_world
           (SkorchDataset (Some [5%Z]) (Some [6%Z])) (XTensor [5%Z])
           (Some [6%Z]) [[0%Z]; [0%Z]] (Some "sum") Demo.summing_scorer
           Demo.sum_first "sum" [] (Epoch ∅ []) (Some true));
    reflexivity.
Defined.

(** * The epoch end: what the scorer is handed, what is recorded *)

Lemma run_unpatched net k evs : ∀ self w,
  net_dict_infer w = None →
  net_dict_infer (exec (run net k evs) (self, w)).2 = None.
Proof.
  induction evs as [|ev evs IH]; intros self w Hplain; [done|].
  rewrite exec_run_cons.
  pose proof (fire_unpatched net k ev self w Hplain) as Hev.
  destruct (fire net k ev (self, w)).1; [|done].
  destruct (exec (fire net k ev) (self, w)) as [self1 w1]. by apply IH.
Qed.

(** [EpochScoring.on_epoch_end] is the scoring call followed by the
    recording, on either path. *)
Lemma epoch_on_epoch_end_caching_after net dt dv self w lp lt ts ds :
  use_caching self = true →
  y_preds_ self = Some lp →
  y_trues_ self = Some lt →
  heap w !! lt = Some ts →
  (if on_train self then dt else dv) = Some ds →
  net_dict_infer w = None →
  EpochScoring.on_epoch_end net dt dv (self, w) =
    after_scoring self w
      (_scoring net self (XDataset ds) (concat_targets self ts)
         (set_net_dict_infer (Some (lp, 0)) w)).1.
Proof.
  intros Hc Hp Ht Hlt Hds Hplain.
  by rewrite (epoch_on_epoch_end_caching net dt dv self w lp lt ts ds).
Qed.

Lemma epoch_on_epoch_end_uncached_after net dt dv self w ds X_test y_test :
  use_caching self = false →
  (if on_train self then dt else dv) = Some ds →
  uncached_inputs self ds = (Some X_test, y_test) →
  net_dict_infer w = None →
  EpochScoring.on_epoch_end net dt dv (self, w) =
    after_scoring self (set_heap (<[fresh (dom (heap w)) := []]> (heap w)) w)
      (_scoring net self X_test y_test
         (set_heap (<[fresh (dom (heap w)) := []]> (heap w)) w)).1.
Proof.
  intros Hc Hds Hin Hplain.
  by rewrite (epoch_on_epoch_end_uncached net dt dv self w ds X_test y_test).
Qed.

(** What [_is_best_score] returns once the running best is set. *)
Lemma _is_best_score_shape self c :
  lower_is_better self = None ∨ is_Some (best_score_ self) →
  ∃ is_best,
    _is_best_score self c = Ok is_best
    ∧ match lower_is_better self with
      | Some _ => is_Some is_best
      | None => is_best = None
      end.
Proof.
  intros Hinit. unfold _is_best_score.
  destruct (lower_is_better self) as [[|]|]; [| |by eexists];
    (destruct Hinit as [?|[best ->]]; [done|]; by eexists).
Qed.

(** The recording of a score [c], once the running best is set. *)
Lemma after_scoring_recorded self w n hs ep c :
  name_ self = Some n →
  net_history w = hs ++ [ep] →
  lower_is_better self = None ∨ is_Some (best_score_ self) →
  ∃ self' ep',
    after_scoring self w (Ok c)
      = (Ok (), (self', set_net_history (hs ++ [ep']) w))
    ∧ score_and_flag_under self n c ep ep'.
Proof.
  intros Hn Hh Hinit.
  destruct (_is_best_score_shape self c Hinit) as (ib & Hib & Hshape).
  unfold after_scoring, score_and_flag_under.
  rewrite Hn, Hh, record_snoc, Hib.
  destruct (lower_is_better self) as [l|].
  - destruct Hshape as [b ->]. rewrite record_snoc.
    eexists _, _. split; [done|]. simpl. split; [|split].
    + rewrite lookup_insert_ne by (symmetry; apply name_ne_best).
      by rewrite lookup_insert_eq.
    + exists b. split; [done|]. by rewrite lookup_insert_eq.
    + intros key Hk Hkb. by rewrite !lookup_insert_ne.
  - subst ib. eexists _, _. split; [done|]. simpl. split; [|split].
    + by rewrite lookup_insert_eq.
    + rewrite lookup_insert_ne; [done|apply name_ne_best].
    + intros key Hk Hkb. by rewrite lookup_insert_ne.
Qed.

(** [BatchScoring.on_epoch_end] once there are batch scores and the
    averaging has returned [c]. *)
Lemma batch_on_epoch_end_records self w n hs ep col c :
  name_ self = Some n →
  net_history w = hs ++ [ep] →
  history.batches_column n (net_history w) = Ok col →
  BatchScoring.get_avg_score self (net_history w) = Ok c →
  lower_is_better self = None ∨ is_Some (best_score_ self) →
  ∃ self' ep',
    BatchScoring.on_epoch_end (self, w)
      = (Ok (), (self', set_net_history (hs ++ [ep']) w))
    ∧ score_and_flag_under self n c ep ep'.
Proof.
  intros Hn Hh Hcol Havg Hinit.
  destruct (_is_best_score_shape self c Hinit) as (ib & Hib & Hshape).
  unfold BatchScoring.on_epoch_end, bind, attr, try_except, on_world, on_self,
    query_history, get, of_result, score_and_flag_under.
  rewrite Hn. simpl. rewrite Hcol. simpl. rewrite Havg. simpl.
  rewrite Hib. simpl.
  unfold setattr, on_self, modify, update_history, ret.
  destruct (lower_is_better self) as [l|].
  - destruct Hshape as [b ->].
    destruct b; simpl; rewrite Hh, record_snoc; simpl; rewrite record_snoc;
      (eexists _, _; split; [done|]; simpl; split; [|split]);
      try (rewrite lookup_insert_ne by (symmetry; apply name_ne_best);
           by rewrite lookup_insert_eq);
      try (intros key Hk Hkb; by rewrite !lookup_insert_ne);
      eexists; (split; [done|]); by rewrite lookup_insert_eq.
  - subst ib. simpl. rewrite Hh, record_snoc. simpl.
    eexists _, _. split; [done|]. simpl. split; [|split].
    + by rewrite lookup_insert_eq.
    + rewrite lookup_insert_ne; [done|apply name_ne_best].
    + intros key Hk Hkb. by rewrite lookup_insert_ne.
Qed.

(** ** Placeholder targets *)

(** C6. When the dataset of the callback's phase is a skorch dataset
    without targets, then from [on_epoch_begin] on, over any batches of
    that epoch, the list [y_trues_] stays empty, and [on_epoch_end] (of a
    net that was not patched when the epoch began) is the scoring call
    [_scoring(net, X_test, None)], with [None] as its target, followed by
    the recording of what that call returns: with caching on the dataset
    under the override that replays [y_preds_], without caching on the
    dataset's [X] (and no call at all when the dataset has no [X]). *)
Theorem placeholder_targets_are_None
    (net : NeuralNet) (self : ScoringBase) (w : world)
    (dt dv : option dataset) (X : option tensor) (evs : list event) :
  (if on_train self then dt else dv) = Some (SkorchDataset X None) →
  Forall within_epoch evs →
  let s := exec (run net PerEpoch (EpochBegin dt dv :: evs)) (self, w) in
  (cache_of s.1 s.2).1 = Some []
  ∧ ∃ lp,
      y_preds_ s.1 = Some lp
      ∧ (net_dict_infer w = None →
         EpochScoring.on_epoch_end net dt dv s =
           if use_caching self then
             after_scoring s.1 s.2
               (_scoring net s.1 (XDataset (SkorchDataset X None)) None
                  (set_net_dict_infer (Some (lp, 0)) s.2)).1
           else
             match X with
             | Some x =>
                 after_scoring s.1
                   (set_heap (<[fresh (dom (heap s.2)) := []]> (heap s.2)) s.2)
                   (_scoring net s.1 (XTensor x) None
                      (set_heap (<[fresh (dom (heap s.2)) := []]> (heap s.2))
                         s.2)).1
             | None =>
                 (Ok (),
                  (s.1,
                   set_heap (<[fresh (dom (heap s.2)) := []]> (heap s.2)) s.2))
             end).
Proof.
  intros Hds Hevs s. subst s.
  set (lt := fresh (dom (heap w))).
  set (lp := fresh (dom (<[lt := []]> (heap w)))).
  set (self1 := set_y_is_placeholder_ true
                  (set_y_preds_ lp (set_y_trues_ lt self))).
  set (w1 := set_heap (<[lp := []]> (<[lt := []]> (heap w))) w).
  assert (exec (run net PerEpoch (EpochBegin dt dv :: evs)) (self, w)
          = exec (run net PerEpoch evs) (self1, w1)) as ->.
  { unfold exec. simpl. unfold bind at 1.
    rewrite on_epoch_begin_eq, Hds. done. }
  assert (lt ≠ lp) as Hne.
  { intros Heq. pose proof (is_fresh (dom (<[lt := []]> (heap w)))) as Hf.
    fold lp in Hf. rewrite <-Heq in Hf. apply Hf.
    apply elem_of_dom. rewrite lookup_insert_eq. by eexists. }
  assert (heap w1 !! lt = Some []) as Hlt.
  { subst w1. simpl. rewrite lookup_insert_ne by done.
    by rewrite lookup_insert_eq. }
  destruct (placeholder_batches net evs self1 w1 lt lp Hevs)
    as [Hself Hheap]; try done.
  pose proof (run_unpatched net PerEpoch evs self1 w1) as Hplain2.
  destruct (exec (run net PerEpoch evs) (self1, w1)) as [self2 w2].
  simpl in *. subst self2. split.
  - unfold cache_of. simpl. done.
  - exists lp. split; [done|]. intros Hplain.
    specialize (Hplain2 Hplain).
    destruct (use_caching self) eqn:Hc.
    + by rewrite (epoch_on_epoch_end_caching_after net dt dv self1 w2 lp lt []
                    (SkorchDataset X None)).
    + destruct X as [x|].
      * by rewrite (epoch_on_epoch_end_uncached_after net dt dv self1 w2
                      (SkorchDataset (Some x) None) (XTensor x) None).
      * unfold EpochScoring.on_epoch_end, EpochScoring.scoring_inputs, bind,
          on_self, get, on_world, alloc, ret.
        simpl. by rewrite Hc, Hds.
Qed.

Lemma placeholder_targets_are_None_witness :
  let s := exec (run Demo.net PerEpoch
                   (EpochBegin None (Some (SkorchDataset (Some [1%Z]) None))
                    :: Demo.placeholder_events))
                (Demo.probe_ready.1, Demo.probe_ready.2) in
  (cache_of s.1 s.2).1 = Some []
  ∧ ∃ lp,
      y_preds_ s.1 = Some lp
      ∧ EpochScoring.on_epoch_end Demo.net None
          (Some (SkorchDataset (Some [1%Z]) None)) s =
          after_scoring s.1 s.2
            (_scoring Demo.net s.1
               (XDataset (SkorchDataset (Some [1%Z]) None)) None
               (set_net_dict_infer (Some (lp, 0)) s.2)).1.
Proof.
  destruct (placeholder_targets_are_None Demo.net Demo.probe_ready.1
              Demo.probe_ready.2 None
              (Some (SkorchDataset (Some [1%Z]) None)) (Some [1%Z])
              Demo.placeholder_events)
    as (Hcache & lp & Hp & Hend).
  - reflexivity.
  - repeat constructor.
  - split; [exact Hcache|]. exists lp. split; [exact Hp|].
    apply Hend. reflexivity.
Defined.

(** The probe at the end of its placeholder epoch: [on_epoch_end] records
    1, the score of a call without target, and the flag. *)
Example placeholder_epoch_end_records_probe :
  (EpochScoring.on_epoch_end Demo.net None
     (Some (SkorchDataset (Some [1%Z]) None)) Demo.probe_before_end).1 = Ok ()
  ∧ epoch_column "probe"
      (net_history
         (exec (EpochScoring.on_epoch_end Demo.net None
                  (Some (SkorchDataset (Some [1%Z]) None)))
               Demo.probe_before_end).2)
    = [Some (VNum (Demo.q 1 1))]
  ∧ epoch_column "probe_best"
      (net_history
         (exec (EpochScoring.on_epoch_end Demo.net None
                  (Some (SkorchDataset (Some [1%Z]) None)))
               Demo.probe_before_end).2)
    = [Some (VBool true)].
Proof. repeat split; vm_compute; reflexivity. Qed.

(** ** The cache at the end of the epoch *)

(** X16. Over the batches of one epoch the cache of a caching [EpochScoring]
    collects, in batch order, the prediction of every batch of its own
    phase and, unless the targets are a placeholder, its raw target; the
    batches of the other phase leave no trace. [on_epoch_end] (of a net
    that was not patched when the epoch began) then is the scoring call on
    the dataset itself, with the concatenation of the extracted targets
    ([None] when there are none) and under the override that replays the
    cached predictions, followed by the recording of what the call
    returns; without a dataset it does nothing. *)
Theorem epoch_cache_accumulates
    (net : NeuralNet) (self : ScoringBase) (w : world)
    (dt dv : option dataset) (evs : list event) :
  use_caching self = true →
  Forall is_batch_end evs →
  let s := exec (run net PerEpoch (EpochBegin dt dv :: evs)) (self, w) in
  let targets := if targets_absent self dt dv then []
                 else seen_targets (on_train self) evs in
  (run net PerEpoch (EpochBegin dt dv :: evs) (self, w)).1 = Ok ()
  ∧ cache_of s.1 s.2 = (Some targets, Some (seen_preds (on_train self) evs))
  ∧ ∃ lp,
      y_preds_ s.1 = Some lp
      ∧ (net_dict_infer w = None →
         EpochScoring.on_epoch_end net dt dv s =
           match (if on_train self then dt else dv) with
           | Some ds =>
               after_scoring s.1 s.2
                 (_scoring net s.1 (XDataset ds) (concat_targets self targets)
                    (set_net_dict_infer (Some (lp, 0)) s.2)).1
           | None => (Ok (), s)
           end).
Proof.
  intros Hc Hevs s targets. subst s targets.
  set (lt := fresh (dom (heap w))).
  set (lp := fresh (dom (<[lt := []]> (heap w)))).
  set (self1 := set_y_is_placeholder_ (targets_absent self dt dv)
                  (set_y_preds_ lp (set_y_trues_ lt self))).
  set (w1 := set_heap (<[lp := []]> (<[lt := []]> (heap w))) w).
  assert (run net PerEpoch (EpochBegin dt dv :: evs) (self, w)
          = run net PerEpoch evs (self1, w1)) as Hrun.
  { cbn [run fire]. unfold bind at 1. by rewrite on_epoch_begin_eq. }
  unfold exec. rewrite Hrun.
  assert (lt ≠ lp) as Hne.
  { intros Heq. pose proof (is_fresh (dom (<[lt := []]> (heap w)))) as Hf.
    fold lp in Hf. rewrite <-Heq in Hf. apply Hf.
    apply elem_of_dom. rewrite lookup_insert_eq. by eexists. }
  destruct (epoch_batches_accumulate net evs self1 w1 lt lp [] []
              (targets_absent self dt dv))
    as (H1 & H2 & H3 & H4 & H5 & H6); try done.
  { subst w1. simpl. rewrite lookup_insert_ne by done.
    by rewrite lookup_insert_eq. }
  { subst w1. simpl. by rewrite lookup_insert_eq. }
  unfold exec in *.
  destruct (run net PerEpoch evs (self1, w1)) as [r [self2 w2]].
  simpl in *. subst r self2. split; [done|]. split.
  - unfold cache_of. simpl. by rewrite H3, H4.
  - exists lp. split; [done|]. intros Hplain.
    destruct (if on_train self then dt else dv) as [ds|] eqn:Hds.
    + rewrite (epoch_on_epoch_end_caching_after net dt dv self1 w2 lp lt
                 (if targets_absent self dt dv then []
                  else seen_targets (on_train self) evs) ds);
        try done.
      congruence.
    + unfold EpochScoring.on_epoch_end, EpochScoring.scoring_inputs, bind,
        on_self, get, attr, on_world, read_list, ret.
      simpl. by rewrite Hc, Hds.
Qed.

Lemma epoch_cache_accumulates_witness :
  let s := exec (run Demo.net PerEpoch
                   (EpochBegin None (Some (CustomDataset 1))
                    :: Demo.mixed_batches))
                (Demo.acc_epoch, Demo.world0) in
  let targets := if targets_absent Demo.acc_epoch None
                      (Some (CustomDataset 1)) then []
                 else seen_targets (on_train Demo.acc_epoch)
                        Demo.mixed_batches in
  (run Demo.net PerEpoch
     (EpochBegin None (Some (CustomDataset 1)) :: Demo.mixed_batches)
     (Demo.acc_epoch, Demo.world0)).1 = Ok ()
  ∧ cache_of s.1 s.2
    = (Some targets,
       Some (seen_preds (on_train Demo.acc_epoch) Demo.mixed_batches))
  ∧ ∃ lp,
      y_preds_ s.1 = Some lp
      ∧ EpochScoring.on_epoch_end Demo.net None (Some (CustomDataset 1)) s =
          after_scoring s.1 s.2
            (_scoring Demo.net s.1 (XDataset (CustomDataset 1))
               (concat_targets Demo.acc_epoch targets)
               (set_net_dict_infer (Some (lp, 0)) s.2)).1.
Proof.
  destruct (epoch_cache_accumulates Demo.net Demo.acc_epoch Demo.world0 None
              (Some (CustomDataset 1)) Demo.mixed_batches)
    as (Hrun & Hcache & lp & Hp & Hend).
  - reflexivity.
  - repeat constructor.
  - split; [exact Hrun|]. split; [exact Hcache|]. exists lp.
    split; [exact Hp|]. apply Hend. reflexivity.
Defined.

(** ** The history key *)

(** C10. Without an explicit [name], [initialize] sets the history key
    [name_] to "score" when [scoring] is [None], to the string when it is a
    string, to the wrapped function's [__name__] when it is a
    [functools.partial], and to the callable's [__name__] otherwise.
    Whenever an epoch end scores, it records the score under that key and,
    with comparison enabled ([lower_is_better] not [None]), the flag that
    [_is_best_score] returns under that key with "_best" appended; with
    comparison disabled it records no flag; no other entry is touched.
    This holds of [BatchScoring.on_epoch_end] once there are batch scores
    and the averaging returns, and of [EpochScoring.on_epoch_end] once the
    scoring call returns, with and without caching. *)
Theorem history_key_of_strategy :
  (∀ (net : NeuralNet) (k : strategy) (self : ScoringBase) (w : world),
     name self = None →
     match scoring self with
     | ScoringNone =>
         name_ (exec (fire net k Initialize) (self, w)).1 = Some "score"
     | ScoringStr s =>
         name_ (exec (fire net k Initialize) (self, w)).1 = Some s
     | ScoringPartial (Some n) _ =>
         name_ (exec (fire net k Initialize) (self, w)).1 = Some n
     | ScoringCallable (Some n) _ =>
         name_ (exec (fire net k Initialize) (self, w)).1 = Some n
     | _ => True
     end)
  ∧ (∀ (self : ScoringBase) (w : world) (n : string) (hs : History)
       (ep : epoch) (col : list value) (c : Qc),
       name_ self = Some n →
       net_history w = hs ++ [ep] →
       lower_is_better self = None ∨ is_Some (best_score_ self) →
       history.batches_column n (net_history w) = Ok col →
       BatchScoring.get_avg_score self (net_history w) = Ok c →
       ∃ self' w' ep',
         BatchScoring.on_epoch_end (self, w) = (Ok (), (self', w'))
         ∧ last (net_history w') = Some ep'
         ∧ score_and_flag_under self n c ep ep')
  ∧ (∀ (net : NeuralNet) (dt dv : option dataset) (self : ScoringBase)
       (w : world) (n : string) (hs : History) (ep : epoch)
       (lp lt : loc) (ts : list tensor) (ds : dataset) (c : Qc),
       name_ self = Some n →
       net_history w = hs ++ [ep] →
       lower_is_better self = None ∨ is_Some (best_score_ self) →
       use_caching self = true →
       y_preds_ self = Some lp →
       y_trues_ self = Some lt →
       heap w !! lt = Some ts →
       (if on_train self then dt else dv) = Some ds →
       net_dict_infer w = None →
       (_scoring net self (XDataset ds) (concat_targets self ts)
          (set_net_dict_infer (Some (lp, 0)) w)).1 = Ok c →
       ∃ self' w' ep',
         EpochScoring.on_epoch_end net dt dv (self, w) = (Ok (), (self', w'))
         ∧ last (net_history w') = Some ep'
         ∧ score_and_flag_under self n c ep ep')
  ∧ (∀ (net : NeuralNet) (dt dv : option dataset) (self : ScoringBase)
       (w : world) (n : string) (hs : History) (ep : epoch)
       (ds : dataset) (X_test : xtest) (y_test : option ndarray) (c : Qc),
       name_ self = Some n →
       net_history w = hs ++ [ep] →
       lower_is_better self = None ∨ is_Some (best_score_ self) →
       use_caching self = false →
       (if on_train self then dt else dv) = Some ds →
       uncached_inputs self ds = (Some X_test, y_test) →
       net_dict_infer w = None →
       (_scoring net self X_test y_test
          (set_heap (<[fresh (dom (heap w)) := []]> (heap w)) w)).1 = Ok c →
       ∃ self' w' ep',
         EpochScoring.on_epoch_end net dt dv (self, w) = (Ok (), (self', w'))
         ∧ last (net_history w') = Some ep'
         ∧ score_and_flag_under self n c ep ep').
Proof.
  split; [|split; [|split]].
  - intros net k self w Hname.
    assert (∀ n, _get_name self = Ok n →
                 name_ (exec (fire net k Initialize) (self, w)).1 = Some n)
      as Hinit.
    { intros n Hn. unfold exec.
      destruct k; simpl;
        unfold EpochScoring.initialize, EpochScoring._initialize_cache,
          initialize, bind, on_self, on_world, get, setattr, modify,
          of_result, alloc;
        simpl; by rewrite Hn. }
    unfold _get_name in Hinit. rewrite Hname in Hinit.
    destruct (scoring self) as [|s|[n|] f|[n|] f]; auto.
  - intros self w n hs ep col c Hn Hh Hinit Hcol Havg.
    destruct (batch_on_epoch_end_records self w n hs ep col c)
      as (self' & ep' & -> & Hrec); try done.
    eexists _, _, ep'. split; [done|]. simpl. by rewrite last_snoc.
  - intros net dt dv self w n hs ep lp lt ts ds c
      Hn Hh Hinit Hc Hp Ht Hlt Hds Hplain Hsc.
    rewrite (epoch_on_epoch_end_caching_after net dt dv self w lp lt ts ds)
      by done.
    rewrite Hsc.
    destruct (after_scoring_recorded self w n hs ep c)
      as (self' & ep' & -> & Hrec); try done.
    eexists _, _, ep'. split; [done|]. simpl. by rewrite last_snoc.
  - intros net dt dv self w n hs ep ds X_test y_test c
      Hn Hh Hinit Hc Hds Hin Hplain Hsc.
    rewrite (epoch_on_epoch_end_uncached_after net dt dv self w ds X_test
               y_test) by done.
    rewrite Hsc.
    destruct (after_scoring_recorded self
                (set_heap (<[fresh (dom (heap w)) := []]> (heap w)) w)
                n hs ep c)
      as (self' & ep' & -> & Hrec); try done.
    eexists _, _, ep'. split; [done|]. simpl. by rewrite last_snoc.
Qed.

Lemma history_key_of_strategy_witness :
  name_ (exec (fire Demo.net PerEpoch Initialize)
           (Demo.acc_epoch, Demo.world0)).1 = Some "acc"
  ∧ (∃ self' w' ep',
       BatchScoring.on_epoch_end (Demo.echo, Demo.scored_batch_world)
         = (Ok (), (self', w'))
       ∧ last (net_history w') = Some ep'
       ∧ score_and_flag_under Demo.echo "echo" (Demo.q 1 2)
           (default (Epoch ∅ []) (last (net_history Demo.scored_batch_world)))
           ep')
  ∧ ∃ self' w' ep',
      EpochScoring.on_epoch_end Demo.net None (Some (CustomDataset 1))
        (Demo.summing_epoch.1, Demo.summing_epoch.2) = (Ok (), (self', w'))
      ∧ last (net_history w') = Some ep'
      ∧ score_and_flag_under Demo.summing_epoch.1 "sum" (Demo.q 42 1)
          (Epoch ∅ []) ep'.
Proof.
  split; [|split].
  - apply (proj1 history_key_of_strategy Demo.net PerEpoch Demo.acc_epoch
             Demo.world0).
    reflexivity.
  - apply (proj1 (proj2 history_key_of_strategy) Demo.echo
             Demo.scored_batch_world "echo" []
             (default (Epoch ∅ []) (last (net_history Demo.scored_batch_world)))
             [VNum (Demo.q 1 2)] (Demo.q 1 2)).
    + reflexivity.
    + reflexivity.
    + right. by eexists.
    + reflexivity.
    + vm_compute. f_equal. apply Qc_is_canon. reflexivity.
  - apply (proj1 (proj2 (proj2 history_key_of_strategy)) Demo.net None
             (Some (CustomDataset 1)) Demo.summing_epoch.1
             Demo.summing_epoch.2 "sum" [] (Epoch ∅ [])
             2%positive 1%positive [[10%Z]; [30%Z]] (CustomDataset 1)
             (Demo.q 42 1)).
    + reflexivity.
    + reflexivity.
    + right. by eexists.
    + reflexivity.
    + reflexivity.
    + reflexivity.
    + reflexivity.
    + reflexivity.
    + reflexivity.
    + vm_compute. reflexivity.
Defined.

(** A whole epoch of either callback leaves the score under the key and
    the flag under the key with "_best" appended. *)
Example keys_after_an_epoch :
  (net_history
     (exec (run Demo.net PerBatch Demo.batch_events)
           (Demo.acc_batch, Demo.world0)).2
   = [Epoch {[ "acc" := VNum (Demo.q 23 100); "acc_best" := VBool true ]}
        (ep_batches
           (default (Epoch ∅ []) (last (net_history Demo.batches_done.2))))])
  ∧ epoch_column "probe_best"
      (net_history
         (exec (run Demo.net PerEpoch
                  (Demo.probe_events (SkorchDataset (Some [1%Z]) None)))
               (Demo.probe, Demo.world0)).2)
    = [Some (VBool true)].
Proof. split; vm_compute; reflexivity. Qed.


(** ** From the batches to the average *)

(** X22. From the batches to the epoch: a [BatchScoring] whose scorer is a
    function of the batch, taken through the batches of its phase (after
    whatever batches the epoch already had, those of the other phase, that
    carry no score under its name), leaves for [get_avg_score] exactly one
    row per batch of its phase, in batch order: the batch's sample count
    and the score of its data and extracted target. [get_avg_score] hands
    the scores and the sample counts of these rows to [np.average], and
    what that returns [on_epoch_end] records as the epoch's score under
    the callback's name. *)
Theorem batch_scoring_epoch_end_to_end
    (net : NeuralNet) (self : ScoringBase) (w : world)
    (nm : option string) (f : scorer) (g : xtest → option ndarray → Qc)
    (n : string) (hs : History) (ents : gmap string value)
    (bs : list (gmap string value)) (batches : list batch) :
  net_dict_infer w = None →
  name_ self = Some n →
  scoring self = ScoringCallable nm f →
  (∀ X y, f X y = Return (g X y)) →
  net_history w = hs ++ [Epoch ents bs] →
  (∀ b, b ∈ bs → b !! n = None) →
  n ≠ bs_key (on_train self) →
  batches ≠ [] →
  let out := run net PerBatch (batch_events_of (on_train self) batches)
               (self, w) in
  out.1 = Ok ()
  ∧ out.2.1 = self
  ∧ history.batches_pairs (bs_key (on_train self)) n (net_history out.2.2)
    = Ok (rows_of self g batches)
  ∧ BatchScoring.get_avg_score self (net_history out.2.2)
    = np_average (rows_of self g batches).*2 (rows_of self g batches).*1
  ∧ ∀ c,
      BatchScoring.get_avg_score self (net_history out.2.2) = Ok c →
      lower_is_better self = None ∨ is_Some (best_score_ self) →
      ∃ self' w' ep',
        BatchScoring.on_epoch_end out.2 = (Ok (), (self', w'))
        ∧ last (net_history w') = Some ep'
        ∧ ep_entries ep' !! n = Some (VNum c).
Proof.
  intros Hplain Hn Hsc Hf Hh Hbs Hkey Hne out. subst out.
  destruct (batch_epoch_runs net self nm f g n batches w hs ents bs)
    as [hp Hrun]; try done.
  match type of Hrun with
  | _ = (_, (_, World _ _ (_ ++ [Epoch _ ?b']))) => set (bs' := b') in *
  end.
  rewrite Hrun. simpl.
  set (recs := (λ b, (Q2Qc (inject_Z (b_size b)),
                      g (XTensor (b_X b))
                        (Some (target_extractor self (b_y b))))) <$> batches).
  assert (Forall2 (batch_holds (on_train self) n)
            (filter (λ b : gmap string value, is_Some (b !! n)) bs') recs)
    as Hall.
  { subst bs' recs. rewrite filter_app.
    assert (filter (λ b : gmap string value, is_Some (b !! n)) bs = []) as ->.
    { clear -Hbs. induction bs as [|b bs IH]; [done|].
      rewrite filter_cons_False.
      - apply IH. intros b' Hb'. apply Hbs. by right.
      - rewrite (Hbs b (list_elem_of_here _ _)). by intros [? ?]. }
    simpl. clear -Hkey.
    induction batches as [|b batches IH]; simpl; [constructor|].
    rewrite filter_cons_True.
    + constructor; [|done]. split; simpl.
      * rewrite lookup_insert_ne by done. by rewrite lookup_insert_eq.
      * by rewrite lookup_insert_eq.
    + rewrite lookup_insert_eq. by eexists. }
  destruct (queries_of_batches _ _ _ _ Hall) as [Hrows Hcol].
  assert ((λ r : Qc * Qc, (VNum r.1, VNum r.2)) <$> recs = rows_of self g batches)
    as Hrecs.
  { subst recs. unfold rows_of. by rewrite <-list_fmap_compose. }
  rewrite Hrecs in Hrows.
  assert (history.batches_pairs (bs_key (on_train self)) n
            (hs ++ [Epoch ents bs']) = Ok (rows_of self g batches)) as Hpairs.
  { unfold history.batches_pairs. rewrite last_snoc. simpl. rewrite Hrows.
    by destruct batches. }
  assert (BatchScoring.get_avg_score self (hs ++ [Epoch ents bs'])
          = np_average (rows_of self g batches).*2 (rows_of self g batches).*1)
    as Havg.
  { unfold BatchScoring.get_avg_score. rewrite Hn.
    fold (bs_key (on_train self)). by rewrite Hpairs. }
  split; [done|]. split; [done|]. split; [done|]. split; [done|].
  intros c Hc Hinit.
  destruct (batch_on_epoch_end_records self
              (World hp None (hs ++ [Epoch ents bs'])) n hs (Epoch ents bs')
              ((λ r : Qc * Qc, VNum r.2) <$> recs) c)
    as (self' & ep' & -> & Hscore & _); try done.
  { unfold history.batches_column. simpl. rewrite last_snoc. simpl.
    rewrite Hcol. subst recs. by destruct batches. }
  eexists _, _, ep'. split; [done|]. simpl. by rewrite last_snoc.
Qed.

Lemma batch_scoring_epoch_end_to_end_witness :
  let out := run Demo.net PerBatch
               (batch_events_of (on_train Demo.pure_batch) Demo.three_batches)
               (Demo.pure_batch, Demo.train_done_world) in
  out.1 = Ok ()
  ∧ out.2.1 = Demo.pure_batch
  ∧ history.batches_pairs (bs_key (on_train Demo.pure_batch)) "first"
      (net_history out.2.2)
    = Ok (rows_of Demo.pure_batch Demo.first_score Demo.three_batches)
  ∧ BatchScoring.get_avg_score Demo.pure_batch (net_history out.2.2)
    = np_average
        (rows_of Demo.pure_batch Demo.first_score Demo.three_batches).*2
        (rows_of Demo.pure_batch Demo.first_score Demo.three_batches).*1
  ∧ ∀ c,
      BatchScoring.get_avg_score Demo.pure_batch (net_history out.2.2) = Ok c →
      lower_is_better Demo.pure_batch = None
      ∨ is_Some (best_score_ Demo.pure_batch) →
      ∃ self' w' ep',
        BatchScoring.on_epoch_end out.2 = (Ok (), (self', w'))
        ∧ last (net_history w') = Some ep'
        ∧ ep_entries ep' !! "first" = Some (VNum c).
Proof.
  apply (batch_scoring_epoch_end_to_end Demo.net Demo.pure_batch
           Demo.train_done_world (Some "first") Demo.pure_scorer
           Demo.first_score "first" [] ∅
           [ {[ "train_batch_size" := VNum (Demo.q 4 1) ]} ]
           Demo.three_batches).
  - reflexivity.
  - reflexivity.
  - reflexivity.
  - reflexivity.
  - reflexivity.
  - intros b Hb. apply list_elem_of_singleton in Hb. by subst b.
  - discriminate.
  - discriminate.
Defined.

(** The rows of the three validation batches, the training batch of the
    same epoch contributing none. *)
Example three_batches_rows :
  history.batches_pairs "valid_batch_size" "first"
    (net_history
       (exec (run Demo.net PerBatch
                (batch_events_of false Demo.three_batches))
             (Demo.pure_batch, Demo.train_done_world)).2)
  = Ok [(VNum (Demo.q 2 1), VNum (Demo.q 1 10));
        (VNum (Demo.q 3 1), VNum (Demo.q 2 10));
        (VNum (Demo.q 5 1), VNum (Demo.q 3 10))].
Proof. vm_compute. reflexivity. Qed.
